(** * Memory Scramble board (lab3, [src/board.ts]): model and properties

    A shallow embedding of the [Board] class: the grid of spots, the
    promise-based lock, the per-card and board-wide wait registries, the
    flip protocol with its deferred cleanup, rendering, watching and the
    three-phase [mapCards].

    Conventions of the embedding.
    - A JavaScript string is a [string]: a sequence of code units, here
      restricted to the code units below 256.  String literals of this
      file are plain ASCII.
    - A resolve callback stored in [lockWaiters], [watchers] or
      [cardWaiters] is named by the [CallId] of the call that awaits the
      promise; calling it is recorded and applied to the table of pending
      calls (see [resolve]).
    - Code between two [await]s runs without interruption (one turn of the
      event loop); a turn is one application of [turn] or [call]. *)

From stdpp Require Import gmap strings list fin_maps pretty.
From Stdlib Require Import ZArith Ascii Lia.

(** ** Strings *)

Definition dquote : string := String (ascii_of_nat 34) EmptyString.
Definition newline : ascii := ascii_of_nat 10.
Definition carriage : ascii := ascii_of_nat 13.

(** [\s] of a JavaScript regular expression and the characters removed by
    [trim], among the code units below 256: TAB, LF, VT, FF, CR, SPACE and
    NBSP. *)
Definition isWhiteSpace (a : ascii) : bool :=
  let n := nat_of_ascii a in
  (n =? 9) || (n =? 10) || (n =? 11) || (n =? 12) || (n =? 13)
  || (n =? 32) || (n =? 160).

Definition isDigit (a : ascii) : bool :=
  let n := nat_of_ascii a in (48 <=? n) && (n <=? 57).

Fixpoint string_forall (p : ascii → bool) (s : string) : bool :=
  match s with
  | EmptyString => true
  | String a s' => p a && string_forall p s'
  end.

(** [CARD_REGEX = /^[^\s\n\r]+$/u]: one or more characters, none of them
    white space. *)
Definition CARD_REGEX_test (s : string) : bool :=
  match s with
  | EmptyString => false
  | _ => string_forall (λ a, negb (isWhiteSpace a)) s
  end.

Fixpoint trimStart (s : string) : string :=
  match s with
  | String a s' => if isWhiteSpace a then trimStart s' else s
  | EmptyString => EmptyString
  end.

Fixpoint trimEnd (s : string) : string :=
  match s with
  | EmptyString => EmptyString
  | String a s' =>
      match trimEnd s' with
      | EmptyString => if isWhiteSpace a then EmptyString else String a EmptyString
      | t => String a t
      end
  end.

Definition trim (s : string) : string := trimEnd (trimStart s).

(** [raw.replace(/\r\n/g, '\n').replace(/\r/g, '\n')] *)
Fixpoint replace_crlf (s : string) : string :=
  match s with
  | String a s' =>
      if Ascii.eqb a carriage then
        match s' with
        | String b s'' =>
            if Ascii.eqb b newline then String newline (replace_crlf s'')
            else String a (replace_crlf s')
        | EmptyString => String a EmptyString
        end
      else String a (replace_crlf s')
  | EmptyString => EmptyString
  end.

Fixpoint replace_cr (s : string) : string :=
  match s with
  | String a s' =>
      String (if Ascii.eqb a carriage then newline else a) (replace_cr s')
  | EmptyString => EmptyString
  end.

(** [s.split(sep)] for a one-character separator: always at least one
    piece. *)
Fixpoint split_on (sep : ascii) (s : string) : list string :=
  match s with
  | EmptyString => [EmptyString]
  | String a s' =>
      if Ascii.eqb a sep then EmptyString :: split_on sep s'
      else match split_on sep s' with
           | piece :: rest => String a piece :: rest
           | [] => [String a EmptyString]
           end
  end.

(** [while (lines.length > 0 && lines[lines.length - 1] === '') lines.pop()] *)
Fixpoint pop_empty_lines (lines : list string) : list string :=
  match lines with
  | [] => []
  | l :: rest =>
      match pop_empty_lines rest with
      | [] => if String.eqb l "" then [] else [l]
      | rest' => l :: rest'
      end
  end.

(** [parseInt(digits, 10)] on a string of decimal digits.  The model is
    exact; JavaScript rounds above 2^53, where no array length can equal
    the product of the dimensions in either reading. *)
Definition parseInt_digits (s : string) : nat :=
  fold_left (λ acc a, 10 * acc + (nat_of_ascii a - 48)) (String.list_ascii_of_string s) 0.

Definition all_digits (s : string) : bool :=
  match s with
  | EmptyString => false
  | _ => string_forall isDigit s
  end.

(** [/^(\d+)x(\d+)$/.exec(dims)]: the first [x] is the separator, since a
    digit is never an [x]. *)
Fixpoint break_at_x (s : string) : option (string * string) :=
  match s with
  | EmptyString => None
  | String a s' =>
      if Ascii.eqb a "x"%char then Some (EmptyString, s')
      else match break_at_x s' with
           | Some (l, r) => Some (String a l, r)
           | None => None
           end
  end.

Definition match_dims (dims : string) : option (string * string) :=
  match break_at_x dims with
  | Some (l, r) => if all_digits l && all_digits r then Some (l, r) else None
  | None => None
  end.

(** ** Data model *)

Record Spot := mkSpot {
  card : option string;
  faceUp : bool;
  controller : option string (* player ID of controller *)
}.

Definition CallId := nat.

Record Board := mkBoard {
  rows : nat;
  cols : nat;
  grid : list (list Spot);
  watchers : list CallId;
  (* keyed by (row, col); the source builds the key "row,col" *)
  cardWaiters : gmap (nat * nat) (list CallId);
  lockWaiters : list CallId;
  lockHeld : bool
}.

Definition spotAt (g : list (list Spot)) (r c : nat) : option Spot :=
  g !! r ≫= (.!! c).

(** Every [(r, c)] visited by the nested loops
    [for r in 0..rows) for c in 0..cols)], in visiting order. *)
Definition positions (nrows ncols : nat) : list (nat * nat) :=
  r ← seq 0 nrows; c ← seq 0 ncols; [(r, c)].

Definition set_grid (g : list (list Spot)) (b : Board) : Board :=
  mkBoard (rows b) (cols b) g (watchers b) (cardWaiters b) (lockWaiters b) (lockHeld b).
Definition set_watchers (w : list CallId) (b : Board) : Board :=
  mkBoard (rows b) (cols b) (grid b) w (cardWaiters b) (lockWaiters b) (lockHeld b).
Definition set_cardWaiters (m : gmap (nat * nat) (list CallId)) (b : Board) : Board :=
  mkBoard (rows b) (cols b) (grid b) (watchers b) m (lockWaiters b) (lockHeld b).
Definition set_lockWaiters (l : list CallId) (b : Board) : Board :=
  mkBoard (rows b) (cols b) (grid b) (watchers b) (cardWaiters b) l (lockHeld b).
Definition set_lockHeld (h : bool) (b : Board) : Board :=
  mkBoard (rows b) (cols b) (grid b) (watchers b) (cardWaiters b) (lockWaiters b) h.

(** In-place update of the spot object at [(r, c)]. *)
Definition update_spot (f : Spot → Spot) (r c : nat) (g : list (list Spot)) : list (list Spot) :=
  alter (alter f c) r g.

(** ** Construction *)

(** The fields assigned by the private constructor:
    [cardsRowMajor[i++] ?? null] for each cell. *)
Definition initial_board (nrows ncols : nat) (cardsRowMajor : list string) : Board :=
  let g := (λ r, (λ c, mkSpot (cardsRowMajor !! (r * ncols + c)) false None) <$> seq 0 ncols)
             <$> seq 0 nrows in
  mkBoard nrows ncols g [] ∅ [] false.

(** [checkRep]: the first failed assertion, if any. *)
Definition checkSpot (spot : Spot) : option string :=
  match card spot with
  | None =>
      if faceUp spot then Some "null card cannot be face up"
      else if bool_decide (controller spot = None) then None
      else Some "null card cannot have controller"
  | Some s =>
      if negb (CARD_REGEX_test s) then Some ("invalid card string: " +:+ s)
      else if bool_decide (controller spot = None) then None
      else if faceUp spot then None
      else Some "controlled card must be face up"
  end.

Fixpoint first_failure {A} (check : A → option string) (l : list A) : option string :=
  match l with
  | [] => None
  | x :: l' => match check x with Some e => Some e | None => first_failure check l' end
  end.

Definition checkRow (ncols : nat) (row : list Spot) : option string :=
  if negb (List.length row =? ncols) then Some "grid/cols mismatch"
  else first_failure checkSpot row.

Definition checkRep (b : Board) : option string :=
  if negb (List.length (grid b) =? rows b) then Some "grid/rows mismatch"
  else first_failure (checkRow (cols b)) (grid b).

(** The private constructor, which ends with [checkRep()]. *)
Definition new_Board (nrows ncols : nat) (cardsRowMajor : list string) : string + Board :=
  let b := initial_board nrows ncols cardsRowMajor in
  match checkRep b with
  | Some msg => inl msg
  | None => inr b
  end.

Inductive ParseError :=
| EmptyBoardFile
| MissingDimensionLine
| InvalidDimensionLine (dims : string)
| RowsColsNotPositive
| WrongCardCount (expected found : nat)
| InvalidCard (lineNumber : nat) (line : string)
| RepViolation (msg : string).

Fixpoint parse_cards (idx : nat) (cardLines : list string) : ParseError + list string :=
  match cardLines with
  | [] => inr []
  | line :: rest =>
      let c := trim line in
      if CARD_REGEX_test c then
        match parse_cards (S idx) rest with
        | inr cs => inr (c :: cs)
        | inl e => inl e
        end
      else inl (InvalidCard (idx + 2) line)
  end.

(** [Board.parseFromFile], from the contents of the file. *)
Definition parseFromFile (raw : string) : ParseError + Board :=
  let lines := pop_empty_lines (split_on newline (replace_cr (replace_crlf raw))) in
  match lines with
  | [] => inl EmptyBoardFile
  | first :: cardLines =>
      let dims := trim first in
      if String.eqb dims "" then inl MissingDimensionLine
      else match match_dims dims with
           | None => inl (InvalidDimensionLine dims)
           | Some (m1, m2) =>
               let nrows := parseInt_digits m1 in
               let ncols := parseInt_digits m2 in
               if (nrows =? 0) || (ncols =? 0) then inl RowsColsNotPositive
               else
                 let expected := nrows * ncols in
                 if negb (List.length cardLines =? expected)
                 then inl (WrongCardCount expected (List.length cardLines))
                 else match parse_cards 0 cardLines with
                      | inl e => inl e
                      | inr cards =>
                          match new_Board nrows ncols cards with
                          | inl msg => inl (RepViolation msg)
                          | inr b => inr b
                          end
                      end
           end
  end.

(** ** Rendering *)

Definition viewOf (spot : Spot) (player : string) : string :=
  match card spot with
  | None => "none"
  | Some c =>
      if negb (faceUp spot) then "down"
      else if bool_decide (controller spot = Some player) then "my " +:+ c
      else "up " +:+ c
  end.

(** The lines pushed by the loop of [renderFor], one per existing spot. *)
Definition cell_lines (b : Board) (player : string) : list string :=
  omap (λ '(r, c), (λ spot, viewOf spot player) <$> spotAt (grid b) r c)
       (positions (rows b) (cols b)).

Definition dimension_line (b : Board) : string :=
  pretty (rows b) +:+ "x" +:+ pretty (cols b).

(** [lines.join('\n') + '\n'] *)
Definition render_text (b : Board) (player : string) : string :=
  String.concat (String newline "") (dimension_line b :: cell_lines b player)
  +:+ String newline "".

(** ** The lock and the wait registries

    Each method returns the new board together with the resolve callbacks
    it called, in call order. *)

(** [acquireLock], up to its [await]: [true] when the caller owns the lock
    at once, [false] when its callback [me] was queued. *)
Definition acquireLock (me : CallId) (b : Board) : Board * bool :=
  if lockHeld b then (set_lockWaiters (lockWaiters b ++ [me]) b, false)
  else (set_lockHeld true b, true).

Definition releaseLock (b : Board) : Board * list CallId :=
  match lockWaiters b with
  | nextWaiter :: rest => (set_lockWaiters rest b, [nextWaiter])
  | [] => (set_lockHeld false b, [])
  end.

Definition notifyWatchers (b : Board) : Board * list CallId :=
  (set_watchers [] b, watchers b).

Definition notifyCardWaiters (r c : nat) (b : Board) : Board * list CallId :=
  match cardWaiters b !! (r, c) with
  | Some waiters => (set_cardWaiters (delete (r, c) (cardWaiters b)) b, waiters)
  | None => (b, [])
  end.

Definition waitForCard (me : CallId) (r c : nat) (b : Board) : Board :=
  let waiters := default [] (cardWaiters b !! (r, c)) in
  set_cardWaiters (<[(r, c) := waiters ++ [me]]> (cardWaiters b)) b.

(** ** Cleanup of a completed turn *)

(** [spot.controller === player && spot.faceUp] *)
Definition controlledBy (player : string) (spot : Spot) : bool :=
  bool_decide (controller spot = Some player) && faceUp spot.

(** The entry pushed on [playerCards] (and the [firstCard] candidate) for
    a spot, if any: [controller === player && faceUp && card], where a card
    is truthy when it is a non-empty string. *)
Definition heldCard (player : string) (g : list (list Spot)) (pos : nat * nat)
  : option (nat * nat * string) :=
  match spotAt g pos.1 pos.2 with
  | Some spot =>
      match card spot with
      | Some k =>
          if controlledBy player spot && negb (String.eqb k "")
          then Some (pos.1, pos.2, k) else None
      | None => None
      end
  | None => None
  end.

Definition playerCards (player : string) (b : Board) : list (nat * nat * string) :=
  omap (heldCard player (grid b)) (positions (rows b) (cols b)).

Definition removedSpot (_ : Spot) : Spot := mkSpot None false None.
Definition faceDown (s : Spot) : Spot := mkSpot (card s) false (controller s).
Definition takenBy (player : string) (s : Spot) : Spot := mkSpot (card s) true (Some player).
Definition released (s : Spot) : Spot := mkSpot (card s) (faceUp s) None.

(** RULE 3-A: remove the two matching cards controlled by [player]. *)
Definition removeMatched (player : string) (b : Board) : Board * list CallId * bool :=
  match playerCards player b with
  | [(r1, c1, k1); (r2, c2, k2)] =>
      if String.eqb k1 k2 then
        match spotAt (grid b) r1 c1, spotAt (grid b) r2 c2 with
        | Some _, Some _ =>
            let g := update_spot removedSpot r2 c2 (update_spot removedSpot r1 c1 (grid b)) in
            let '(b1, w1) := notifyCardWaiters r1 c1 (set_grid g b) in
            let '(b2, w2) := notifyCardWaiters r2 c2 b1 in
            (b2, w1 ++ w2, true)
        | _, _ => (b, [], false)
        end
      else (b, [], false)
  | _ => (b, [], false)
  end.

(** RULE 3-B, one iteration of the loop body. *)
Definition flipDownAt (st : Board * list CallId * bool) (pos : nat * nat)
  : Board * list CallId * bool :=
  let '(b, w, cleanedUp) := st in
  match spotAt (grid b) pos.1 pos.2 with
  | Some spot =>
      if bool_decide (card spot ≠ None) && faceUp spot
         && bool_decide (controller spot = None)
      then
        let '(b1, w1) :=
          notifyCardWaiters pos.1 pos.2
            (set_grid (update_spot faceDown pos.1 pos.2 (grid b)) b) in
        (b1, w ++ w1, true)
      else st
  | None => st
  end.

Definition cleanupCompletedTurns (player : string) (b : Board)
  : Board * list CallId * bool :=
  fold_left flipDownAt (positions (rows b) (cols b)) (removeMatched player b).

(** ** The locked part of [flipCard]: one iteration of its loop *)

Inductive Completion :=
| Returned
| Threw (msg : string)
| Suspended.

(** [catch (error) { this.releaseLock(); throw error; }] *)
Definition throwError (msg : string) (b : Board) (w : list CallId)
  : Board * list CallId * Completion :=
  let '(b', w') := releaseLock b in (b', w ++ w', Threw msg).

(** [s && s.controller === player && s.faceUp] for the spot at [pos]. *)
Definition controlsAt (player : string) (g : list (list Spot)) (pos : nat * nat) : bool :=
  match spotAt g pos.1 pos.2 with
  | Some s => controlledBy player s
  | None => false
  end.

Definition controlledCount (player : string) (b : Board) : nat :=
  length (List.filter (controlsAt player (grid b)) (positions (rows b) (cols b))).

(** The search for [firstCard]: the first held card away from [(r, c)]. *)
Definition firstCard (player : string) (r c : nat) (b : Board) : option (nat * nat * string) :=
  head (omap (λ pos, if bool_decide (pos = (r, c)) then None
                     else heldCard player (grid b) pos)
             (positions (rows b) (cols b))).

(** RULE 2-E: after the second card is turned, give up both on a mismatch. *)
Definition relinquishIfMismatch (player : string) (r c : nat) (target : string) (b : Board) : Board :=
  match firstCard player r c b with
  | Some (r1, c1, k1) =>
      if negb (String.eqb k1 target)
      then set_grid (update_spot released r1 c1 (update_spot released r c (grid b))) b
      else b
  | None => b
  end.

(** The checks of [flipCard] between the cleanup and the flip itself, in
    source order: they only read the board, and end in a thrown error, in
    the decision to wait for the card, or in the decision to turn it. *)
Inductive Verdict :=
| Reject (msg : string)
| Wait (r c : nat)
| Take (r c : nat) (target : string) (isSecondCard : bool).

Definition verdict (player : string) (row col : Z) (b : Board) : Verdict :=
  if ((row <? 0) || (row >=? Z.of_nat (rows b))
      || (col <? 0) || (col >=? Z.of_nat (cols b)))%Z
  then Reject "invalid coordinates"
  else
    let r := Z.to_nat row in
    let c := Z.to_nat col in
    match spotAt (grid b) r c with
    | None => Reject "cannot flip: no card at position"
    | Some spot =>
        match card spot with
        | None => Reject "cannot flip: no card at position"
        | Some target =>
            let count := controlledCount player b in
            if 2 <=? count
            then Reject "cannot flip: you already control 2 cards"
            else
              let isSecondCard := count =? 1 in
              if controlledBy player spot
              then Reject "cannot flip: card already controlled by you"
              else if isSecondCard && bool_decide (controller spot ≠ None)
              then Reject "cannot flip: card is controlled by another player"
              else if negb isSecondCard && bool_decide (controller spot ≠ None)
                      && bool_decide (controller spot ≠ Some player)
              then Wait r c
              else Take r c target isSecondCard
        end
    end.

(** The flip itself: [spot.faceUp = true; spot.controller = player] and,
    for a second card, the comparison with the first. *)
Definition turnCard (player : string) (r c : nat) (target : string) (isSecondCard : bool)
    (b : Board) : Board :=
  let b' := set_grid (update_spot (takenBy player) r c (grid b)) b in
  if isSecondCard then relinquishIfMismatch player r c target b' else b'.

(** One pass through the body of [while (true)] in [flipCard], from the
    moment the lock is owned to the moment it is released. *)
Definition flipSection (me : CallId) (player : string) (row col : Z) (b0 : Board)
  : Board * list CallId * Completion :=
  let '(b1, w1, didCleanup) := cleanupCompletedTurns player b0 in
  let '(b2, w2) := if didCleanup then notifyWatchers b1 else (b1, []) in
  let w := w1 ++ w2 in
  match verdict player row col b2 with
  | Reject msg => throwError msg b2 w
  | Wait r c =>
      let '(b3, w3) := releaseLock (waitForCard me r c b2) in
      (b3, w ++ w3, Suspended)
  | Take r c target isSecondCard =>
      let b3 := turnCard player r c target isSecondCard b2 in
      match checkRep b3 with
      | Some msg => throwError msg b3 w
      | None =>
          let '(b4, w4) := notifyWatchers b3 in
          let '(b5, w5) := releaseLock b4 in
          (b5, w ++ w4 ++ w5, Returned)
      end
  end.

(** ** The locked parts of [renderFor], [watch] and [mapCards] *)

Definition renderSection (player : string) (b : Board) : Board * list CallId * string :=
  let text := render_text b player in
  let '(b', w) := releaseLock b in
  (b', w, text).

(** [this.watchers.add(resolve); this.releaseLock();] *)
Definition watchSection (me : CallId) (b : Board) : Board * list CallId :=
  releaseLock (set_watchers (watchers b ++ [me]) b).

(** [Set.add]: insertion order, first occurrence kept. *)
Definition set_add (acc : list string) (x : string) : list string :=
  if bool_decide (x ∈ acc) then acc else acc ++ [x].

(** First pass of [mapCards]: the set [uniqueCards]. *)
Definition uniqueCards (b : Board) : list string :=
  fold_left set_add
    (omap (λ pos, spotAt (grid b) pos.1 pos.2 ≫= card) (positions (rows b) (cols b)))
    [].

Definition snapshotSection (b : Board) : Board * list CallId * list string :=
  let cards := uniqueCards b in
  let '(b', w) := releaseLock b in
  (b', w, cards).

(** The compute loop of [mapCards], run without the lock.  [calls] records
    the arguments [f] was called with, in order; the result is the error
    thrown or the map [transformedCards]. *)
Fixpoint computeTransforms (f : string → string) (cards : list string)
    (calls : list string) (transformedCards : gmap string string)
  : list string * (string + gmap string string) :=
  match cards with
  | [] => (calls, inr transformedCards)
  | k :: rest =>
      let newCard := f k in
      if CARD_REGEX_test newCard
      then computeTransforms f rest (calls ++ [k]) (<[k := newCard]> transformedCards)
      else (calls ++ [k],
            inl ("invalid transformed card: " +:+ dquote +:+ newCard +:+ dquote))
  end.

(** Second pass, one iteration:
    [spot.card = transformedCards.get(spot.card) ?? spot.card]
    when [transformedCards.has(spot.card)]. *)
Definition transformSpot (transformedCards : gmap string string) (s : Spot) : Spot :=
  match card s with
  | Some k =>
      match transformedCards !! k with
      | Some k' => mkSpot (Some k') (faceUp s) (controller s)
      | None => s
      end
  | None => s
  end.

Definition applyTransforms (transformedCards : gmap string string) (b : Board) : Board :=
  fold_left (λ b' pos, set_grid (update_spot (transformSpot transformedCards) pos.1 pos.2 (grid b')) b')
            (positions (rows b) (cols b)) b.

(** Second pass with [checkRep], [notifyWatchers] and the [finally]; the
    last component is the assertion error, if one was thrown. *)
Definition applySection (transformedCards : gmap string string) (b : Board)
  : Board * list CallId * option string :=
  let b1 := applyTransforms transformedCards b in
  match checkRep b1 with
  | Some msg => let '(b2, w2) := releaseLock b1 in (b2, w2, Some msg)
  | None =>
      let '(b2, w2) := notifyWatchers b1 in
      let '(b3, w3) := releaseLock b2 in
      (b3, w2 ++ w3, None)
  end.

(** ** Calls in flight *)

(** The public operations. *)
Inductive Call :=
| flipCard (player : string) (row col : Z)
| renderFor (player : string)
| watch (player : string)
| mapCards (player : string) (f : string → string).

(** What a call does once it owns the lock. *)
Inductive Pending :=
| DoFlip (player : string) (row col : Z)
| DoRender (player : string)
| DoWatch (player : string)
| DoSnapshot (player : string) (f : string → string)
| DoApply (player : string) (transformedCards : gmap string string).

Inductive TaskState :=
| Scheduled (k : Pending)       (* woken; its next turn starts with [await acquireLock()] *)
| InLockQueue (k : Pending)     (* its callback sits in [lockWaiters] *)
| HoldsLock (k : Pending)       (* owns the lock; its next turn runs [k] *)
| AwaitsCard (player : string) (row col : Z)   (* [await waitPromise] in [flipCard] *)
| AwaitsChange (player : string)               (* [await waitPromise] in [watch] *)
| Computing (player : string) (f : string → string) (cards : list string)
| Fulfilled (value : option string)            (* returned: text, or nothing *)
| Rejected (msg : string).

Record System := mkSystem {
  board : Board;
  tasks : gmap CallId TaskState;
  nextId : CallId
}.

Definition entry (c : Call) : Pending :=
  match c with
  | flipCard p r c => DoFlip p r c
  | renderFor p => DoRender p
  | watch p => DoWatch p
  | mapCards p f => DoSnapshot p f
  end.

(** Calling a resolve callback: the awaiting call continues on a later
    turn.  A card waiter loops back to the top of [flipCard]; a watcher
    goes on to [return this.renderFor(player)]; a lock waiter owns the lock. *)
Definition resolve (ts : gmap CallId TaskState) (id : CallId) : gmap CallId TaskState :=
  match ts !! id with
  | Some (InLockQueue k) => <[id := HoldsLock k]> ts
  | Some (AwaitsCard p r c) => <[id := Scheduled (DoFlip p r c)]> ts
  | Some (AwaitsChange p) => <[id := Scheduled (DoRender p)]> ts
  | _ => ts
  end.

(** [await this.acquireLock()] by call [id], to continue with [k]. *)
Definition enter (id : CallId) (k : Pending) (s : System) : System :=
  let '(b, owned) := acquireLock id (board s) in
  mkSystem b (<[id := if owned then HoldsLock k else InLockQueue k]> (tasks s)) (nextId s).

(** End of a locked part: the board it left, the callbacks it called and
    the new state of the call itself. *)
Definition finish (id : CallId) (b : Board) (w : list CallId) (st : TaskState) (s : System)
  : System :=
  mkSystem b (fold_left resolve w (<[id := st]> (tasks s))) (nextId s).

Definition run (id : CallId) (k : Pending) (s : System) : System :=
  match k with
  | DoFlip p row col =>
      let '(b, w, res) := flipSection id p row col (board s) in
      finish id b w
        match res with
        | Returned => Fulfilled None
        | Threw msg => Rejected msg
        | Suspended => AwaitsCard p row col
        end s
  | DoRender p =>
      let '(b, w, text) := renderSection p (board s) in
      finish id b w (Fulfilled (Some text)) s
  | DoWatch p =>
      let '(b, w) := watchSection id (board s) in
      finish id b w (AwaitsChange p) s
  | DoSnapshot p f =>
      let '(b, w, cards) := snapshotSection (board s) in
      match cards with
      | [] => (* the compute loop has no iteration: [acquireLock] at once *)
          enter id (DoApply p ∅) (finish id b w (Computing p f []) s)
      | _ => finish id b w (Computing p f cards) s
      end
  | DoApply p m =>
      let '(b, w, err) := applySection m (board s) in
      match err with
      | Some msg => finish id b w (Rejected msg) s
      | None => (* [return await this.renderFor(player)] *)
          enter id (DoRender p) (finish id b w (Scheduled (DoRender p)) s)
      end
  end.

(** A new call: it runs up to its first [await], inside [acquireLock]. *)
Definition call (c : Call) (s : System) : System :=
  enter (nextId s) (entry c) (mkSystem (board s) (tasks s) (S (nextId s))).

(** One turn of the event loop for the pending call [id]. *)
Definition turn (id : CallId) (s : System) : option System :=
  match tasks s !! id with
  | Some (Scheduled k) => Some (enter id k s)
  | Some (HoldsLock k) => Some (run id k s)
  | Some (Computing p f cards) =>
      match (computeTransforms f cards [] ∅).2 with
      | inl msg => Some (mkSystem (board s) (<[id := Rejected msg]> (tasks s)) (nextId s))
      | inr m => Some (enter id (DoApply p m) s)
      end
  | _ => None
  end.

Inductive step : System → System → Prop :=
| step_call c s : step s (call c s)
| step_turn id s s' : turn id s = Some s' → step s s'.

Definition start (b : Board) : System := mkSystem b ∅ 0.

Definition reachable (b : Board) (s : System) : Prop := rtc step (start b) s.

(** A schedule: calls arriving and turns taken, in order. *)
Inductive Event :=
| Arrives (c : Call)
| Turn (id : CallId).

(** A turn named in a schedule is skipped when the call cannot run. *)
Definition exec1 (s : System) (e : Event) : System :=
  match e with
  | Arrives c => call c s
  | Turn id => default s (turn id s)
  end.

Definition exec (s : System) (es : list Event) : System := fold_left exec1 es s.

(** A call that runs alone: it arrives, then takes its turns until it
    settles or suspends (at most four: snapshot, compute, apply, render). *)
Definition alone (c : Call) (s : System) : System :=
  let id := nextId s in
  exec s [Arrives c; Turn id; Turn id; Turn id; Turn id].

(** The 2x2 board with cards A, A, B, B and its file. *)
Definition ab_file : string :=
  "2x2" +:+ String newline "A" +:+ String newline "A" +:+ String newline "B"
  +:+ String newline "B" +:+ String newline "".

Definition ab_board : Board := initial_board 2 2 ["A"; "A"; "B"; "B"].

(** ** Representation invariant and turn state, as predicates *)

(** The spot clauses of the representation invariant. *)
Definition spot_ok (s : Spot) : Prop :=
  (card s = None → faceUp s = false ∧ controller s = None)
  ∧ (controller s ≠ None → faceUp s = true)
  ∧ (∀ k, card s = Some k → CARD_REGEX_test k = true).

Definition shape_ok (b : Board) : Prop :=
  length (grid b) = rows b ∧ Forall (λ row, length row = cols b) (grid b).

Definition rep_ok (b : Board) : Prop :=
  shape_ok b ∧ ∀ r c s, spotAt (grid b) r c = Some s → spot_ok s.

(** [player] controls the spot at [pos]. *)
Definition controls (g : list (list Spot)) (player : string) (pos : nat * nat) : Prop :=
  ∃ s, spotAt g pos.1 pos.2 = Some s ∧ controller s = Some player.

Definition cardAt (g : list (list Spot)) (pos : nat * nat) : option string :=
  spotAt g pos.1 pos.2 ≫= card.

(** A player controls at most two spots, and two controlled spots hold
    equal cards. *)
Definition turns_ok (g : list (list Spot)) : Prop :=
  ∀ p x y, controls g p x → controls g p y → x ≠ y →
    cardAt g x = cardAt g y ∧ ∀ z, controls g p z → z = x ∨ z = y.

(** [player] holds a completed pair at [x] and [y]: both face up, both
    controlled by [player], with equal cards. *)
Definition holds_pair (g : list (list Spot)) (player : string) (x y : nat * nat) : Prop :=
  x ≠ y ∧ ∃ k,
    spotAt g x.1 x.2 = Some (mkSpot (Some k) true (Some player))
    ∧ spotAt g y.1 y.2 = Some (mkSpot (Some k) true (Some player)).

Definition valid_transforms (m : gmap string string) : Prop :=
  ∀ k v, m !! k = Some v → CARD_REGEX_test v = true.

Definition pending_of (st : TaskState) : option Pending :=
  match st with
  | Scheduled k | InLockQueue k | HoldsLock k => Some k
  | _ => None
  end.

Definition task_ok (st : TaskState) : Prop :=
  match pending_of st with
  | Some (DoApply _ m) => valid_transforms m
  | _ => True
  end.

Definition tasks_ok (ts : gmap CallId TaskState) (n : CallId) : Prop :=
  ∀ id st, ts !! id = Some st → task_ok st ∧ id < n.

(** What holds of every state of a running system. *)
Definition system_ok (s : System) : Prop :=
  rep_ok (board s)
  ∧ turns_ok (grid (board s))
  ∧ tasks_ok (tasks s) (nextId s).

(** The body of RULE 3-B as a function of the spot. *)
Definition turnDown (s : Spot) : Spot :=
  if bool_decide (card s ≠ None) && faceUp s && bool_decide (controller s = None)
  then faceDown s else s.

(** How cleanup for [player] may change a spot: not at all, remove it
    (a spot [player] controls), or turn it face down (a spot nobody
    controls). *)
Inductive cleaned (player : string) (s : Spot) : Spot → Prop :=
| cleaned_same : cleaned player s s
| cleaned_removed :
    controlledBy player s = true → cleaned player s (removedSpot s)
| cleaned_down :
    card s ≠ None → faceUp s = true → controller s = None →
    cleaned player s (faceDown s).

(** The board on which [flipCard] runs its checks: after the cleanup and
    the watcher notification that follows it. *)
Definition afterCleanup (player : string) (b0 : Board) : Board :=
  let '(b1, _, didCleanup) := cleanupCompletedTurns player b0 in
  if didCleanup then (notifyWatchers b1).1 else b1.

(** Two boards with the same dimensions and spots. *)
Definition same_grid (b b' : Board) : Prop :=
  rows b' = rows b ∧ cols b' = cols b ∧ grid b' = grid b.

(** The new card of a spot is a function of its old card alone. *)
Definition transformCard (m : gmap string string) (k : option string) : option string :=
  match k with
  | Some k0 => Some (default k0 (m !! k0))
  | None => None
  end.

(** A schedule on the A, A, B, B board: p1 turns (0,0); p2 asks for (0,0)
    and waits; p1 turns (1,0), which does not match. *)
Definition mismatch_schedule : list Event :=
  [Arrives (flipCard "p1" 0 0); Turn 0;
   Arrives (flipCard "p2" 0 0); Turn 1;
   Arrives (flipCard "p1" 1 0); Turn 2].

(** How turning a card for [player] may change a spot: not at all; an
    uncontrolled card is taken, or taken and given up at once (a second
    card that does not match); the player's first card is given up. *)
Inductive turned (player : string) (s : Spot) : Spot → Prop :=
| turned_same : turned player s s
| turned_taken :
    card s ≠ None → controller s = None → turned player s (takenBy player s)
| turned_lost :
    card s ≠ None → controller s = None →
    turned player s (released (takenBy player s))
| turned_released :
    controller s = Some player → turned player s (released s).

(** The A, A, B, B board after p1 has turned (0,0) and (0,1), and after
    p1's next flip, of (1,0). *)
Definition ab_pair : System :=
  exec (start ab_board)
    [Arrives (flipCard "p1" 0 0); Turn 0; Arrives (flipCard "p1" 0 1); Turn 1].

Definition ab_next : System :=
  exec ab_pair [Arrives (flipCard "p1" 1 0); Turn 2].



(** The faults thrown by the checks of [flipCard]. *)
Definition validation_errors : list string :=
  ["invalid coordinates";
   "cannot flip: no card at position";
   "cannot flip: you already control 2 cards";
   "cannot flip: card already controlled by you";
   "cannot flip: card is controlled by another player"].

(** The callbacks called by the cleanup and by the notification of the
    watchers that follows it. *)
Definition cleanupLog (player : string) (b0 : Board) : list CallId :=
  let '(b1, w1, didCleanup) := cleanupCompletedTurns player b0 in
  w1 ++ (if didCleanup then watchers b1 else []).

(** ** Who is asleep where *)

(** The state in which a callback leaves the call it wakes. *)
Definition woken (st : TaskState) : TaskState :=
  match st with
  | InLockQueue k => HoldsLock k
  | AwaitsCard p r c => Scheduled (DoFlip p r c)
  | AwaitsChange p => Scheduled (DoRender p)
  | _ => st
  end.

(** What a call registers before it suspends, if anything. *)
Inductive Registration :=
| NoRegistration
| OnChange
| OnCard (pos : nat * nat).

Definition matches_registration (reg : Registration) (st : TaskState) : Prop :=
  match st with
  | AwaitsChange _ => reg = OnChange
  | AwaitsCard _ row col => reg = OnCard (Z.to_nat row, Z.to_nat col)
  | InLockQueue _ | HoldsLock _ => False
  | _ => reg = NoRegistration
  end.

(** A call that is neither asleep in a registry nor owner of the lock. *)
Definition idle (st : TaskState) : Prop :=
  match st with
  | Scheduled _ | Computing _ _ _ | Fulfilled _ | Rejected _ => True
  | _ => False
  end.

(** The registries agree with the table of calls: whoever sits in a
    registry is asleep on it; the lock queue has no duplicates; at most
    one call owns the lock, and then the lock is held. *)
Record queues_ok (s : System) : Prop := {
  lock_queue_nodup : NoDup (lockWaiters (board s));
  lock_queue_asleep :
    ∀ id, id ∈ lockWaiters (board s) → ∃ k, tasks s !! id = Some (InLockQueue k);
  watchers_asleep :
    ∀ id, id ∈ watchers (board s) → ∃ p, tasks s !! id = Some (AwaitsChange p);
  card_waiters_asleep :
    ∀ pos q id, cardWaiters (board s) !! pos = Some q → id ∈ q →
      ∃ p row col, tasks s !! id = Some (AwaitsCard p row col)
                   ∧ pos = (Z.to_nat row, Z.to_nat col);
  one_owner :
    ∀ id id' k k', tasks s !! id = Some (HoldsLock k) →
                   tasks s !! id' = Some (HoldsLock k') → id = id';
  owner_holds :
    ∀ id k, tasks s !! id = Some (HoldsLock k) → lockHeld (board s) = true
}.

(** Card queues from [m] to [m'] when the callbacks [w] were called: a
    queue is either untouched or deleted with all its members called, and
    every callback called sat in a queue that is now deleted. *)
Definition cards_effect (m m' : gmap (nat * nat) (list CallId)) (w : list CallId) : Prop :=
  (∀ pos, m' !! pos = m !! pos
          ∨ (m' !! pos = None ∧ ∀ q id, m !! pos = Some q → id ∈ q → id ∈ w))
  ∧ (∀ id, id ∈ w → ∃ pos q, m !! pos = Some q ∧ id ∈ q ∧ m' !! pos = None).

(** What the locked part of a call [me] does to the registries, from
    board [b] to board [b'], calling the callbacks [w]. *)
Record section_effect (b b' : Board) (w : list CallId) (me : CallId)
    (reg : Registration) : Prop := {
  eff_lock :
    (∃ next, lockWaiters b = next :: lockWaiters b'
             ∧ lockHeld b' = lockHeld b ∧ next ∈ w)
    ∨ (lockWaiters b = [] ∧ lockWaiters b' = [] ∧ lockHeld b' = false);
  eff_watchers :
    watchers b' = watchers b ++ (if reg is OnChange then [me] else [])
    ∨ (watchers b' = [] ∧ reg ≠ OnChange ∧ ∀ id, id ∈ watchers b → id ∈ w);
  eff_cards :
    ∀ pos,
      cardWaiters b' !! pos = cardWaiters b !! pos
      ∨ (cardWaiters b' !! pos = None
         ∧ ∀ q id, cardWaiters b !! pos = Some q → id ∈ q → id ∈ w)
      ∨ (reg = OnCard pos
         ∧ ∃ q', cardWaiters b' !! pos = Some (q' ++ [me])
                 ∧ (cardWaiters b !! pos = Some q'
                    ∨ (q' = [] ∧ ∀ q id, cardWaiters b !! pos = Some q → id ∈ q → id ∈ w)));
  eff_log :
    ∀ id, id ∈ w →
      (∃ rest, lockWaiters b = id :: rest ∧ lockWaiters b' = rest)
      ∨ (id ∈ watchers b ∧ watchers b' = [])
      ∨ (∃ pos q, cardWaiters b !! pos = Some q ∧ id ∈ q
                  ∧ (cardWaiters b' !! pos = None
                     ∨ cardWaiters b' !! pos = Some [me]))
}.

(** A transform that exchanges the cards A and B. *)
Definition swapAB (k : string) : string :=
  if String.eqb k "A" then "B" else if String.eqb k "B" then "A" else k.

(** The replacement [swapAB] yields on a board with cards A and B. *)
Definition swap_map : gmap string string := {["A" := "B"; "B" := "A"]}.

(** On the A, A, B, B board with (0,0) turned by p3, a call of [mapCards]
    with [swapAB] by p1 that runs alone, up to the start of its second
    pass. *)
Definition map_ready : System :=
  exec (start ab_board)
    [Arrives (flipCard "p3" 0 0); Turn 0; Arrives (mapCards "p1" swapAB); Turn 1; Turn 1].

(** The same with a second call of [mapCards] with [swapAB], by p2, that
    arrives together with p1's: both have taken their snapshot and
    computed the replacement, p1's call owns the lock for its second pass
    and p2's waits for the lock. *)
Definition two_maps_ready : System :=
  exec (start ab_board)
    [Arrives (flipCard "p3" 0 0); Turn 0;
     Arrives (mapCards "p1" swapAB); Arrives (mapCards "p2" swapAB);
     Turn 1; Turn 2; Turn 1; Turn 2].

(** The end of p1's second pass. *)
Definition two_maps_applied : System := exec two_maps_ready [Turn 1].

(** The spot at [pos] exists and nobody controls it. *)
Definition uncontrolled (g : list (list Spot)) (pos : nat * nat) : Prop :=
  ∃ spot, spotAt g pos.1 pos.2 = Some spot ∧ controller spot = None.

(** On the A, A, B, B board p1 has turned (0,0); p2, who controls no
    card, asks for (0,0) and owns the lock. *)
Definition ask_first : System :=
  exec (start ab_board)
    [Arrives (flipCard "p1" 0 0); Turn 0; Arrives (flipCard "p2" 0 0)].

(** The same, but p2 has turned (0,1) before asking for (0,0). *)
Definition ask_second : System :=
  exec (start ab_board)
    [Arrives (flipCard "p1" 0 0); Turn 0; Arrives (flipCard "p2" 0 1); Turn 1;
     Arrives (flipCard "p2" 0 0)].

(** The state in which p1's second call, for (1,0), owns the lock: p1
    controls (0,0) and p2's call is asleep in the queue of (0,0). *)
Definition ab_release_ready : System :=
  exec (start ab_board)
    [Arrives (flipCard "p1" 0 0); Turn 0;
     Arrives (flipCard "p2" 0 0); Turn 1;
     Arrives (flipCard "p1" 1 0)].

(** The state after [mismatch_schedule]. *)
Definition ab_waiting : System := exec (start ab_board) mismatch_schedule.

(** The text of a board file in its plain form: the dimension line, then
    one card per line, every line ended by a newline. *)
Definition board_file (nrows ncols : string) (cards : list string) : string :=
  nrows +:+ "x" +:+ ncols +:+ String newline ""
  +:+ String.concat "" ((λ k, k +:+ String newline "") <$> cards).

(** A line break character: CR or LF. *)
Definition isLineBreak (a : ascii) : bool := Ascii.eqb a carriage || Ascii.eqb a newline.

(** The table of calls agrees with the registries, the other way round:
    whoever is asleep sits in the registry it waits on, and a lock that
    is held has an owner. *)
Record sleepers_ok (s : System) : Prop := {
  lock_sleeper :
    ∀ id k, tasks s !! id = Some (InLockQueue k) → id ∈ lockWaiters (board s);
  change_sleeper :
    ∀ id p, tasks s !! id = Some (AwaitsChange p) → id ∈ watchers (board s);
  card_sleeper :
    ∀ id p row col, tasks s !! id = Some (AwaitsCard p row col) →
      ∃ q, cardWaiters (board s) !! (Z.to_nat row, Z.to_nat col) = Some q ∧ id ∈ q;
  held_owned :
    lockHeld (board s) = true → ∃ id k, tasks s !! id = Some (HoldsLock k);
  waiters_held :
    lockWaiters (board s) ≠ [] → lockHeld (board s) = true
}.

(** * Properties *)

#[local] Set Warnings "-clear-no-such-hyp".

(** ** Grid access *)

Lemma spotAt_update_spot f r c g r' c' :
  spotAt (update_spot f r c g) r' c'
  = if decide ((r, c) = (r', c')) then f <$> spotAt g r c else spotAt g r' c'.
Proof.
  unfold spotAt, update_spot. rewrite list_lookup_alter.
  destruct (decide (r = r')) as [->|Hr].
  - destruct (g !! r') as [row|]; simpl.
    + rewrite list_lookup_alter.
      destruct (decide (c = c')) as [->|Hc].
      * rewrite decide_True by done. done.
      * rewrite decide_False by congruence. done.
    + by destruct (decide _).
  - rewrite decide_False by congruence. done.
Qed.

Lemma spotAt_update_spot_eq f r c g :
  spotAt (update_spot f r c g) r c = f <$> spotAt g r c.
Proof. rewrite spotAt_update_spot, decide_True; done. Qed.

Lemma spotAt_update_spot_ne f r c g r' c' :
  (r, c) ≠ (r', c') → spotAt (update_spot f r c g) r' c' = spotAt g r' c'.
Proof. intros. rewrite spotAt_update_spot, decide_False; done. Qed.

Lemma update_spot_length f r c g : length (update_spot f r c g) = length g.
Proof. apply length_alter. Qed.

Lemma update_spot_row_lengths f r c g n :
  Forall (λ row, length row = n) g →
  Forall (λ row, length row = n) (update_spot f r c g).
Proof.
  intros H. apply Forall_alter; [done|].
  intros row _ Hrow. by rewrite length_alter.
Qed.

Lemma elem_of_positions r c n m : (r, c) ∈ positions n m ↔ r < n ∧ c < m.
Proof.
  unfold positions. rewrite list_elem_of_bind. split.
  - intros (r' & Hin & Hr). apply list_elem_of_bind in Hin as (c' & Hin & Hc).
    apply list_elem_of_singleton in Hin. inversion Hin; subst.
    apply elem_of_seq in Hr, Hc. lia.
  - intros [Hr Hc]. exists r. split; [|apply elem_of_seq; lia].
    apply list_elem_of_bind. exists c. split; [by apply list_elem_of_singleton|].
    apply elem_of_seq; lia.
Qed.

Lemma NoDup_positions n m : NoDup (positions n m).
Proof.
  unfold positions. apply NoDup_bind.
  - intros r1 r2 [r c] _ _ H1 H2.
    apply list_elem_of_bind in H1 as (c1 & H1 & _).
    apply list_elem_of_bind in H2 as (c2 & H2 & _).
    apply list_elem_of_singleton in H1, H2. congruence.
  - intros r _. apply NoDup_bind.
    + intros c1 c2 [r' c] _ _ H1 H2.
      apply list_elem_of_singleton in H1, H2. congruence.
    + intros c _. apply NoDup_singleton.
    + apply NoDup_seq.
  - apply NoDup_seq.
Qed.

Lemma spotAt_in_shape b r c :
  shape_ok b → (is_Some (spotAt (grid b) r c) ↔ r < rows b ∧ c < cols b).
Proof.
  intros [Hlen Hrows]. unfold spotAt. split.
  - intros [s Hs]. destruct (grid b !! r) as [row|] eqn:Hrow; [|done].
    simpl in Hs. apply lookup_lt_Some in Hrow as Hr.
    apply lookup_lt_Some in Hs.
    rewrite Forall_lookup in Hrows. specialize (Hrows _ _ Hrow). simpl in Hrows. lia.
  - intros [Hr Hc]. rewrite <- Hlen in Hr.
    apply lookup_lt_is_Some in Hr as [row Hrow]. rewrite Hrow. simpl.
    rewrite Forall_lookup in Hrows. specialize (Hrows _ _ Hrow). simpl in Hrows.
    apply lookup_lt_is_Some. lia.
Qed.

Lemma spotAt_position b r c s :
  shape_ok b → spotAt (grid b) r c = Some s → (r, c) ∈ positions (rows b) (cols b).
Proof.
  intros Hs H. apply elem_of_positions, (spotAt_in_shape b r c Hs). eauto.
Qed.

Lemma update_spot_same f r c g :
  (∀ s, spotAt g r c = Some s → f s = s) → update_spot f r c g = g.
Proof.
  intros H. unfold update_spot. apply list_eq. intros i.
  rewrite list_lookup_alter. destruct (decide (r = i)) as [<-|]; [|done].
  destruct (g !! r) as [row|] eqn:Hrow; [|done]. simpl. f_equal.
  apply list_eq. intros j. rewrite list_lookup_alter.
  destruct (decide (c = j)) as [<-|]; [|done].
  destruct (row !! c) as [s|] eqn:Hs; [|done]. simpl. f_equal.
  apply H. unfold spotAt. by rewrite Hrow.
Qed.

(** A loop that rewrites the spot at each position of [ps] by [h]. *)
Lemma spotAt_fold_update h ps g r c :
  NoDup ps →
  spotAt (fold_left (λ g' pos, update_spot h pos.1 pos.2 g') ps g) r c
  = if decide ((r, c) ∈ ps) then h <$> spotAt g r c else spotAt g r c.
Proof.
  revert g. induction ps as [|[r0 c0] ps IH]; intros g Hnd; cbn [fold_left].
  - rewrite decide_False; [done|]. apply not_elem_of_nil.
  - apply NoDup_cons in Hnd as [Hnotin Hnd]. cbn [fst snd]. rewrite IH by done.
    destruct (decide ((r, c) = (r0, c0))) as [Heq|Hne].
    + inversion Heq; subst. rewrite decide_False by done.
      rewrite decide_True by apply list_elem_of_here.
      apply spotAt_update_spot_eq.
    + rewrite spotAt_update_spot_ne by congruence.
      destruct (decide ((r, c) ∈ ps)) as [Hin|Hnin].
      * rewrite decide_True; [done|]. by apply list_elem_of_further.
      * rewrite decide_False; [done|].
        intros [?|?]%elem_of_cons; congruence.
Qed.

Lemma fold_update_length h ps g :
  length (fold_left (λ g' pos, update_spot h pos.1 pos.2 g') ps g) = length g.
Proof.
  revert g. induction ps as [|p ps IH]; intros g; simpl; [done|].
  by rewrite IH, update_spot_length.
Qed.

Lemma fold_update_row_lengths h ps g n :
  Forall (λ row, length row = n) g →
  Forall (λ row, length row = n)
         (fold_left (λ g' pos, update_spot h pos.1 pos.2 g') ps g).
Proof.
  revert g. induction ps as [|p ps IH]; intros g H; simpl; [done|].
  by apply IH, update_spot_row_lengths.
Qed.

(** ** Registries leave the grid alone *)

Lemma notifyCardWaiters_frame r c b :
  let b' := (notifyCardWaiters r c b).1 in
  grid b' = grid b ∧ rows b' = rows b ∧ cols b' = cols b
  ∧ watchers b' = watchers b ∧ lockWaiters b' = lockWaiters b
  ∧ lockHeld b' = lockHeld b.
Proof. unfold notifyCardWaiters. by destruct (cardWaiters b !! (r, c)). Qed.

Lemma releaseLock_frame b :
  let b' := (releaseLock b).1 in
  grid b' = grid b ∧ rows b' = rows b ∧ cols b' = cols b
  ∧ watchers b' = watchers b ∧ cardWaiters b' = cardWaiters b.
Proof. unfold releaseLock. by destruct (lockWaiters b). Qed.

Lemma acquireLock_frame id b :
  let b' := (acquireLock id b).1 in
  grid b' = grid b ∧ rows b' = rows b ∧ cols b' = cols b
  ∧ watchers b' = watchers b ∧ cardWaiters b' = cardWaiters b.
Proof. unfold acquireLock. by destruct (lockHeld b). Qed.

(** ** Cleanup, spot by spot *)

Lemma flipDownAt_frame st pos :
  let b := st.1.1 in
  let b' := (flipDownAt st pos).1.1 in
  grid b' = update_spot turnDown pos.1 pos.2 (grid b)
  ∧ rows b' = rows b ∧ cols b' = cols b
  ∧ watchers b' = watchers b ∧ lockWaiters b' = lockWaiters b
  ∧ lockHeld b' = lockHeld b.
Proof.
  destruct st as [[b w] cl]. unfold flipDownAt. simpl.
  destruct (spotAt (grid b) pos.1 pos.2) as [spot|] eqn:Hspot.
  - destruct (bool_decide (card spot ≠ None) && faceUp spot
              && bool_decide (controller spot = None)) eqn:Hc.
    + pose proof (notifyCardWaiters_frame pos.1 pos.2
                    (set_grid (update_spot faceDown pos.1 pos.2 (grid b)) b)) as Hn.
      destruct (notifyCardWaiters _ _ _) as [b1 w1]. simpl in *.
      destruct Hn as (-> & -> & -> & -> & -> & ->). repeat split.
      unfold update_spot. apply list_alter_ext; [|done]. intros row Hrow.
      apply list_alter_ext; [|done]. intros s Hs.
      assert (s = spot) as ->.
      { unfold spotAt in Hspot. rewrite Hrow in Hspot. simpl in Hspot. congruence. }
      unfold turnDown. by rewrite Hc.
    + simpl. repeat split. symmetry. apply update_spot_same.
      intros s Hs. assert (s = spot) as -> by congruence.
      unfold turnDown. by rewrite Hc.
  - simpl. repeat split. symmetry. apply update_spot_same. intros s Hs. congruence.
Qed.

Lemma fold_flipDownAt_frame ps st :
  let b := st.1.1 in
  let b' := (fold_left flipDownAt ps st).1.1 in
  grid b' = fold_left (λ g pos, update_spot turnDown pos.1 pos.2 g) ps (grid b)
  ∧ rows b' = rows b ∧ cols b' = cols b
  ∧ watchers b' = watchers b ∧ lockWaiters b' = lockWaiters b
  ∧ lockHeld b' = lockHeld b.
Proof.
  revert st. induction ps as [|p ps IH]; intros st; simpl; [done|].
  specialize (IH (flipDownAt st p)). simpl in IH.
  destruct IH as (-> & -> & -> & -> & -> & ->).
  pose proof (flipDownAt_frame st p) as H. simpl in H.
  destruct H as (-> & -> & -> & -> & -> & ->). done.
Qed.

Lemma removeMatched_cases player b :
  removeMatched player b = (b, [], false)
  ∨ ∃ r1 c1 r2 c2 k,
      playerCards player b = [(r1, c1, k); (r2, c2, k)]
      ∧ is_Some (spotAt (grid b) r1 c1) ∧ is_Some (spotAt (grid b) r2 c2)
      ∧ removeMatched player b
        = (set_cardWaiters
             (delete (r2, c2) (delete (r1, c1) (cardWaiters b)))
             (set_grid (update_spot removedSpot r2 c2
                          (update_spot removedSpot r1 c1 (grid b))) b),
           default [] (cardWaiters b !! (r1, c1))
           ++ default [] (delete (r1, c1) (cardWaiters b) !! (r2, c2)),
           true).
Proof.
  unfold removeMatched.
  destruct (playerCards player b) as [|[[r1 c1] k1] [|[[r2 c2] k2] [|? ?]]]; auto.
  destruct (String.eqb k1 k2) eqn:Hk; auto.
  apply String.eqb_eq in Hk as ->.
  destruct (spotAt (grid b) r1 c1) as [s1|] eqn:H1; auto.
  destruct (spotAt (grid b) r2 c2) as [s2|] eqn:H2; auto.
  right. exists r1, c1, r2, c2, k2. split; [done|]. split; [eauto|]. split; [eauto|].
  unfold notifyCardWaiters. simpl.
  destruct (cardWaiters b !! (r1, c1)) as [w1|] eqn:Hw1; simpl.
  - destruct (delete (r1, c1) (cardWaiters b) !! (r2, c2)) as [w2|] eqn:Hw2; simpl.
    + done.
    + rewrite app_nil_r. unfold set_cardWaiters, set_grid. simpl.
      rewrite (delete_id (delete (r1, c1) (cardWaiters b)) (r2, c2)) by done. done.
  - rewrite (delete_id (cardWaiters b) (r1, c1)) by done.
    destruct (cardWaiters b !! (r2, c2)) as [w2|] eqn:Hw2; simpl.
    + done.
    + unfold set_cardWaiters, set_grid. simpl.
      rewrite (delete_id (cardWaiters b) (r2, c2)) by done. done.
Qed.

Lemma heldCard_Some player g pos r c k :
  heldCard player g pos = Some (r, c, k) ↔
  pos = (r, c) ∧ ∃ s, spotAt g r c = Some s ∧ card s = Some k
                      ∧ controlledBy player s = true ∧ k ≠ "".
Proof.
  unfold heldCard. destruct pos as [r0 c0]. simpl. split.
  - destruct (spotAt g r0 c0) as [s|] eqn:Hs; [|done].
    destruct (card s) as [k0|] eqn:Hk; [|done].
    destruct (controlledBy player s) eqn:Hc; [|done]. simpl.
    destruct (String.eqb k0 "") eqn:He; [done|]. simpl.
    intros [= <- <- <-]. split; [done|]. exists s. repeat split; try done.
    by apply String.eqb_neq.
  - intros [[= -> ->] (s & -> & -> & -> & Hne)]. simpl.
    apply String.eqb_neq in Hne. by rewrite Hne.
Qed.

Lemma playerCards_elem player b r c k :
  (r, c, k) ∈ playerCards player b ↔
  (r, c) ∈ positions (rows b) (cols b)
  ∧ ∃ s, spotAt (grid b) r c = Some s ∧ card s = Some k
         ∧ controlledBy player s = true ∧ k ≠ "".
Proof.
  unfold playerCards. rewrite list_elem_of_omap. split.
  - intros (pos & Hin & H). apply heldCard_Some in H as [-> H]. done.
  - intros [Hin H]. exists (r, c). split; [done|]. by apply heldCard_Some.
Qed.

Lemma removeMatched_frame player b :
  let b' := (removeMatched player b).1.1 in
  rows b' = rows b ∧ cols b' = cols b ∧ length (grid b') = length (grid b)
  ∧ (∀ n, Forall (λ row, length row = n) (grid b) →
          Forall (λ row, length row = n) (grid b'))
  ∧ watchers b' = watchers b ∧ lockWaiters b' = lockWaiters b
  ∧ lockHeld b' = lockHeld b.
Proof.
  destruct (removeMatched_cases player b) as [->|(r1 & c1 & r2 & c2 & k & _ & _ & _ & ->)];
    simpl; [done|].
  repeat split; try done.
  - by rewrite !update_spot_length.
  - intros n H. by do 2 apply update_spot_row_lengths.
Qed.

Lemma removeMatched_spot player b r c s' :
  spotAt (grid (removeMatched player b).1.1) r c = Some s' →
  ∃ s, spotAt (grid b) r c = Some s
       ∧ (s' = s ∨ (s' = removedSpot s ∧ controlledBy player s = true)).
Proof.
  destruct (removeMatched_cases player b)
    as [->|(r1 & c1 & r2 & c2 & k & Hpc & _ & _ & ->)]; simpl.
  { intros H. eauto. }
  assert ((r1, c1, k) ∈ playerCards player b) as H1
    by (rewrite Hpc; apply list_elem_of_here).
  assert ((r2, c2, k) ∈ playerCards player b) as H2
    by (rewrite Hpc; apply list_elem_of_further, list_elem_of_here).
  apply playerCards_elem in H1 as (_ & s1 & Hs1 & _ & Hc1 & _).
  apply playerCards_elem in H2 as (_ & s2 & Hs2 & _ & Hc2 & _).
  rewrite spotAt_update_spot.
  destruct (decide ((r2, c2) = (r, c))) as [[= <- <-]|Hne2].
  - rewrite spotAt_update_spot.
    destruct (decide ((r1, c1) = (r2, c2))) as [[= <- <-]|Hne1].
    + rewrite Hs1. simpl. intros [= <-]. exists s1. split; [done|]. by right.
    + rewrite Hs2. simpl. intros [= <-]. exists s2. split; [done|]. by right.
  - rewrite spotAt_update_spot.
    destruct (decide ((r1, c1) = (r, c))) as [[= <- <-]|Hne1].
    + rewrite Hs1. simpl. intros [= <-]. exists s1. split; [done|]. by right.
    + intros H. eauto.
Qed.

Lemma cleanup_frame player b :
  let b' := (cleanupCompletedTurns player b).1.1 in
  rows b' = rows b ∧ cols b' = cols b ∧ length (grid b') = length (grid b)
  ∧ (∀ n, Forall (λ row, length row = n) (grid b) →
          Forall (λ row, length row = n) (grid b'))
  ∧ watchers b' = watchers b ∧ lockWaiters b' = lockWaiters b
  ∧ lockHeld b' = lockHeld b.
Proof.
  unfold cleanupCompletedTurns.
  pose proof (fold_flipDownAt_frame (positions (rows b) (cols b))
                (removeMatched player b)) as H.
  pose proof (removeMatched_frame player b) as H'. simpl in *.
  destruct H as (Hg & -> & -> & -> & -> & ->).
  destruct H' as (-> & -> & Hl & Hr & -> & -> & ->).
  rewrite Hg. repeat split; try done.
  - by rewrite fold_update_length.
  - intros n H. by apply fold_update_row_lengths, Hr.
Qed.

Lemma cleanup_grid player b :
  grid (cleanupCompletedTurns player b).1.1
  = fold_left (λ g pos, update_spot turnDown pos.1 pos.2 g)
      (positions (rows b) (cols b)) (grid (removeMatched player b).1.1).
Proof.
  unfold cleanupCompletedTurns.
  apply (fold_flipDownAt_frame (positions (rows b) (cols b)) (removeMatched player b)).
Qed.

Lemma turnDown_cleaned player s : cleaned player s (turnDown s).
Proof.
  unfold turnDown.
  destruct (bool_decide (card s ≠ None)) eqn:H1; simpl; [|constructor].
  destruct (faceUp s) eqn:H2; simpl; [|constructor].
  destruct (bool_decide (controller s = None)) eqn:H3; simpl; [|constructor].
  apply bool_decide_eq_true in H1, H3. by apply cleaned_down.
Qed.

(** Every spot after cleanup descends from the spot before it in one of
    the three ways of [cleaned]. *)
Lemma cleanup_spot player b r c s' :
  spotAt (grid (cleanupCompletedTurns player b).1.1) r c = Some s' →
  ∃ s, spotAt (grid b) r c = Some s ∧ cleaned player s s'.
Proof.
  rewrite cleanup_grid, spotAt_fold_update by apply NoDup_positions.
  intros H.
  assert (∃ s1, spotAt (grid (removeMatched player b).1.1) r c = Some s1
                ∧ (s' = s1 ∨ s' = turnDown s1)) as (s1 & Hs1 & Hs').
  { destruct (decide _).
    - destruct (spotAt _ r c) as [s1|]; [|done]. simpl in H.
      injection H as <-. eauto.
    - eauto. }
  apply removeMatched_spot in Hs1 as (s & Hs & [->|[-> Hc]]).
  - exists s. split; [done|]. destruct Hs' as [->| ->];
      [constructor|apply turnDown_cleaned].
  - exists s. split; [done|].
    assert (s' = removedSpot s) as -> by (by destruct Hs' as [->| ->]).
    by constructor.
Qed.


(** ** [checkRep] decides the representation invariant *)

Lemma checkSpot_None s : checkSpot s = None ↔ spot_ok s.
Proof.
  unfold checkSpot, spot_ok. destruct s as [[k|] fu ctl]; simpl.
  - destruct (CARD_REGEX_test k) eqn:Hk; simpl.
    + destruct ctl as [q|]; simpl.
      * destruct fu; simpl; split; try done.
        -- intros _. repeat split; try done. by intros k' [= <-].
        -- intros (_ & H & _). by specialize (H ltac:(done)).
      * split; [|done]. intros _. repeat split; try done. by intros k' [= <-].
    + split; [done|]. intros (_ & _ & H). specialize (H k eq_refl). congruence.
  - destruct fu; simpl.
    + split; [done|]. intros [H _]. by destruct (H eq_refl).
    + destruct ctl as [q|]; simpl; split; try done.
      intros [H _]. by destruct (H eq_refl).
Qed.

Lemma first_failure_None {A} (check : A → option string) l :
  first_failure check l = None ↔ Forall (λ x, check x = None) l.
Proof.
  induction l as [|x l IH]; simpl; [by split; [constructor|]|].
  rewrite Forall_cons. destruct (check x); [|by rewrite IH; split; [|intros []]].
  split; [done|]. by intros [? _].
Qed.

Lemma checkRep_None b : checkRep b = None ↔ rep_ok b.
Proof.
  unfold checkRep, rep_ok, shape_ok.
  destruct (length (grid b) =? rows b) eqn:Hlen; simpl.
  - apply Nat.eqb_eq in Hlen. rewrite first_failure_None. split.
    + intros H. split.
      * split; [done|]. eapply Forall_impl; [exact H|]. intros row Hrow.
        unfold checkRow in Hrow.
        destruct (length row =? cols b) eqn:Hc; [|done]. by apply Nat.eqb_eq.
      * intros r c s Hs. unfold spotAt in Hs.
        destruct (grid b !! r) as [row|] eqn:Hrow; [|done]. simpl in Hs.
        rewrite Forall_lookup in H. specialize (H _ _ Hrow). unfold checkRow in H.
        destruct (length row =? cols b); [|done]. simpl in H.
        apply first_failure_None in H. rewrite Forall_lookup in H.
        apply checkSpot_None. eauto.
    + intros [[_ Hrows] Hspots]. apply Forall_lookup. intros r row Hrow.
      rewrite Forall_lookup in Hrows. specialize (Hrows _ _ Hrow). simpl in Hrows.
      unfold checkRow. apply Nat.eqb_eq in Hrows. rewrite Hrows. simpl.
      apply first_failure_None, Forall_lookup. intros c s Hs.
      apply checkSpot_None, (Hspots r c). unfold spotAt. by rewrite Hrow.
  - apply Nat.eqb_neq in Hlen. split; [done|]. by intros [[? _] _].
Qed.

(** ** Cleanup keeps the invariants *)

Lemma cleaned_spot_ok player s s' : cleaned player s s' → spot_ok s → spot_ok s'.
Proof.
  intros Hcl Hok. destruct Hcl as [|Hc|Hcard Hfu Hctl]; [done| |].
  - unfold spot_ok, removedSpot. simpl. repeat split; done.
  - destruct Hok as (H1 & H2 & H3). unfold spot_ok, faceDown. simpl.
    repeat split; try done; intros Hc; by destruct Hc.
Qed.

(** A spot that is controlled after cleanup was not touched by it. *)
Lemma cleaned_controlled player s s' q :
  cleaned player s s' → controller s' = Some q → s' = s.
Proof.
  intros Hcl H. destruct Hcl as [|Hc|Hcard Hfu Hctl]; simpl in *; congruence.
Qed.

Lemma cleanup_rep_ok player b :
  rep_ok b → rep_ok (cleanupCompletedTurns player b).1.1.
Proof.
  intros [[Hlen Hrows] Hspots].
  pose proof (cleanup_frame player b) as (Hr & Hc & Hl & Hf & _). simpl in *.
  split.
  - split; [congruence|]. rewrite Hc. by apply Hf.
  - intros r c s' Hs'. apply cleanup_spot in Hs' as (s & Hs & Hcl).
    eapply cleaned_spot_ok; eauto.
Qed.

Lemma cleanup_controls player b q pos :
  controls (grid (cleanupCompletedTurns player b).1.1) q pos →
  controls (grid b) q pos
  ∧ spotAt (grid (cleanupCompletedTurns player b).1.1) pos.1 pos.2
    = spotAt (grid b) pos.1 pos.2.
Proof.
  intros (s' & Hs' & Hq). pose proof Hs' as H.
  apply cleanup_spot in H as (s & Hs & Hcl).
  apply (cleaned_controlled _ _ _ q) in Hcl as ->; [|done].
  split; [by exists s|]. congruence.
Qed.

Lemma cleanup_turns_ok player b :
  turns_ok (grid b) → turns_ok (grid (cleanupCompletedTurns player b).1.1).
Proof.
  intros Hok p x y Hx Hy Hne.
  apply cleanup_controls in Hx as [Hx Hxe], Hy as [Hy Hye].
  destruct (Hok p x y Hx Hy Hne) as [Hcard Hthird]. split.
  - unfold cardAt. by rewrite Hxe, Hye.
  - intros z Hz. apply cleanup_controls in Hz as [Hz _]. auto.
Qed.

(** ** Counting the cards a player controls *)

Lemma controlsAt_true player g pos :
  controlsAt player g pos = true ↔
  ∃ s, spotAt g pos.1 pos.2 = Some s ∧ controller s = Some player ∧ faceUp s = true.
Proof.
  unfold controlsAt, controlledBy. split.
  - destruct (spotAt g pos.1 pos.2) as [s|]; [|done].
    intros [H1 H2]%andb_true_iff. apply bool_decide_eq_true in H1. eauto.
  - intros (s & -> & Hc & Hf). rewrite Hf, andb_true_r. by apply bool_decide_eq_true.
Qed.

Lemma controls_controlsAt b player pos :
  rep_ok b → controls (grid b) player pos ↔ controlsAt player (grid b) pos = true.
Proof.
  intros [_ Hspots]. rewrite controlsAt_true. split.
  - intros (s & Hs & Hc). exists s. repeat split; try done.
    destruct (Hspots _ _ _ Hs) as (_ & H & _). apply H. congruence.
  - intros (s & Hs & Hc & _). by exists s.
Qed.

Lemma controls_counted b player pos :
  rep_ok b → controls (grid b) player pos ↔
  pos ∈ List.filter (controlsAt player (grid b)) (positions (rows b) (cols b)).
Proof.
  intros Hrep. rewrite list_elem_of_In, filter_In, <- list_elem_of_In.
  rewrite <- (controls_controlsAt b) by done. split; [|by intros [_ ?]].
  intros H. split; [|done]. destruct H as (s & Hs & _). destruct pos as [r c].
  destruct Hrep as [Hshape _]. by apply (spotAt_position b r c s).
Qed.

Lemma NoDup_counted player b :
  NoDup (List.filter (controlsAt player (grid b)) (positions (rows b) (cols b))).
Proof.
  induction (NoDup_positions (rows b) (cols b)) as [|x l Hx _ IH]; simpl;
    [constructor|].
  destruct (controlsAt player (grid b) x); [|done].
  constructor; [|done]. rewrite list_elem_of_In, filter_In, <- list_elem_of_In.
  by intros [? _].
Qed.

Lemma controlledCount_0 b player :
  rep_ok b → controlledCount player b = 0 → ∀ pos, ¬ controls (grid b) player pos.
Proof.
  intros Hrep Hc pos H. apply (controls_counted b) in H; [|done].
  unfold controlledCount in Hc. apply nil_length_inv in Hc. rewrite Hc in H.
  by apply not_elem_of_nil in H.
Qed.

Lemma controlledCount_1 b player :
  rep_ok b → controlledCount player b = 1 →
  ∃ x, controls (grid b) player x ∧ ∀ pos, controls (grid b) player pos → pos = x.
Proof.
  intros Hrep Hc. unfold controlledCount in Hc.
  destruct (List.filter _ _) as [|x [|? ?]] eqn:Hl; try done.
  exists x. split.
  - apply (controls_counted b); [done|]. rewrite Hl. apply list_elem_of_here.
  - intros pos H. apply (controls_counted b) in H; [|done]. rewrite Hl in H.
    by apply list_elem_of_singleton in H.
Qed.

(** Holding a pair means being counted twice, at least. *)
Lemma controlledCount_pair b player x y :
  rep_ok b → x ≠ y → controls (grid b) player x → controls (grid b) player y →
  2 ≤ controlledCount player b.
Proof.
  intros Hrep Hne Hx Hy. apply (controls_counted b) in Hx, Hy; try done.
  unfold controlledCount. pose proof (NoDup_counted player b) as Hnd.
  destruct (List.filter _ _) as [|a [|a' l]]; simpl; [|exfalso|lia].
  - by apply not_elem_of_nil in Hx.
  - apply list_elem_of_singleton in Hx, Hy. congruence.
Qed.

(** ** The checks of [flipCard] *)

Lemma verdict_Take player row col b r c target sec :
  verdict player row col b = Take r c target sec →
  row = Z.of_nat r ∧ col = Z.of_nat c ∧ r < rows b ∧ c < cols b
  ∧ controlledCount player b < 2 ∧ sec = (controlledCount player b =? 1)
  ∧ ∃ spot, spotAt (grid b) r c = Some spot ∧ card spot = Some target
            ∧ controlledBy player spot = false
            ∧ (controller spot = None ∨ (sec = false ∧ controller spot = Some player)).
Proof.
  unfold verdict.
  destruct (_ || _ || _ || _)%Z eqn:Hb; [done|].
  apply orb_false_iff in Hb as [Hb Hb4]. apply orb_false_iff in Hb as [Hb Hb3].
  apply orb_false_iff in Hb as [Hb1 Hb2].
  destruct (spotAt (grid b) (Z.to_nat row) (Z.to_nat col)) as [spot|] eqn:Hs; [|done].
  destruct (card spot) as [k|] eqn:Hk; [|done].
  destruct (2 <=? controlledCount player b) eqn:Hc2; [done|].
  destruct (controlledBy player spot) eqn:Hcb; [done|].
  destruct (_ && _) eqn:H1 in |- *; [done|].
  destruct (_ && _) eqn:H2 in |- *; [done|].
  intros [= <- <- <- <-]. apply Nat.leb_gt in Hc2.
  repeat split; try lia.
  exists spot. repeat split; try done.
  destruct (controller spot) as [q|] eqn:Hq; [|by left]. right.
  rewrite bool_decide_eq_true_2 in H1 by done.
  rewrite andb_true_r in H1. rewrite H1 in H2 |- *. simpl in H2.
  split; [done|]. apply bool_decide_eq_false in H2.
  destruct (decide (q = player)) as [->|]; [done|]. destruct H2. congruence.
Qed.

Lemma verdict_Wait player row col b r c :
  verdict player row col b = Wait r c →
  row = Z.of_nat r ∧ col = Z.of_nat c ∧ controlledCount player b ≠ 1
  ∧ ∃ spot q, spotAt (grid b) r c = Some spot ∧ controller spot = Some q ∧ q ≠ player.
Proof.
  unfold verdict.
  destruct (_ || _ || _ || _)%Z eqn:Hb; [done|].
  apply orb_false_iff in Hb as [Hb Hb4]. apply orb_false_iff in Hb as [Hb Hb3].
  apply orb_false_iff in Hb as [Hb1 Hb2].
  destruct (spotAt (grid b) (Z.to_nat row) (Z.to_nat col)) as [spot|] eqn:Hs; [|done].
  destruct (card spot) as [k|] eqn:Hk; [|done].
  destruct (2 <=? controlledCount player b) eqn:Hc2; [done|].
  destruct (controlledBy player spot) eqn:Hcb; [done|].
  destruct (_ && _) eqn:H1 in |- *; [done|].
  destruct (_ && _) eqn:H2 in |- *; [|done].
  intros [= <- <-].
  apply andb_true_iff in H2 as [H2 H4]. apply andb_true_iff in H2 as [H2 H3].
  apply negb_true_iff, Nat.eqb_neq in H2.
  apply bool_decide_eq_true in H3, H4.
  repeat split; try lia.
  destruct (controller spot) as [q|] eqn:Hq; [|done].
  exists spot, q. repeat split; try done. congruence.
Qed.

Lemma CARD_REGEX_nonempty k : CARD_REGEX_test k = true → k ≠ "".
Proof. by destruct k. Qed.

Lemma head_unique {A} (l : list A) e :
  (∀ y, y ∈ l → y = e) → e ∈ l → head l = Some e.
Proof.
  destruct l as [|a l]; simpl; intros H Hin; [by apply not_elem_of_nil in Hin|].
  f_equal. apply H, list_elem_of_here.
Qed.

Lemma firstCard_found player r c b x sx kx :
  (r, c) ≠ x → x ∈ positions (rows b) (cols b) →
  spotAt (grid b) x.1 x.2 = Some sx → card sx = Some kx → kx ≠ "" →
  controlledBy player sx = true →
  (∀ pos, pos ≠ (r, c) → controlsAt player (grid b) pos = true → pos = x) →
  firstCard player r c b = Some (x.1, x.2, kx).
Proof.
  intros Hne Hin Hsx Hkx Hk Hc Huniq. unfold firstCard. apply head_unique.
  - intros [[r' c'] k] H. apply list_elem_of_omap in H as (pos & _ & H).
    destruct (bool_decide (pos = (r, c))) eqn:Hp; [done|].
    apply bool_decide_eq_false in Hp.
    apply heldCard_Some in H as [-> (s & Hs & Hcard & Hctl & _)].
    assert ((r', c') = x) as <-.
    { apply Huniq; [done|]. unfold controlsAt. simpl. by rewrite Hs. }
    simpl in *. assert (s = sx) as -> by congruence. congruence.
  - apply list_elem_of_omap. exists x. split; [done|].
    rewrite bool_decide_eq_false_2 by done.
    apply heldCard_Some. split; [by destruct x|]. eauto 10.
Qed.

(** The three ways a card is turned: a first card; a second card that
    matches the first; a second card that does not, after which both are
    given up. *)
Lemma take_cases player row col b r c target sec :
  rep_ok b → verdict player row col b = Take r c target sec →
  let g3 := update_spot (takenBy player) r c (grid b) in
  let b' := turnCard player r c target sec b in
  rows b' = rows b ∧ cols b' = cols b ∧ watchers b' = watchers b
  ∧ cardWaiters b' = cardWaiters b ∧ lockWaiters b' = lockWaiters b
  ∧ lockHeld b' = lockHeld b
  ∧ ∃ spot, spotAt (grid b) r c = Some spot ∧ card spot = Some target
    ∧ controller spot = None
    ∧ ((sec = false ∧ (∀ pos, ¬ controls (grid b) player pos) ∧ grid b' = g3)
       ∨ ∃ x sx kx,
           sec = true ∧ x ≠ (r, c) ∧ spotAt (grid b) x.1 x.2 = Some sx
           ∧ controller sx = Some player ∧ faceUp sx = true ∧ card sx = Some kx
           ∧ (∀ pos, controls (grid b) player pos → pos = x)
           ∧ ((kx = target ∧ grid b' = g3)
              ∨ (kx ≠ target
                 ∧ grid b' = update_spot released x.1 x.2 (update_spot released r c g3)))).
Proof.
  intros Hrep Hv. pose proof Hrep as [Hshape Hspots].
  apply verdict_Take in Hv
    as (-> & -> & Hr & Hc & Hlt & Hsec & spot & Hspot & Hcard & Hncb & Hctl).
  assert (controller spot = None) as Hnone.
  { destruct Hctl as [?|[_ Hp]]; [done|]. exfalso.
    destruct (Hspots _ _ _ Hspot) as (_ & Hf & _).
    unfold controlledBy in Hncb. rewrite Hf in Hncb by congruence.
    rewrite bool_decide_eq_true_2 in Hncb; done. }
  intros g3 b'. unfold turnCard in b'.
  assert (rows b' = rows b ∧ cols b' = cols b ∧ watchers b' = watchers b
          ∧ cardWaiters b' = cardWaiters b ∧ lockWaiters b' = lockWaiters b
          ∧ lockHeld b' = lockHeld b) as Hframe.
  { subst b'. destruct sec; [|done]. unfold relinquishIfMismatch.
    destruct (firstCard _ _ _ _) as [[[r1 c1] k1]|]; [|done].
    by destruct (negb _). }
  destruct Hframe as (? & ? & ? & ? & ? & ?). repeat split; try done.
  exists spot. repeat split; try done.
  destruct (controlledCount player b =? 1) eqn:Hone; subst sec.
  - right. apply Nat.eqb_eq in Hone.
    apply controlledCount_1 in Hone as (x & (sx & Hsx & Hcx) & Huniq); [|done].
    destruct (Hspots _ _ _ Hsx) as (Hx1 & Hx2 & Hx3).
    assert (faceUp sx = true) as Hfx by (apply Hx2; congruence).
    destruct (card sx) as [kx|] eqn:Hkx;
      [|destruct (Hx1 eq_refl); congruence].
    assert (x ≠ (r, c)) as Hxne.
    { intros ->. simpl in Hsx. congruence. }
    exists x, sx, kx. repeat split; try done.
    assert (firstCard player r c (set_grid g3 b) = Some (x.1, x.2, kx)) as Hfirst.
    { apply (firstCard_found _ _ _ _ x sx kx); simpl; try done.
      - destruct x as [rx cx]. by apply (spotAt_position b rx cx sx).
      - subst g3. rewrite spotAt_update_spot_ne by (destruct x; naive_solver). done.
      - by apply CARD_REGEX_nonempty, Hx3.
      - unfold controlledBy. rewrite Hfx, bool_decide_eq_true_2; done.
      - intros pos Hpos Hcp. apply Huniq. apply (controls_controlsAt b); [done|].
        unfold controlsAt in *. subst g3.
        rewrite spotAt_update_spot_ne in Hcp by (destruct pos; naive_solver). done. }
    subst b' g3. unfold relinquishIfMismatch. rewrite Hfirst.
    destruct (String.eqb kx target) eqn:Heq; simpl.
    + left. by apply String.eqb_eq in Heq.
    + right. by apply String.eqb_neq in Heq.
  - left. repeat split; try done.
    apply controlledCount_0; [done|]. apply Nat.eqb_neq in Hone. lia.
Qed.

(** ** Turning a card keeps the invariants *)

Lemma rep_ok_ext b b' :
  rows b' = rows b → cols b' = cols b → grid b' = grid b → rep_ok b → rep_ok b'.
Proof. unfold rep_ok, shape_ok. intros -> -> ->. done. Qed.

Lemma rep_ok_update f r c b :
  (∀ s, spotAt (grid b) r c = Some s → spot_ok s → spot_ok (f s)) →
  rep_ok b → rep_ok (set_grid (update_spot f r c (grid b)) b).
Proof.
  intros Hf [[Hlen Hrows] Hspots]. split; [split|]; simpl.
  - by rewrite update_spot_length.
  - by apply update_spot_row_lengths.
  - intros r' c' s'. rewrite spotAt_update_spot.
    destruct (decide _) as [[= <- <-]|]; [|by apply Hspots].
    destruct (spotAt (grid b) r c) as [s|] eqn:Hs; [|done].
    simpl. intros [= <-]. eauto.
Qed.

Lemma released_spot_ok s : spot_ok s → spot_ok (released s).
Proof.
  intros (H1 & H2 & H3). unfold spot_ok, released. simpl.
  repeat split; try done. by destruct H1.
Qed.

Lemma takenBy_spot_ok player s : spot_ok s → card s ≠ None → spot_ok (takenBy player s).
Proof.
  intros (H1 & H2 & H3) Hc. unfold spot_ok, takenBy. simpl. repeat split; done.
Qed.

Lemma turnCard_rep_ok player row col b r c target sec :
  rep_ok b → verdict player row col b = Take r c target sec →
  rep_ok (turnCard player r c target sec b).
Proof.
  intros Hrep Hv.
  destruct (take_cases _ _ _ _ _ _ _ _ Hrep Hv)
    as (Hr & Hc & _ & _ & _ & _ & spot & Hspot & Hcard & _ & Hcases).
  assert (rep_ok (set_grid (update_spot (takenBy player) r c (grid b)) b)) as H3.
  { apply rep_ok_update; [|done]. intros s Hs Hok.
    apply takenBy_spot_ok; [done|]. congruence. }
  destruct Hcases as [(_ & _ & Hg)|(x & sx & kx & _ & _ & _ & _ & _ & _ & _ & [[_ Hg]|[_ Hg]])].
  - eapply rep_ok_ext; [| | |exact H3]; [exact Hr|exact Hc|exact Hg].
  - eapply rep_ok_ext; [| | |exact H3]; [exact Hr|exact Hc|exact Hg].
  - eapply (rep_ok_ext (set_grid _ b)); [exact Hr|exact Hc|exact Hg|].
    apply (rep_ok_update released x.1 x.2
             (set_grid (update_spot released r c
                (update_spot (takenBy player) r c (grid b))) b));
      [intros; by apply released_spot_ok|].
    apply (rep_ok_update released r c
             (set_grid (update_spot (takenBy player) r c (grid b)) b));
      [intros; by apply released_spot_ok|done].
Qed.

Lemma cardAt_update_spot f r c g pos :
  (∀ s, card (f s) = card s) → cardAt (update_spot f r c g) pos = cardAt g pos.
Proof.
  intros Hf. unfold cardAt. rewrite spotAt_update_spot.
  destruct pos as [r' c']. simpl.
  destruct (decide _) as [[= <- <-]|]; [|done].
  destruct (spotAt g r c); simpl; [apply Hf|done].
Qed.

Lemma controls_released r c g q pos :
  controls (update_spot released r c g) q pos ↔ pos ≠ (r, c) ∧ controls g q pos.
Proof.
  unfold controls. rewrite spotAt_update_spot. destruct pos as [r' c']. simpl.
  destruct (decide ((r, c) = (r', c'))) as [[= <- <-]|Hne].
  - split; [|by intros [? _]].
    intros (s & Hs & Hc). destruct (spotAt g r c); [|done].
    simpl in Hs. injection Hs as <-. done.
  - split; [|by intros [_ ?]]. intros H. split; [congruence|done].
Qed.

Lemma controls_takenBy player r c g q pos :
  is_Some (spotAt g r c) →
  controls (update_spot (takenBy player) r c g) q pos
  ↔ (pos = (r, c) ∧ q = player) ∨ (pos ≠ (r, c) ∧ controls g q pos).
Proof.
  intros [s0 Hs0]. unfold controls. rewrite spotAt_update_spot.
  destruct pos as [r' c']. simpl.
  destruct (decide ((r, c) = (r', c'))) as [[= <- <-]|Hne].
  - rewrite Hs0. simpl. split.
    + intros (s & [= <-] & Hc). simpl in Hc. left. split; congruence.
    + intros [[_ ->]|[? _]]; [|done]. eauto.
  - split; [|intros [[? _]|[_ ?]]; [congruence|done]].
    intros H. right. split; [congruence|done].
Qed.

(** Losing control, with the cards of the controlled spots unchanged,
    cannot break the turn state. *)
Lemma turns_ok_shrink g g' :
  (∀ q pos, controls g' q pos → controls g q pos ∧ cardAt g' pos = cardAt g pos) →
  turns_ok g → turns_ok g'.
Proof.
  intros Hsub Hok p x y Hx Hy Hne.
  apply Hsub in Hx as [Hx Hxe], Hy as [Hy Hye].
  destruct (Hok p x y Hx Hy Hne) as [Hcard Hthird]. split; [congruence|].
  intros z Hz. apply Hsub in Hz as [Hz _]. auto.
Qed.

Lemma turnCard_turns_ok player row col b r c target sec :
  rep_ok b → turns_ok (grid b) → verdict player row col b = Take r c target sec →
  turns_ok (grid (turnCard player r c target sec b)).
Proof.
  intros Hrep Hok Hv.
  destruct (take_cases _ _ _ _ _ _ _ _ Hrep Hv)
    as (_ & _ & _ & _ & _ & _ & spot & Hspot & Hcard & Hfree & Hcases).
  assert (∀ q, ¬ controls (grid b) q (r, c)) as Hnobody.
  { intros q (s & Hs & Hq). simpl in Hs. congruence. }
  assert (∀ pos, cardAt (update_spot (takenBy player) r c (grid b)) pos
                 = cardAt (grid b) pos) as Hcards
    by (intros; by apply cardAt_update_spot).
  assert (∀ x, (∀ pos, controls (grid b) player pos → pos = x) →
               (x ≠ (r, c) → cardAt (grid b) x = Some target) →
               turns_ok (update_spot (takenBy player) r c (grid b))) as Hg3.
  { intros x0 Huniq Hsame p x y Hx Hy Hne.
    apply controls_takenBy in Hx, Hy; eauto.
    assert (∀ z, controls (update_spot (takenBy player) r c (grid b)) p z →
                 p ≠ player → controls (grid b) p z) as Hother.
    { intros z Hz Hp. apply controls_takenBy in Hz; eauto. naive_solver. }
    destruct (decide (p = player)) as [->|Hp].
    - assert (∀ z, z = (r, c) ∨ (z ≠ (r, c) ∧ controls (grid b) player z) →
                   z = (r, c) ∨ (z = x0 ∧ z ≠ (r, c))) as Hz
        by (intros z [?|[? ?]]; [by left|right; split; [by apply Huniq|done]]).
      assert (cardAt (grid b) (r, c) = Some target) as Htc
        by (unfold cardAt; simpl; by rewrite Hspot).
      split.
      + rewrite !Hcards.
        destruct Hx as [[-> _]|Hx], Hy as [[-> _]|Hy]; try done.
        * destruct (Hz y (or_intror Hy)) as [?|[-> ?]]; [naive_solver|].
          rewrite Htc. symmetry. by apply Hsame.
        * destruct (Hz x (or_intror Hx)) as [?|[-> ?]]; [naive_solver|].
          rewrite Htc. by apply Hsame.
        * destruct Hx as [_ Hx], Hy as [_ Hy]. apply Huniq in Hx, Hy. congruence.
      + intros z Hz'. apply controls_takenBy in Hz'; eauto.
        assert (z = (r, c) ∨ z = x0 ∧ z ≠ (r, c)) as Hzz by (apply Hz; naive_solver).
        assert (x = (r, c) ∨ x = x0 ∧ x ≠ (r, c)) as Hxx by (apply Hz; naive_solver).
        assert (y = (r, c) ∨ y = x0 ∧ y ≠ (r, c)) as Hyy by (apply Hz; naive_solver).
        naive_solver.
    - assert (controls (grid b) p x) as Hx' by naive_solver.
      assert (controls (grid b) p y) as Hy' by naive_solver.
      destruct (Hok p x y Hx' Hy' Hne) as [Hc Ht]. split.
      + by rewrite !Hcards.
      + intros z Hz. apply Ht. by apply Hother. }
  destruct Hcases as [(_ & Hnone & ->)
                     |(x & sx & kx & _ & Hxne & Hsx & Hcx & _ & Hkx & Huniq & [[-> ->]|[Hk ->]])].
  - apply (Hg3 (r, c)); [|done]. intros pos Hp. by destruct (Hnone pos).
  - apply (Hg3 x); [done|]. intros _. unfold cardAt. by rewrite Hsx.
  - eapply turns_ok_shrink; [|exact Hok].
    intros q pos Hq. apply controls_released in Hq as [Hq1 Hq].
    apply controls_released in Hq as [Hq2 Hq].
    apply controls_takenBy in Hq; eauto.
    split; [naive_solver|].
    rewrite !cardAt_update_spot by done. done.
Qed.

(** ** One pass of [flipCard], case by case *)

Lemma same_grid_refl b : same_grid b b.
Proof. done. Qed.

Lemma same_grid_trans b1 b2 b3 : same_grid b1 b2 → same_grid b2 b3 → same_grid b1 b3.
Proof. unfold same_grid. intros (-> & -> & ->) (-> & -> & ->). done. Qed.

Lemma same_grid_rep_ok b b' : same_grid b b' → rep_ok b → rep_ok b'.
Proof. intros (? & ? & ?). by apply rep_ok_ext. Qed.

Lemma releaseLock_same_grid b : same_grid b (releaseLock b).1.
Proof. pose proof (releaseLock_frame b) as H. simpl in H. by destruct H as (? & ? & ? & _). Qed.

Lemma afterCleanup_frame player b0 :
  same_grid (cleanupCompletedTurns player b0).1.1 (afterCleanup player b0)
  ∧ cardWaiters (afterCleanup player b0)
    = cardWaiters (cleanupCompletedTurns player b0).1.1
  ∧ lockWaiters (afterCleanup player b0) = lockWaiters b0
  ∧ lockHeld (afterCleanup player b0) = lockHeld b0.
Proof.
  unfold afterCleanup. pose proof (cleanup_frame player b0) as H. simpl in H.
  destruct H as (_ & _ & _ & _ & _ & Hw & Hh).
  destruct (cleanupCompletedTurns player b0) as [[b1 w1] d]. simpl in *.
  by destruct d.
Qed.

Lemma verdict_same_grid player row col b b' :
  same_grid b b' → verdict player row col b' = verdict player row col b.
Proof. intros (Hr & Hc & Hg). unfold verdict, controlledCount. by rewrite Hr, Hc, Hg. Qed.

Lemma throwError_frame msg b w :
  let res := throwError msg b w in
  same_grid b res.1.1 ∧ cardWaiters res.1.1 = cardWaiters b
  ∧ watchers res.1.1 = watchers b ∧ res.2 = Threw msg.
Proof.
  unfold throwError. pose proof (releaseLock_frame b) as H. simpl in H.
  destruct (releaseLock b) as [b' w']. simpl in *.
  by destruct H as (? & ? & ? & ? & ?).
Qed.

(** What one pass of [flipCard] leaves, by the verdict of its checks. *)
Lemma flipSection_cases me player row col b0 :
  let b2 := afterCleanup player b0 in
  let res := flipSection me player row col b0 in
  match verdict player row col b2 with
  | Reject msg =>
      res.2 = Threw msg ∧ same_grid b2 res.1.1
      ∧ cardWaiters res.1.1 = cardWaiters b2 ∧ watchers res.1.1 = watchers b2
  | Wait r c =>
      res.2 = Suspended ∧ same_grid b2 res.1.1
      ∧ cardWaiters res.1.1
        = <[(r, c) := default [] (cardWaiters b2 !! (r, c)) ++ [me]]> (cardWaiters b2)
      ∧ watchers res.1.1 = watchers b2
  | Take r c target sec =>
      same_grid (turnCard player r c target sec b2) res.1.1
      ∧ cardWaiters res.1.1 = cardWaiters b2
      ∧ match checkRep (turnCard player r c target sec b2) with
        | Some msg => res.2 = Threw msg
        | None => res.2 = Returned
        end
  end.
Proof.
  unfold afterCleanup, flipSection.
  destruct (cleanupCompletedTurns player b0) as [[b1 w1] d].
  set (b2 := if d then (notifyWatchers b1).1 else b1).
  assert ((if d then notifyWatchers b1 else (b1, []))
          = (b2, if d then watchers b1 else [])) as -> by (by destruct d).
  simpl. destruct (verdict player row col b2) as [msg|r c|r c target sec] eqn:Hv.
  - pose proof (throwError_frame msg b2 (w1 ++ if d then watchers b1 else [])) as H.
    simpl in H. destruct H as (? & ? & ? & ?). done.
  - pose proof (releaseLock_frame (waitForCard me r c b2)) as H. simpl in H.
    destruct (releaseLock (waitForCard me r c b2)) as [b3 w3]. simpl in *.
    destruct H as (Hg & Hr & Hc & Hw & Hcw). repeat split; done.
  - set (b3 := turnCard player r c target sec b2).
    assert (cardWaiters b3 = cardWaiters b2) as Hcw3.
    { subst b3. unfold turnCard. destruct sec; [|done].
      unfold relinquishIfMismatch. destruct (firstCard _ _ _ _) as [[[? ?] ?]|]; [|done].
      by destruct (negb _). }
    destruct (checkRep b3) as [msg|].
    + pose proof (throwError_frame msg b3 (w1 ++ if d then watchers b1 else [])) as H.
      simpl in H. destruct H as (Hs & Hcw & _ & Hres).
      split; [exact Hs|]. split; [congruence|done].
    + pose proof (releaseLock_frame (set_watchers [] b3)) as H. simpl in H.
      unfold notifyWatchers.
      destruct (releaseLock (set_watchers [] b3)) as [b5 w5]. simpl in *.
      destruct H as (Hg & Hr & Hc & Hw & Hcw).
      split; [done|]. split; [congruence|done].
Qed.

(** One pass of [flipCard] keeps the representation invariant and the turn
    state, whatever its outcome. *)
Lemma flipSection_inv me player row col b0 :
  rep_ok b0 → turns_ok (grid b0) →
  rep_ok (flipSection me player row col b0).1.1
  ∧ turns_ok (grid (flipSection me player row col b0).1.1).
Proof.
  intros Hrep Hturns.
  pose proof (afterCleanup_frame player b0) as (Hsame & _).
  assert (rep_ok (afterCleanup player b0)) as Hrep2
    by (eapply same_grid_rep_ok; [exact Hsame|by apply cleanup_rep_ok]).
  assert (turns_ok (grid (afterCleanup player b0))) as Hturns2.
  { destruct Hsame as (_ & _ & ->). by apply cleanup_turns_ok. }
  pose proof (flipSection_cases me player row col b0) as H. simpl in H.
  destruct (verdict player row col (afterCleanup player b0))
    as [msg|r c|r c target sec] eqn:Hv.
  - destruct H as (_ & Hs & _). split; [by eapply same_grid_rep_ok|].
    destruct Hs as (_ & _ & ->). done.
  - destruct H as (_ & Hs & _). split; [by eapply same_grid_rep_ok|].
    destruct Hs as (_ & _ & ->). done.
  - destruct H as (Hs & _). split.
    + eapply same_grid_rep_ok; [exact Hs|]. by eapply turnCard_rep_ok.
    + destruct Hs as (_ & _ & ->). by eapply turnCard_turns_ok.
Qed.

(** From a state that satisfies the invariant the assertion of [checkRep]
    at the end of a flip never fails. *)
Lemma flipSection_no_assertion me player row col b0 r c target sec :
  rep_ok b0 →
  verdict player row col (afterCleanup player b0) = Take r c target sec →
  (flipSection me player row col b0).2 = Returned.
Proof.
  intros Hrep Hv.
  pose proof (afterCleanup_frame player b0) as (Hsame & _).
  assert (rep_ok (afterCleanup player b0)) as Hrep2
    by (eapply same_grid_rep_ok; [exact Hsame|by apply cleanup_rep_ok]).
  pose proof (flipSection_cases me player row col b0) as H. simpl in H.
  rewrite Hv in H. destruct H as (_ & _ & H).
  pose proof (turnCard_rep_ok _ _ _ _ _ _ _ _ Hrep2 Hv) as Hok.
  apply checkRep_None in Hok. by rewrite Hok in H.
Qed.

(** ** The second pass of [mapCards] keeps the invariants *)

Lemma applyTransforms_frame m ps b :
  let b' := fold_left (λ b' pos, set_grid (update_spot (transformSpot m) pos.1 pos.2 (grid b')) b')
                      ps b in
  grid b' = fold_left (λ g pos, update_spot (transformSpot m) pos.1 pos.2 g) ps (grid b)
  ∧ rows b' = rows b ∧ cols b' = cols b ∧ watchers b' = watchers b
  ∧ cardWaiters b' = cardWaiters b ∧ lockWaiters b' = lockWaiters b
  ∧ lockHeld b' = lockHeld b.
Proof.
  revert b. induction ps as [|p ps IH]; intros b; simpl; [done|].
  specialize (IH (set_grid (update_spot (transformSpot m) p.1 p.2 (grid b)) b)).
  simpl in IH. done.
Qed.

Lemma applyTransforms_spot m b r c :
  shape_ok b →
  spotAt (grid (applyTransforms m b)) r c = transformSpot m <$> spotAt (grid b) r c.
Proof.
  intros Hshape. unfold applyTransforms.
  pose proof (applyTransforms_frame m (positions (rows b) (cols b)) b) as H.
  simpl in H. destruct H as (-> & _).
  rewrite spotAt_fold_update by apply NoDup_positions.
  destruct (decide _) as [|Hnin]; [done|].
  destruct (spotAt (grid b) r c) as [s|] eqn:Hs; [|done].
  destruct Hnin. by apply (spotAt_position b r c s).
Qed.

Lemma transformSpot_ok m s : valid_transforms m → spot_ok s → spot_ok (transformSpot m s).
Proof.
  intros Hm Hok. unfold transformSpot.
  destruct (card s) as [k|] eqn:Hk; [|exact Hok].
  destruct (m !! k) as [k'|] eqn:Hk'; [|exact Hok].
  destruct Hok as (H1 & H2 & H3).
  unfold spot_ok. simpl. repeat split; try done.
  intros k0 [= <-]. eauto.
Qed.

Lemma applyTransforms_rep_ok m b :
  valid_transforms m → rep_ok b → rep_ok (applyTransforms m b).
Proof.
  intros Hm [[Hlen Hrows] Hspots]. unfold applyTransforms.
  pose proof (applyTransforms_frame m (positions (rows b) (cols b)) b) as H.
  simpl in H. destruct H as (Hg & Hr & Hc & _).
  split; [split|].
  - by rewrite Hg, fold_update_length, Hr.
  - rewrite Hg, Hc. by apply fold_update_row_lengths.
  - intros r c s'. fold (applyTransforms m b).
    rewrite applyTransforms_spot by done.
    destruct (spotAt (grid b) r c) as [s|] eqn:Hs; [|done].
    simpl. intros [= <-]. apply transformSpot_ok; eauto.
Qed.

Lemma transformSpot_controller m s : controller (transformSpot m s) = controller s.
Proof.
  unfold transformSpot. destruct (card s) as [k|]; [|done]. by destruct (m !! k).
Qed.

Lemma transformSpot_faceUp m s : faceUp (transformSpot m s) = faceUp s.
Proof.
  unfold transformSpot. destruct (card s) as [k|]; [|done]. by destruct (m !! k).
Qed.

Lemma transformSpot_card m s : card (transformSpot m s) = transformCard m (card s).
Proof.
  unfold transformSpot, transformCard. destruct (card s) as [k|] eqn:Hk; [|done].
  by destruct (m !! k).
Qed.

Lemma applyTransforms_controls m b q pos :
  shape_ok b →
  controls (grid (applyTransforms m b)) q pos ↔ controls (grid b) q pos.
Proof.
  intros Hshape. unfold controls. rewrite applyTransforms_spot by done. split.
  - intros (s' & Hs' & Hq). destruct (spotAt (grid b) pos.1 pos.2) as [s|]; [|done].
    simpl in Hs'. injection Hs' as <-. rewrite transformSpot_controller in Hq. eauto.
  - intros (s & -> & Hq). exists (transformSpot m s). simpl.
    by rewrite transformSpot_controller.
Qed.

Lemma applyTransforms_cardAt m b pos :
  shape_ok b →
  cardAt (grid (applyTransforms m b)) pos = transformCard m (cardAt (grid b) pos).
Proof.
  intros Hshape. unfold cardAt. rewrite applyTransforms_spot by done.
  destruct (spotAt (grid b) pos.1 pos.2) as [s|]; [|done]. simpl.
  apply transformSpot_card.
Qed.

Lemma applyTransforms_turns_ok m b :
  shape_ok b → turns_ok (grid b) → turns_ok (grid (applyTransforms m b)).
Proof.
  intros Hshape Hok p x y Hx Hy Hne.
  apply applyTransforms_controls in Hx, Hy; try done.
  destruct (Hok p x y Hx Hy Hne) as [Hcard Hthird]. split.
  - rewrite !applyTransforms_cardAt by done. by rewrite Hcard.
  - intros z Hz. apply applyTransforms_controls in Hz; auto.
Qed.

Lemma applySection_frame m b :
  same_grid (applyTransforms m b) (applySection m b).1.1
  ∧ cardWaiters (applySection m b).1.1 = cardWaiters b.
Proof.
  unfold applySection.
  pose proof (applyTransforms_frame m (positions (rows b) (cols b)) b) as H0.
  simpl in H0. destruct H0 as (_ & _ & _ & _ & Hcw0 & _).
  fold (applyTransforms m b) in Hcw0.
  destruct (checkRep (applyTransforms m b)).
  - pose proof (releaseLock_frame (applyTransforms m b)) as H. simpl in H.
    destruct (releaseLock _) as [b2 w2]. simpl in *.
    destruct H as (? & ? & ? & ? & ?). split; [done|congruence].
  - unfold notifyWatchers.
    pose proof (releaseLock_frame (set_watchers [] (applyTransforms m b))) as H.
    simpl in H. destruct (releaseLock _) as [b3 w3]. simpl in *.
    destruct H as (? & ? & ? & ? & ?). split; [done|congruence].
Qed.

Lemma computeTransforms_valid f cards calls m m' :
  valid_transforms m → (computeTransforms f cards calls m).2 = inr m' →
  valid_transforms m'.
Proof.
  revert calls m. induction cards as [|k cards IH]; intros calls m Hm; simpl.
  - by intros [= <-].
  - destruct (CARD_REGEX_test (f k)) eqn:Hk; [|done].
    apply IH. intros k0 v. rewrite lookup_insert.
    destruct (decide (k = k0)); [|by apply Hm]. by intros [= <-].
Qed.

(** ** Every state of a running system satisfies the invariants *)

Lemma tasks_ok_insert ts n id st :
  tasks_ok ts n → task_ok st → id < n → tasks_ok (<[id := st]> ts) n.
Proof.
  intros Hts Hst Hid id' st'. rewrite lookup_insert.
  destruct (decide (id = id')) as [<-|]; [|by apply Hts]. by intros [= <-].
Qed.

Lemma tasks_ok_resolve ts n id : tasks_ok ts n → tasks_ok (resolve ts id) n.
Proof.
  intros Hts. unfold resolve. destruct (ts !! id) as [st|] eqn:Hst; [|done].
  destruct (Hts _ _ Hst) as [Hok Hlt].
  destruct st; try done; by apply tasks_ok_insert.
Qed.

Lemma tasks_ok_fold ts n w : tasks_ok ts n → tasks_ok (fold_left resolve w ts) n.
Proof.
  revert ts. induction w as [|id w IH]; intros ts Hts; simpl; [done|].
  by apply IH, tasks_ok_resolve.
Qed.

Lemma tasks_ok_mono ts n n' : n ≤ n' → tasks_ok ts n → tasks_ok ts n'.
Proof. intros Hle Hts id st H. destruct (Hts _ _ H). split; [done|lia]. Qed.

Lemma enter_ok id k s :
  system_ok s → id < nextId s → task_ok (HoldsLock k) → system_ok (enter id k s).
Proof.
  intros (Hrep & Hturns & Hts) Hid Hk. unfold enter.
  pose proof (acquireLock_frame id (board s)) as H. simpl in H.
  destruct (acquireLock id (board s)) as [b owned]. simpl in *.
  destruct H as (Hg & Hr & Hc & _). split; [|split]; simpl.
  - by apply (rep_ok_ext (board s)).
  - by rewrite Hg.
  - apply tasks_ok_insert; [done| |done]. by destruct owned.
Qed.

Lemma finish_ok id b w st s :
  rep_ok b → turns_ok (grid b) → tasks_ok (tasks s) (nextId s) →
  id < nextId s → task_ok st → system_ok (finish id b w st s).
Proof.
  intros Hrep Hturns Hts Hid Hst. split; [|split]; simpl; try done.
  by apply tasks_ok_fold, tasks_ok_insert.
Qed.

Lemma run_ok id k s :
  system_ok s → id < nextId s → task_ok (HoldsLock k) → system_ok (run id k s).
Proof.
  intros (Hrep & Hturns & Hts) Hid Hk.
  destruct k as [p row col|p|p|p f|p m]; simpl.
  - pose proof (flipSection_inv id p row col (board s) Hrep Hturns) as [H1 H2].
    destruct (flipSection id p row col (board s)) as [[b w] res]. simpl in *.
    apply finish_ok; try done. by destruct res.
  - unfold renderSection.
    pose proof (releaseLock_same_grid (board s)) as Hs.
    destruct (releaseLock (board s)) as [b w]. simpl in *.
    apply finish_ok; try done; [by eapply same_grid_rep_ok|].
    destruct Hs as (_ & _ & ->). done.
  - unfold watchSection.
    pose proof (releaseLock_same_grid (set_watchers (watchers (board s) ++ [id]) (board s)))
      as Hs.
    destruct (releaseLock _) as [b w]. simpl in *.
    apply finish_ok; try done; [by eapply (same_grid_rep_ok (board s))|].
    destruct Hs as (_ & _ & ->). done.
  - unfold snapshotSection.
    pose proof (releaseLock_same_grid (board s)) as Hs.
    destruct (releaseLock (board s)) as [b w]. simpl in *.
    assert (rep_ok b) by (by eapply same_grid_rep_ok).
    assert (turns_ok (grid b)) by (destruct Hs as (_ & _ & ->); done).
    destruct (uniqueCards (board s)); [|by apply finish_ok].
    apply enter_ok; [by apply finish_ok|done|]. by intros k v.
  - pose proof (applySection_frame m (board s)) as [Hs _].
    assert (rep_ok (applyTransforms m (board s))) by (by apply applyTransforms_rep_ok).
    assert (turns_ok (grid (applyTransforms m (board s))))
      by (apply applyTransforms_turns_ok; [by destruct Hrep|done]).
    destruct (applySection m (board s)) as [[b w] err]. simpl in *.
    assert (rep_ok b) by (by eapply same_grid_rep_ok).
    assert (turns_ok (grid b)) by (destruct Hs as (_ & _ & ->); done).
    destruct err; [by apply finish_ok|].
    apply enter_ok; [by apply finish_ok|done|done].
Qed.

Lemma turn_ok id s s' : system_ok s → turn id s = Some s' → system_ok s'.
Proof.
  intros Hok. pose proof Hok as (Hrep & Hturns & Hts). unfold turn.
  destruct (tasks s !! id) as [st|] eqn:Hst; [|done].
  destruct (Hts _ _ Hst) as [Hk Hid].
  destruct st as [k|k|k|p row col|p|p f cards|v|msg]; try done.
  - intros [= <-]. by apply enter_ok.
  - intros [= <-]. by apply run_ok.
  - destruct (computeTransforms f cards [] ∅) as [calls [msg|m]] eqn:Hc; simpl.
    + intros [= <-]. split; [|split]; simpl; try done. by apply tasks_ok_insert.
    + intros [= <-]. apply enter_ok; try done.
      apply (computeTransforms_valid f cards [] ∅); [done|by rewrite Hc].
Qed.

Lemma call_ok c s : system_ok s → system_ok (call c s).
Proof.
  intros (Hrep & Hturns & Hts). unfold call. apply enter_ok; simpl.
  - split; [|split]; simpl; try done. eapply tasks_ok_mono; [|exact Hts]. lia.
  - lia.
  - by destruct c.
Qed.

Lemma step_ok s s' : system_ok s → step s s' → system_ok s'.
Proof.
  intros Hok Hstep. revert Hok.
  destruct Hstep as [c s0|id s0 s1 H]; intros Hok; [by apply call_ok|by eapply turn_ok].
Qed.

Lemma steps_ok s s' : system_ok s → rtc step s s' → system_ok s'.
Proof. intros Hok H. induction H; [done|]. eauto using step_ok. Qed.

Lemma initial_board_spot nrows ncols cards r c s :
  spotAt (grid (initial_board nrows ncols cards)) r c = Some s →
  faceUp s = false ∧ controller s = None.
Proof.
  unfold spotAt, initial_board. simpl. rewrite list_lookup_fmap.
  destruct (seq 0 nrows !! r) as [r0|]; [|done]. simpl.
  rewrite list_lookup_fmap. destruct (seq 0 ncols !! c) as [c0|]; [|done]. simpl.
  by intros [= <-].
Qed.

Lemma parseFromFile_initial raw b :
  parseFromFile raw = inr b →
  ∃ nrows ncols cards, b = initial_board nrows ncols cards ∧ rep_ok b.
Proof.
  unfold parseFromFile.
  destruct (pop_empty_lines _) as [|first cardLines]; [done|].
  destruct (String.eqb (trim first) ""); [done|].
  destruct (match_dims (trim first)) as [[m1 m2]|]; [|done].
  destruct (_ || _); [done|]. destruct (negb _); [done|].
  destruct (parse_cards 0 cardLines) as [e|cards]; [done|].
  unfold new_Board.
  destruct (checkRep (initial_board _ _ cards)) eqn:Hrep; [done|].
  intros [= <-]. do 3 eexists. split; [done|]. by apply checkRep_None.
Qed.

Lemma start_ok raw b : parseFromFile raw = inr b → system_ok (start b).
Proof.
  intros (nrows & ncols & cards & -> & Hrep)%parseFromFile_initial.
  split; [done|]. split; simpl.
  - intros p x y (s & Hs & Hc). apply initial_board_spot in Hs as [_ Hs]. congruence.
  - intros id st. by rewrite lookup_empty.
Qed.

Lemma reachable_ok raw b s :
  parseFromFile raw = inr b → reachable b s → system_ok s.
Proof. intros Hp Hr. eapply steps_ok; [by eapply start_ok|exact Hr]. Qed.

Lemma exec_steps s es : rtc step s (exec s es).
Proof.
  revert s. induction es as [|e es IH]; intros s; simpl; [done|].
  destruct e as [c|id]; simpl.
  - eapply rtc_l; [apply step_call|apply IH].
  - destruct (turn id s) as [s'|] eqn:Ht; simpl; [|apply IH].
    eapply rtc_l; [by apply (step_turn id)|apply IH].
Qed.

Lemma exec_reachable b es : reachable b (exec (start b) es).
Proof. apply exec_steps. Qed.

Example parse_ab : parseFromFile ab_file = inr ab_board.
Proof. vm_compute. reflexivity. Qed.

(** ** The spot invariant in every observable state *)

(** C1: for a board built by [parseFromFile] and any sequence of calls to
    [flipCard], [mapCards], [renderFor] and [watch], however their turns
    interleave, every spot of every state in between satisfies: no card
    implies face down and no controller; a controller implies face up. *)
Theorem C1_spot_invariant raw b s r c spot :
  parseFromFile raw = inr b → reachable b s →
  spotAt (grid (board s)) r c = Some spot →
  (card spot = None → faceUp spot = false ∧ controller spot = None)
  ∧ (controller spot ≠ None → faceUp spot = true).
Proof.
  intros Hparse Hreach Hspot.
  destruct (reachable_ok raw b s Hparse Hreach) as ((_ & Hspots) & _).
  destruct (Hspots r c spot Hspot) as (H1 & H2 & _). done.
Qed.

Lemma C1_spot_invariant_witness :
  let spot := mkSpot (Some "A") true None in
  (card spot = None → faceUp spot = false ∧ controller spot = None)
  ∧ (controller spot ≠ None → faceUp spot = true).
Proof.
  apply (C1_spot_invariant ab_file ab_board (exec (start ab_board) mismatch_schedule) 0 0).
  - vm_compute. reflexivity.
  - apply exec_reachable.
  - vm_compute. reflexivity.
Defined.

(** ** The cards found by the cleanup *)

Lemma NoDup_omap_inj {A B} (f : A → option B) (l : list A) :
  NoDup l → (∀ x y z, f x = Some z → f y = Some z → x = y) → NoDup (omap f l).
Proof.
  intros Hnd Hinj. induction Hnd as [|x l Hx Hnd IH]; simpl; [constructor|].
  destruct (f x) as [z|] eqn:Hz; [|done]. constructor; [|done].
  intros (y & Hy & Hfy)%list_elem_of_omap.
  assert (y = x) as -> by eauto. done.
Qed.

Lemma NoDup_playerCards player b : NoDup (playerCards player b).
Proof.
  apply NoDup_omap_inj; [apply NoDup_positions|].
  intros x y [[r c] k] Hx Hy.
  apply heldCard_Some in Hx as [-> _], Hy as [-> _]. done.
Qed.

Lemma playerCards_controls b player r c k :
  rep_ok b →
  (r, c, k) ∈ playerCards player b
  ↔ controls (grid b) player (r, c) ∧ cardAt (grid b) (r, c) = Some k.
Proof.
  intros Hrep. pose proof Hrep as [Hshape Hspots]. rewrite playerCards_elem.
  unfold controls, cardAt. simpl. split.
  - intros (_ & s & Hs & Hk & Hc & _). unfold controlledBy in Hc.
    apply andb_true_iff in Hc as [Hc _]. apply bool_decide_eq_true in Hc.
    rewrite Hs. eauto.
  - intros [(s & Hs & Hc) Hk]. rewrite Hs in Hk. simpl in Hk.
    split; [by apply (spotAt_position b r c s)|].
    destruct (Hspots _ _ _ Hs) as (_ & Hf & Hre).
    exists s. repeat split; try done.
    + unfold controlledBy. rewrite Hf by congruence.
      by rewrite bool_decide_eq_true_2.
    + by apply CARD_REGEX_nonempty, Hre.
Qed.

Lemma controls_has_card b player pos :
  rep_ok b → controls (grid b) player pos → ∃ k, cardAt (grid b) pos = Some k.
Proof.
  intros [_ Hspots] (s & Hs & Hc). unfold cardAt. rewrite Hs. simpl.
  destruct (card s) as [k|] eqn:Hk; [eauto|].
  destruct (Hspots _ _ _ Hs) as (H1 & _). destruct (H1 Hk). congruence.
Qed.

(** With a completed pair under control, the cleanup finds exactly its two
    cards, in grid order. *)
Lemma playerCards_pair b player x y :
  rep_ok b → turns_ok (grid b) → x ≠ y →
  controls (grid b) player x → controls (grid b) player y →
  ∃ k, playerCards player b = [(x.1, x.2, k); (y.1, y.2, k)]
       ∨ playerCards player b = [(y.1, y.2, k); (x.1, x.2, k)].
Proof.
  intros Hrep Hturns Hne Hx Hy.
  destruct (Hturns player x y Hx Hy Hne) as [Hsame Hthird].
  destruct (controls_has_card b player x Hrep Hx) as [k Hk].
  assert (cardAt (grid b) y = Some k) as Hk' by congruence.
  destruct x as [rx cx], y as [ry cy]. simpl.
  assert (playerCards player b ≡ₚ [(rx, cx, k); (ry, cy, k)]) as Hperm.
  { apply NoDup_Permutation; [apply NoDup_playerCards| |].
    - apply NoDup_cons. split; [|apply NoDup_singleton].
      intros ?%list_elem_of_singleton. congruence.
    - intros [[r c] k0]. rewrite playerCards_controls by done.
      rewrite elem_of_cons, list_elem_of_singleton. split.
      + intros [Hc Hcard]. destruct (Hthird _ Hc) as [[= -> ->]|[= -> ->]];
          [left|right]; congruence.
      + intros [[= -> -> ->]|[= -> -> ->]]; done. }
  exists k.
  pose proof (Permutation_length Hperm) as Hlen.
  destruct (playerCards player b) as [|a [|a' [|? ?]]]; try done.
  assert (a ∈ [(rx, cx, k); (ry, cy, k)]) as Ha
    by (rewrite <- Hperm; apply list_elem_of_here).
  assert (a' ∈ [(rx, cx, k); (ry, cy, k)]) as Ha'
    by (rewrite <- Hperm; apply list_elem_of_further, list_elem_of_here).
  assert (NoDup [a; a']) as Hnd by (rewrite Hperm; apply NoDup_cons; split;
    [intros ?%list_elem_of_singleton; congruence|apply NoDup_singleton]).
  apply NoDup_cons in Hnd as [Hnd _]. rewrite list_elem_of_singleton in Hnd.
  rewrite elem_of_cons, list_elem_of_singleton in Ha, Ha'.
  destruct Ha as [->| ->], Ha' as [->| ->]; try done; auto.
Qed.

Lemma spotAt_removed_twice g r1 c1 r2 c2 r c :
  is_Some (spotAt g r c) → (r, c) = (r1, c1) ∨ (r, c) = (r2, c2) →
  spotAt (update_spot removedSpot r2 c2 (update_spot removedSpot r1 c1 g)) r c
  = Some (mkSpot None false None).
Proof.
  intros [s Hs] Hor. rewrite !spotAt_update_spot.
  destruct (decide ((r2, c2) = (r, c))) as [[= -> ->]|Hne2].
  - destruct (decide ((r1, c1) = (r, c))) as [[= -> ->]|Hne1]; by rewrite Hs.
  - destruct (decide ((r1, c1) = (r, c))) as [[= -> ->]|Hne1]; [by rewrite Hs|].
    destruct Hor; congruence.
Qed.

(** The cleanup pass of a player who holds a completed pair removes both
    cards. *)
Lemma cleanup_removes_pair b player x y :
  rep_ok b → turns_ok (grid b) → x ≠ y →
  controls (grid b) player x → controls (grid b) player y →
  let b1 := (cleanupCompletedTurns player b).1.1 in
  spotAt (grid b1) x.1 x.2 = Some (mkSpot None false None)
  ∧ spotAt (grid b1) y.1 y.2 = Some (mkSpot None false None)
  ∧ (cleanupCompletedTurns player b).2 = true.
Proof.
  intros Hrep Hturns Hne Hx Hy.
  destruct (playerCards_pair b player x y Hrep Hturns Hne Hx Hy) as [k Hpc].
  pose proof Hx as (sx & Hsx & _). pose proof Hy as (sy & Hsy & _).
  destruct x as [rx cx], y as [ry cy]. simpl in *.
  assert (∃ r1 c1 r2 c2 w cw,
    removeMatched player b
    = (set_cardWaiters cw
         (set_grid (update_spot removedSpot r2 c2
                      (update_spot removedSpot r1 c1 (grid b))) b), w, true)
    ∧ ((rx, cx) = (r1, c1) ∨ (rx, cx) = (r2, c2))
    ∧ ((ry, cy) = (r1, c1) ∨ (ry, cy) = (r2, c2)))
    as (r1 & c1 & r2 & c2 & w & cw & Hrm & Hxin & Hyin).
  { destruct (removeMatched_cases player b)
      as [Hno|(r1 & c1 & r2 & c2 & k' & Hpc' & _ & _ & Hrm)].
    - exfalso. unfold removeMatched in Hno.
      destruct Hpc as [Hpc|Hpc]; rewrite Hpc in Hno;
        rewrite String.eqb_refl, ?Hsx, ?Hsy in Hno; simpl in Hno;
        destruct (notifyCardWaiters _ _ _) as [? ?];
        destruct (notifyCardWaiters _ _ _) as [? ?]; done.
    - exists r1, c1, r2, c2. do 2 eexists. split; [exact Hrm|].
      destruct Hpc as [Hpc|Hpc]; rewrite Hpc in Hpc'; injection Hpc' as <- <- <- <- <-;
        auto. }
  rewrite cleanup_grid. unfold cleanupCompletedTurns.
  rewrite Hrm. simpl.
  rewrite !spotAt_fold_update by apply NoDup_positions.
  rewrite !spotAt_removed_twice by eauto.
  split; [by destruct (decide _)|]. split; [by destruct (decide _)|].
  clear. generalize (positions (rows b) (cols b)).
  generalize (set_cardWaiters cw
    (set_grid (update_spot removedSpot r2 c2 (update_spot removedSpot r1 c1 (grid b))) b)).
  intros b' ps. revert b' w. induction ps as [|p ps IH]; intros b' w; simpl; [done|].
  destruct (spotAt (grid b') p.1 p.2) as [s|]; [|apply IH].
  destruct (_ && _ && _); [|apply IH].
  destruct (notifyCardWaiters _ _ _) as [b1 w1]. apply IH.
Qed.

(** ** One pass of [flipCard], spot by spot *)

Lemma turnCard_spot player row col b r c target sec r' c' s' :
  rep_ok b → verdict player row col b = Take r c target sec →
  spotAt (grid (turnCard player r c target sec b)) r' c' = Some s' →
  ∃ s, spotAt (grid b) r' c' = Some s ∧ turned player s s'.
Proof.
  intros Hrep Hv.
  destruct (take_cases _ _ _ _ _ _ _ _ Hrep Hv)
    as (_ & _ & _ & _ & _ & _ & spot & Hspot & Hcard & Hfree & Hcases).
  assert (card spot ≠ None) as Hsome by congruence.
  assert (∀ s', spotAt (update_spot (takenBy player) r c (grid b)) r' c' = Some s' →
                ∃ s, spotAt (grid b) r' c' = Some s
                     ∧ ((r', c') ≠ (r, c) ∧ s' = s
                        ∨ ((r', c') = (r, c) ∧ s = spot ∧ s' = takenBy player s))) as H3.
  { intros s3. rewrite spotAt_update_spot.
    destruct (decide ((r, c) = (r', c'))) as [[= <- <-]|Hne].
    - rewrite Hspot. simpl. intros [= <-]. eauto 10.
    - intros H. exists s3. split; [done|]. left. split; [congruence|done]. }
  destruct Hcases as [(_ & _ & ->)
                     |(x & sx & kx & _ & Hxne & Hsx & Hcx & _ & _ & _ & [[_ ->]|[_ ->]])].
  - intros H. apply H3 in H as (s & Hs & Hcase). exists s. split; [done|].
    destruct Hcase as [[_ ->]|(_ & -> & ->)]; [constructor|by constructor].
  - intros H. apply H3 in H as (s & Hs & Hcase). exists s. split; [done|].
    destruct Hcase as [[_ ->]|(_ & -> & ->)]; [constructor|by constructor].
  - rewrite spotAt_update_spot.
    destruct (decide ((x.1, x.2) = (r', c'))) as [Hx|Hnx].
    + assert (x = (r', c')) as -> by (by destruct x). simpl in *.
      rewrite spotAt_update_spot_ne by done.
      rewrite spotAt_update_spot_ne by done. rewrite Hsx. simpl.
      intros [= <-]. exists sx. split; [done|]. by constructor.
    + rewrite spotAt_update_spot.
      destruct (decide ((r, c) = (r', c'))) as [[= <- <-]|Hne].
      * rewrite spotAt_update_spot_eq, Hspot. simpl. intros [= <-].
        exists spot. split; [done|]. by constructor.
      * intros H. apply H3 in H as (s & Hs & [[_ ->]|(? & _)]); [|congruence].
        exists s. split; [done|constructor].
Qed.

(** Every spot after one pass of [flipCard] descends from the spot before
    by a cleanup change followed by a turning change. *)
Lemma flipSection_spot me player row col b0 r c s' :
  rep_ok b0 →
  spotAt (grid (flipSection me player row col b0).1.1) r c = Some s' →
  ∃ s s1, spotAt (grid b0) r c = Some s ∧ cleaned player s s1 ∧ turned player s1 s'.
Proof.
  intros Hrep Hs'.
  pose proof (afterCleanup_frame player b0) as (Hsame & _).
  assert (rep_ok (afterCleanup player b0)) as Hrep2
    by (eapply same_grid_rep_ok; [exact Hsame|by apply cleanup_rep_ok]).
  assert (∀ s1, spotAt (grid (afterCleanup player b0)) r c = Some s1 →
                ∃ s, spotAt (grid b0) r c = Some s ∧ cleaned player s s1) as Hclean.
  { destruct Hsame as (_ & _ & ->). apply cleanup_spot. }
  pose proof (flipSection_cases me player row col b0) as H. simpl in H.
  destruct (verdict player row col (afterCleanup player b0))
    as [msg|r0 c0|r0 c0 target sec] eqn:Hv.
  - destruct H as (_ & (_ & _ & Hg) & _). rewrite Hg in Hs'.
    destruct (Hclean _ Hs') as (s & Hs & Hc). exists s, s'. repeat split; try done.
    constructor.
  - destruct H as (_ & (_ & _ & Hg) & _). rewrite Hg in Hs'.
    destruct (Hclean _ Hs') as (s & Hs & Hc). exists s, s'. repeat split; try done.
    constructor.
  - destruct H as ((_ & _ & Hg) & _). rewrite Hg in Hs'.
    eapply turnCard_spot in Hs' as (s1 & Hs1 & Ht); try done.
    destruct (Hclean _ Hs1) as (s & Hs & Hc). eauto.
Qed.

(** A flip never touches a spot another player controls. *)
Lemma flipSection_other_player me player row col b0 r c s q :
  rep_ok b0 → spotAt (grid b0) r c = Some s → controller s = Some q → q ≠ player →
  spotAt (grid (flipSection me player row col b0).1.1) r c = Some s.
Proof.
  intros Hrep Hs Hq Hne.
  pose proof (flipSection_inv me player row col b0) as Hinv.
  destruct (spotAt (grid (flipSection me player row col b0).1.1) r c) as [s'|] eqn:Hs'.
  - apply flipSection_spot in Hs' as (s0 & s1 & Hs0 & Hc & Ht); [|done].
    assert (s0 = s) as -> by congruence.
    assert (s1 = s) as ->.
    { destruct Hc as [|Hc|? ? Hc]; [done| |congruence].
      unfold controlledBy in Hc. apply andb_true_iff in Hc as [Hc _].
      apply bool_decide_eq_true in Hc. congruence. }
    destruct Ht; congruence.
  - exfalso.
    pose proof (flipSection_cases me player row col b0) as H. simpl in H.
    pose proof (afterCleanup_frame player b0) as ((Hr2 & Hc2 & Hg2) & _).
    pose proof (cleanup_frame player b0) as (Hr1 & Hc1 & _). simpl in Hr1, Hc1.
    assert (rep_ok (afterCleanup player b0)) as Hrep2
      by (eapply same_grid_rep_ok; [done|by apply cleanup_rep_ok]).
    assert (rows (flipSection me player row col b0).1.1 = rows b0
            ∧ cols (flipSection me player row col b0).1.1 = cols b0
            ∧ rep_ok (flipSection me player row col b0).1.1) as (Hr & Hc & Hrep').
    { destruct (verdict player row col (afterCleanup player b0))
        as [msg|r0 c0|r0 c0 target sec] eqn:Hv.
      - destruct H as (_ & (Hr & Hc & Hg) & _).
        split; [congruence|]. split; [congruence|].
        by eapply (same_grid_rep_ok (afterCleanup player b0)).
      - destruct H as (_ & (Hr & Hc & Hg) & _).
        split; [congruence|]. split; [congruence|].
        by eapply (same_grid_rep_ok (afterCleanup player b0)).
      - destruct H as ((Hr & Hc & Hg) & _).
        destruct (take_cases _ _ _ _ _ _ _ _ Hrep2 Hv) as (Hr3 & Hc3 & _).
        split; [congruence|]. split; [congruence|].
        eapply same_grid_rep_ok; [done|]. by eapply turnCard_rep_ok. }
    destruct Hrep as [Hshape _], Hrep' as [Hshape' _].
    assert (is_Some (spotAt (grid b0) r c)) as Hin by eauto.
    apply (spotAt_in_shape b0 r c Hshape) in Hin.
    rewrite <- Hr, <- Hc in Hin.
    apply (spotAt_in_shape _ r c Hshape') in Hin as [? Hin]. congruence.
Qed.

(** A flip never brings a removed card back. *)
Lemma flipSection_removed_stays me player row col b0 r c :
  rep_ok b0 → spotAt (grid b0) r c = Some (mkSpot None false None) →
  ∀ s', spotAt (grid (flipSection me player row col b0).1.1) r c = Some s' →
        s' = mkSpot None false None.
Proof.
  intros Hrep Hs s' Hs'.
  apply flipSection_spot in Hs' as (s0 & s1 & Hs0 & Hc & Ht); [|done].
  assert (s0 = mkSpot None false None) as -> by congruence.
  assert (s1 = mkSpot None false None) as ->.
  { destruct Hc as [|Hcb|Hcard _ _]; [done|done|]. by destruct Hcard. }
  destruct Ht as [|Hcard _|Hcard _|Hctl]; simpl in *; done.
Qed.

(** ** What a step does to the grid *)

Lemma enter_same_grid id k s : same_grid (board s) (board (enter id k s)).
Proof.
  unfold enter. pose proof (acquireLock_frame id (board s)) as H. simpl in H.
  destruct (acquireLock id (board s)) as [b owned]. simpl in *.
  by destruct H as (? & ? & ? & _).
Qed.

Lemma call_same_grid c s : same_grid (board s) (board (call c s)).
Proof. unfold call. apply (enter_same_grid _ _ (mkSystem _ _ _)). Qed.

(** A turn leaves the grid as it is, unless it is one pass of [flipCard]
    or the second pass of [mapCards]. *)
Lemma turn_grid_cases id s s' :
  turn id s = Some s' →
  same_grid (board s) (board s')
  ∨ (∃ p row col, tasks s !! id = Some (HoldsLock (DoFlip p row col))
                  ∧ board s' = (flipSection id p row col (board s)).1.1)
  ∨ (∃ p m, tasks s !! id = Some (HoldsLock (DoApply p m))
            ∧ same_grid (applyTransforms m (board s)) (board s')).
Proof.
  unfold turn. destruct (tasks s !! id) as [st|] eqn:Hst; [|done].
  destruct st as [k|k|k|p row col|p|p f cards|v|msg]; try done.
  - intros [= <-]. left. apply enter_same_grid.
  - intros [= <-]. destruct k as [p row col|p|p|p f|p m]; simpl.
    + right. left. exists p, row, col. split; [done|].
      by destruct (flipSection id p row col (board s)) as [[b w] res].
    + left. unfold renderSection.
      pose proof (releaseLock_same_grid (board s)) as H.
      by destruct (releaseLock (board s)) as [b w].
    + left. unfold watchSection.
      pose proof (releaseLock_same_grid
                    (set_watchers (watchers (board s) ++ [id]) (board s))) as H.
      by destruct (releaseLock _) as [b w].
    + left. unfold snapshotSection.
      pose proof (releaseLock_same_grid (board s)) as H.
      destruct (releaseLock (board s)) as [b w]. simpl in *.
      destruct (uniqueCards (board s)); [|done].
      eapply same_grid_trans; [exact H|].
      apply (enter_same_grid id _ (finish id b w _ s)).
    + right. right. exists p, m. split; [done|].
      pose proof (applySection_frame m (board s)) as [H _].
      destruct (applySection m (board s)) as [[b w] err]. simpl in *.
      destruct err; [done|].
      eapply same_grid_trans; [exact H|].
      apply (enter_same_grid id _ (finish id b w _ s)).
  - destruct (computeTransforms f cards [] ∅).2; intros [= <-].
    + left. done.
    + left. apply enter_same_grid.
Qed.

Lemma holds_pair_same_grid b b' p x y :
  same_grid b b' → holds_pair (grid b) p x y → holds_pair (grid b') p x y.
Proof. intros (_ & _ & ->). done. Qed.

Lemma holds_pair_controls g p x y :
  holds_pair g p x y → controls g p x ∧ controls g p y ∧ x ≠ y.
Proof. intros (Hne & k & Hx & Hy). repeat split; try done; eexists; eauto. Qed.

Lemma turnCard_removed_stays player row col b r c target sec r' c' :
  rep_ok b → verdict player row col b = Take r c target sec →
  spotAt (grid b) r' c' = Some (mkSpot None false None) →
  spotAt (grid (turnCard player r c target sec b)) r' c' = Some (mkSpot None false None).
Proof.
  intros Hrep Hv Hs.
  destruct (take_cases _ _ _ _ _ _ _ _ Hrep Hv)
    as (_ & _ & _ & _ & _ & _ & spot & Hspot & Hcard & Hfree & Hcases).
  assert ((r, c) ≠ (r', c')) as Hne
    by (intros [= -> ->];
        assert (spot = mkSpot None false None) as -> by congruence; done).
  destruct Hcases as [(_ & _ & ->)
                     |(x & sx & kx & _ & Hxne & Hsx & Hcx & _ & _ & _ & [[_ ->]|[_ ->]])].
  - by rewrite spotAt_update_spot_ne.
  - by rewrite spotAt_update_spot_ne.
  - assert ((x.1, x.2) ≠ (r', c')) as Hnx
      by (intros [= H1 H2]; rewrite H1, H2 in Hsx;
          assert (sx = mkSpot None false None) as -> by congruence; done).
    by rewrite !spotAt_update_spot_ne.
Qed.

Lemma transformSpot_held m k p :
  transformSpot m (mkSpot (Some k) true (Some p))
  = mkSpot (Some (default k (m !! k))) true (Some p).
Proof. unfold transformSpot. simpl. by destruct (m !! k). Qed.

(** ** A completed pair waits for its owner's next flip *)

(** C2: a player who holds a completed pair of equal cards keeps both
    cells face up and under control through every step that is not a
    pass of that player's own [flipCard] (calls arriving, other players'
    flips, renders, watches and maps, which may revalue both cards alike);
    the player's next pass of [flipCard] removes both in its cleanup, the
    outcome of the new flip is decided on the board so cleaned, and the
    cells are still removed when the pass ends.  On the A, A, B, B board,
    after p1 turns (0,0) and (0,1) both read "my A", and p1's flip of
    (1,0) leaves "none", "none", "my B". *)
Theorem C2_matched_pair raw b0 s p x y :
  parseFromFile raw = inr b0 → reachable b0 s →
  holds_pair (grid (board s)) p x y →
  (∀ c, holds_pair (grid (board (call c s))) p x y)
  ∧ (∀ id s', turn id s = Some s' →
       (∀ row col, tasks s !! id ≠ Some (HoldsLock (DoFlip p row col))) →
       holds_pair (grid (board s')) p x y)
  ∧ (∀ id row col s',
       tasks s !! id = Some (HoldsLock (DoFlip p row col)) → turn id s = Some s' →
       let b1 := afterCleanup p (board s) in
       spotAt (grid b1) x.1 x.2 = Some (mkSpot None false None)
       ∧ spotAt (grid b1) y.1 y.2 = Some (mkSpot None false None)
       ∧ (flipSection id p row col (board s)).2
         = match verdict p row col b1 with
           | Reject msg => Threw msg
           | Wait _ _ => Suspended
           | Take _ _ _ _ => Returned
           end
       ∧ spotAt (grid (board s')) x.1 x.2 = Some (mkSpot None false None)
       ∧ spotAt (grid (board s')) y.1 y.2 = Some (mkSpot None false None))
  ∧ cell_lines (board ab_pair) "p1" = ["my A"; "my A"; "down"; "down"]
  ∧ cell_lines (board ab_next) "p1" = ["none"; "none"; "my B"; "down"].
Proof.
  intros Hparse Hreach Hpair.
  destruct (reachable_ok raw b0 s Hparse Hreach) as (Hrep & Hturns & _).
  split; [|split; [|split; [|split; vm_compute; reflexivity]]].
  - intros c. eapply holds_pair_same_grid; [apply call_same_grid|done].
  - intros id s' Hturn Hnot.
    destruct (turn_grid_cases id s s' Hturn)
      as [Hsame|[(q & row & col & Hst & ->)|(q & m & Hst & Hsame)]].
    + by eapply holds_pair_same_grid.
    + assert (q ≠ p) as Hq by (intros ->; by apply (Hnot row col)).
      destruct Hpair as (Hne & k & Hx & Hy). split; [done|]. exists k.
      split; by apply (flipSection_other_player _ _ _ _ _ _ _ _ p).
    + eapply holds_pair_same_grid; [exact Hsame|].
      destruct Hpair as (Hne & k & Hx & Hy). split; [done|].
      exists (default k (m !! k)). destruct Hrep as [Hshape _].
      rewrite !applyTransforms_spot, Hx, Hy by done. simpl.
      by rewrite transformSpot_held.
  - intros id row col s' Hst Hturn b1.
    apply holds_pair_controls in Hpair as (Hx & Hy & Hne).
    destruct (cleanup_removes_pair (board s) p x y Hrep Hturns Hne Hx Hy)
      as (Hrx & Hry & _).
    pose proof (afterCleanup_frame p (board s)) as ((Hr1 & Hc1 & Hg1) & _).
    fold b1 in Hr1, Hc1, Hg1. rewrite <- Hg1 in Hrx, Hry.
    assert (rep_ok b1) as Hrep1
      by (eapply same_grid_rep_ok; [split; [exact Hr1|split; [exact Hc1|exact Hg1]]|
          by apply cleanup_rep_ok]).
    assert (board s' = (flipSection id p row col (board s)).1.1) as ->.
    { unfold turn in Hturn. rewrite Hst in Hturn. injection Hturn as <-. simpl.
      by destruct (flipSection id p row col (board s)) as [[b w] res]. }
    pose proof (flipSection_cases id p row col (board s)) as H. simpl in H. fold b1 in H.
    pose proof (flipSection_no_assertion id p row col (board s)) as Hret. fold b1 in Hret.
    split; [done|]. split; [done|].
    destruct (verdict p row col b1) as [msg|r c|r c target sec] eqn:Hv.
    + destruct H as (Hres & (_ & _ & Hg) & _). rewrite Hg. done.
    + destruct H as (Hres & (_ & _ & Hg) & _). rewrite Hg. done.
    + destruct H as ((_ & _ & Hg) & _). rewrite Hg.
      split; [by eapply Hret|].
      split; by eapply turnCard_removed_stays.
Qed.

Lemma C2_matched_pair_witness :
  spotAt (grid (afterCleanup "p1" (board (call (flipCard "p1" 1 0) ab_pair)))) 0 0
  = Some (mkSpot None false None)
  ∧ cell_lines (board ab_next) "p1" = ["none"; "none"; "my B"; "down"].
Proof.
  assert (parseFromFile ab_file = inr ab_board) as Hparse by (vm_compute; reflexivity).
  assert (reachable ab_board (call (flipCard "p1" 1 0) ab_pair)) as Hreach
    by (apply (exec_reachable ab_board
                 [Arrives (flipCard "p1" 0 0); Turn 0; Arrives (flipCard "p1" 0 1); Turn 1;
                  Arrives (flipCard "p1" 1 0)])).
  assert (holds_pair (grid (board (call (flipCard "p1" 1 0) ab_pair))) "p1" (0, 0) (0, 1))
    as Hpair by (split; [done|]; exists "A"; split; vm_compute; reflexivity).
  destruct (C2_matched_pair ab_file ab_board _ "p1" (0, 0) (0, 1) Hparse Hreach Hpair)
    as (_ & _ & Hnext & _ & Hlines).
  split; [|exact Hlines].
  refine (proj1 (Hnext 2 1%Z 0%Z ab_next _ _)); vm_compute; reflexivity.
Defined.

(** A second card that matches the first completes a pair. *)
Lemma matching_second_card me p row col b0 r c target x :
  rep_ok b0 →
  verdict p row col (afterCleanup p b0) = Take r c target true →
  controls (grid (afterCleanup p b0)) p x →
  cardAt (grid (afterCleanup p b0)) x = Some target →
  (flipSection me p row col b0).2 = Returned
  ∧ holds_pair (grid (flipSection me p row col b0).1.1) p x (r, c).
Proof.
  intros Hrep Hv Hx Hkx.
  pose proof (afterCleanup_frame p b0) as (Hsame & _).
  assert (rep_ok (afterCleanup p b0)) as Hrep2
    by (eapply same_grid_rep_ok; [exact Hsame|by apply cleanup_rep_ok]).
  split; [by eapply flipSection_no_assertion|].
  pose proof (flipSection_cases me p row col b0) as H. simpl in H.
  rewrite Hv in H. destruct H as ((_ & _ & ->) & _).
  destruct (take_cases _ _ _ _ _ _ _ _ Hrep2 Hv)
    as (_ & _ & _ & _ & _ & _ & spot & Hspot & Hcard & Hfree & Hcases).
  destruct Hcases as [(? & _)|(x0 & sx & kx & _ & Hxne & Hsx & Hcx & Hfx & Hkx0 & Huniq & Hg)];
    [done|].
  assert (x = x0) as -> by (by apply Huniq).
  assert (kx = target) as ->.
  { unfold cardAt in Hkx. rewrite Hsx in Hkx. simpl in Hkx. congruence. }
  destruct Hg as [[_ ->]|[? _]]; [|done].
  split; [done|]. exists target. simpl. split.
  - rewrite spotAt_update_spot_ne by (destruct x0; naive_solver).
    rewrite Hsx. f_equal. destruct sx. simpl in *. congruence.
  - rewrite spotAt_update_spot_eq, Hspot. simpl. unfold takenBy. by rewrite Hcard.
Qed.

(** ** Cleanup with nothing to do, and cleanup of an open turn *)

Lemma flipDownAt_flag ps b w : (fold_left flipDownAt ps (b, w, true)).2 = true.
Proof.
  revert b w. induction ps as [|p ps IH]; intros b w; simpl; [done|].
  destruct (spotAt (grid b) p.1 p.2) as [s|]; [|apply IH].
  destruct (_ && _ && _); [|apply IH].
  destruct (notifyCardWaiters _ _ _) as [b1 w1]. apply IH.
Qed.

Lemma flipDownAt_nothing ps b w :
  (fold_left flipDownAt ps (b, w, false)).2 = false →
  fold_left flipDownAt ps (b, w, false) = (b, w, false).
Proof.
  revert b w. induction ps as [|p ps IH]; intros b w; simpl; [done|].
  destruct (spotAt (grid b) p.1 p.2) as [s|]; [|apply IH].
  destruct (_ && _ && _); [|apply IH].
  destruct (notifyCardWaiters _ _ _) as [b1 w1]. by rewrite flipDownAt_flag.
Qed.

(** When [cleanupCompletedTurns] returns [false] it has changed nothing
    and called nobody. *)
Lemma cleanup_nothing player b :
  (cleanupCompletedTurns player b).2 = false →
  cleanupCompletedTurns player b = (b, [], false).
Proof.
  unfold cleanupCompletedTurns.
  destruct (removeMatched_cases player b)
    as [->|(r1 & c1 & r2 & c2 & k & _ & _ & _ & ->)].
  - apply flipDownAt_nothing.
  - by rewrite flipDownAt_flag.
Qed.

Lemma turnDown_controlledBy player s :
  controlledBy player (turnDown s) = controlledBy player s.
Proof.
  unfold turnDown.
  destruct (bool_decide (card s ≠ None) && faceUp s
            && bool_decide (controller s = None)) eqn:H; [|done].
  apply andb_true_iff in H as [_ H]. apply bool_decide_eq_true in H.
  unfold controlledBy. simpl. rewrite H. done.
Qed.

(** Turning uncontrolled cards down does not change what a player
    controls. *)
Lemma cleanup_controlsAt player b pos :
  controlsAt player (grid (cleanupCompletedTurns player b).1.1) pos
  = controlsAt player (grid (removeMatched player b).1.1) pos.
Proof.
  unfold controlsAt. rewrite cleanup_grid, spotAt_fold_update by apply NoDup_positions.
  destruct (decide _); [|done].
  destruct (spotAt _ _ _) as [s|]; [|done]. simpl. apply turnDown_controlledBy.
Qed.

Lemma removeMatched_open_turn player b :
  rep_ok b → controlledCount player b < 2 → removeMatched player b = (b, [], false).
Proof.
  intros Hrep Hlt. unfold removeMatched.
  destruct (playerCards player b) as [|[[r1 c1] k1] [|[[r2 c2] k2] [|? ?]]] eqn:Hpc; try done.
  exfalso.
  assert ((r1, c1, k1) ∈ playerCards player b) as H1
    by (rewrite Hpc; apply list_elem_of_here).
  assert ((r2, c2, k2) ∈ playerCards player b) as H2
    by (rewrite Hpc; apply list_elem_of_further, list_elem_of_here).
  pose proof (NoDup_playerCards player b) as Hnd. rewrite Hpc in Hnd.
  apply NoDup_cons in Hnd as [Hnd _]. rewrite list_elem_of_singleton in Hnd.
  apply playerCards_controls in H1 as [H1 Hk1], H2 as [H2 Hk2]; try done.
  assert ((r1, c1) ≠ (r2, c2)) as Hne by (intros [= -> ->]; congruence).
  pose proof (controlledCount_pair b player _ _ Hrep Hne H1 H2). lia.
Qed.

(** With fewer than two cards under control, cleanup leaves the player's
    cards alone and the count as it was. *)
Lemma cleanup_open_turn player b :
  rep_ok b → controlledCount player b < 2 →
  controlledCount player (afterCleanup player b) = controlledCount player b
  ∧ ∀ r c s q, spotAt (grid b) r c = Some s → controller s = Some q →
               spotAt (grid (afterCleanup player b)) r c = Some s.
Proof.
  intros Hrep Hlt.
  pose proof (afterCleanup_frame player b) as ((Hr & Hc & Hg) & _).
  pose proof (cleanup_frame player b) as (Hr1 & Hc1 & _). simpl in Hr1, Hc1.
  pose proof (removeMatched_open_turn player b Hrep Hlt) as Hrm.
  split.
  - unfold controlledCount. rewrite Hr, Hc, Hg, Hr1, Hc1. f_equal.
    apply List.filter_ext. intros pos. rewrite cleanup_controlsAt. by rewrite Hrm.
  - intros r c s q Hs Hq. rewrite Hg, cleanup_grid, Hrm. simpl.
    rewrite spotAt_fold_update by apply NoDup_positions.
    assert (turnDown s = s) as Hsame.
    { unfold turnDown. rewrite Hq.
      rewrite (bool_decide_eq_false_2 (Some q = None)) by done.
      by rewrite andb_false_r. }
    destruct (decide _); rewrite Hs; simpl; congruence.
Qed.

Lemma verdict_in_bounds player b r c :
  r < rows b → c < cols b →
  verdict player (Z.of_nat r) (Z.of_nat c) b
  = match spotAt (grid b) r c with
    | None => Reject "cannot flip: no card at position"
    | Some spot =>
        match card spot with
        | None => Reject "cannot flip: no card at position"
        | Some target =>
            let count := controlledCount player b in
            if 2 <=? count
            then Reject "cannot flip: you already control 2 cards"
            else
              let isSecondCard := count =? 1 in
              if controlledBy player spot
              then Reject "cannot flip: card already controlled by you"
              else if isSecondCard && bool_decide (controller spot ≠ None)
              then Reject "cannot flip: card is controlled by another player"
              else if negb isSecondCard && bool_decide (controller spot ≠ None)
                      && bool_decide (controller spot ≠ Some player)
              then Wait r c
              else Take r c target isSecondCard
        end
    end.
Proof.
  intros Hr Hc. unfold verdict.
  assert (((Z.of_nat r <? 0) || (Z.of_nat r >=? Z.of_nat (rows b))
           || (Z.of_nat c <? 0) || (Z.of_nat c >=? Z.of_nat (cols b)))%Z = false) as ->.
  { repeat (apply orb_false_iff; split); lia. }
  by rewrite !Nat2Z.id.
Qed.

Lemma cleanup_spot_exists player b r c s :
  rep_ok b → spotAt (grid b) r c = Some s →
  ∃ s', spotAt (grid (afterCleanup player b)) r c = Some s' ∧ cleaned player s s'.
Proof.
  intros Hrep Hs.
  pose proof (afterCleanup_frame player b) as ((Hr & Hc & Hg) & _).
  pose proof (cleanup_frame player b) as (Hr1 & Hc1 & _). simpl in Hr1, Hc1.
  pose proof (cleanup_rep_ok player b Hrep) as [Hshape1 _].
  destruct Hrep as [Hshape _].
  assert (is_Some (spotAt (grid b) r c)) as Hin by eauto.
  apply (spotAt_in_shape b r c Hshape) in Hin. rewrite <- Hr1, <- Hc1 in Hin.
  apply (spotAt_in_shape _ r c Hshape1) in Hin as [s' Hs'].
  exists s'. rewrite Hg. split; [done|].
  apply cleanup_spot in Hs' as (s0 & Hs0 & Hcl). congruence.
Qed.

(** ** A pair that does not match *)




(** ** A flip that fails *)

Lemma verdict_Reject_msg player row col b msg :
  verdict player row col b = Reject msg → msg ∈ validation_errors.
Proof.
  unfold verdict, validation_errors.
  destruct (_ || _ || _ || _)%Z; [intros [= <-]; set_solver|].
  destruct (spotAt _ _ _) as [spot|]; [|intros [= <-]; set_solver].
  destruct (card spot); [|intros [= <-]; set_solver].
  destruct (2 <=? _); [intros [= <-]; set_solver|].
  destruct (controlledBy player spot); [intros [= <-]; set_solver|].
  destruct (_ && _) in |- *; [intros [= <-]; set_solver|].
  destruct (_ && _) in |- *; done.
Qed.

(** C5, as the code has it: a [flipCard] that fails has changed nothing by
    the flip itself; the board it leaves is the board left by its own
    cleanup pass, which runs before the checks (and may have removed the
    caller's matched pair, turned loose cards face down and called their
    waiters).  When the cleanup has nothing to do, grid and registries
    are as before the call.  From a valid state the only faults are the
    five validation errors. *)
Theorem C5_failed_flip_leaves_cleanup me p row col b0 msg :
  rep_ok b0 → (flipSection me p row col b0).2 = Threw msg →
  let b' := (flipSection me p row col b0).1.1 in
  msg ∈ validation_errors
  ∧ verdict p row col (afterCleanup p b0) = Reject msg
  ∧ same_grid (cleanupCompletedTurns p b0).1.1 b'
  ∧ cardWaiters b' = cardWaiters (cleanupCompletedTurns p b0).1.1
  ∧ ((cleanupCompletedTurns p b0).2 = false →
     grid b' = grid b0 ∧ cardWaiters b' = cardWaiters b0 ∧ watchers b' = watchers b0).
Proof.
  intros Hrep Hthrew.
  pose proof (flipSection_cases me p row col b0) as H. simpl in H.
  pose proof (flipSection_no_assertion me p row col b0) as Hret.
  pose proof (afterCleanup_frame p b0) as (Hsame & Hcw & _).
  destruct (verdict p row col (afterCleanup p b0)) as [msg'|r c|r c target sec] eqn:Hv.
  - destruct H as (Hres & Hs & Hcw' & Hw').
    assert (msg' = msg) as -> by congruence. simpl.
    split; [by eapply verdict_Reject_msg|]. split; [done|].
    split; [by eapply same_grid_trans|]. split; [congruence|].
    intros Hno. apply cleanup_nothing in Hno.
    assert (afterCleanup p b0 = b0) as Heq by (unfold afterCleanup; by rewrite Hno).
    rewrite Heq in Hs, Hcw', Hw'. by destruct Hs as (_ & _ & ?).
  - destruct H as (Hres & _). congruence.
  - rewrite (Hret r c target sec) in Hthrew; done.
Qed.

Lemma C5_failed_flip_leaves_cleanup_witness :
  grid (flipSection 2 "p1" 5 5 (board (call (flipCard "p1" 5 5) ab_pair))).1.1
  = grid (cleanupCompletedTurns "p1" (board (call (flipCard "p1" 5 5) ab_pair))).1.1.
Proof.
  refine (proj2 (proj2 (proj1 (proj2 (proj2
    (C5_failed_flip_leaves_cleanup 2 "p1" 5%Z 5%Z _ "invalid coordinates" _ _)))))).
  - apply checkRep_None. vm_compute. reflexivity.
  - vm_compute. reflexivity.
Defined.

(** C5 as stated fails: p1 holds the matched pair (0,0), (0,1) and calls
    [flipCard] with coordinates off the board; the call is rejected, and
    the pair has been removed. *)
Lemma C5_counterexample :
  spotAt (grid (board ab_pair)) 0 0 = Some (mkSpot (Some "A") true (Some "p1"))
  ∧ tasks (exec ab_pair [Arrives (flipCard "p1" 5 5); Turn 2]) !! 2
    = Some (Rejected "invalid coordinates")
  ∧ spotAt (grid (board (exec ab_pair [Arrives (flipCard "p1" 5 5); Turn 2]))) 0 0
    = Some (mkSpot None false None).
Proof. repeat split; vm_compute; reflexivity. Qed.

(** ** Flipping one's own card *)

Lemma controlledCount_ge_2 b player :
  rep_ok b → 2 ≤ controlledCount player b →
  ∃ x y, x ≠ y ∧ controls (grid b) player x ∧ controls (grid b) player y.
Proof.
  intros Hrep Hge. unfold controlledCount in Hge.
  pose proof (NoDup_counted player b) as Hnd.
  destruct (List.filter _ _) as [|x [|y l]] eqn:Hl; simpl in Hge; try lia.
  exists x, y. apply NoDup_cons in Hnd as [Hnd _].
  split; [intros ->; apply Hnd, list_elem_of_here|].
  split; apply (controls_counted b); try done; rewrite Hl.
  - apply list_elem_of_here.
  - apply list_elem_of_further, list_elem_of_here.
Qed.

(** C7, as the code has it: [flipCard] on a cell the caller controls
    always fails and never suspends.  The fault is "already controlled by
    you" when the cell is the caller's only card; when the cell belongs
    to a completed pair, the cleanup removes the pair first and the fault
    is "no card at position". *)
Theorem C7_own_card me p b0 r c s :
  rep_ok b0 → turns_ok (grid b0) →
  spotAt (grid b0) r c = Some s → controller s = Some p → faceUp s = true →
  (flipSection me p (Z.of_nat r) (Z.of_nat c) b0).2
  = Threw (if controlledCount p b0 =? 1
           then "cannot flip: card already controlled by you"
           else "cannot flip: no card at position").
Proof.
  intros Hrep Hturns Hs Hc Hf.
  pose proof (afterCleanup_frame p b0) as ((Hr2 & Hc2 & Hg2) & _).
  pose proof (cleanup_frame p b0) as (Hr1 & Hc1 & _). simpl in Hr1, Hc1.
  assert (r < rows (afterCleanup p b0) ∧ c < cols (afterCleanup p b0)) as [Hrr Hcc].
  { rewrite Hr2, Hc2, Hr1, Hc1. destruct Hrep as [Hshape _].
    apply (spotAt_in_shape b0 r c Hshape). eauto. }
  pose proof (flipSection_cases me p (Z.of_nat r) (Z.of_nat c) b0) as H. simpl in H.
  assert (controls (grid b0) p (r, c)) as Hctl by (by exists s).
  destruct (controlledCount p b0 =? 1) eqn:Hone.
  - apply Nat.eqb_eq in Hone.
    destruct (cleanup_open_turn p b0 Hrep) as [Hcount Hkeep]; [lia|].
    specialize (Hkeep r c s p Hs Hc).
    rewrite verdict_in_bounds in H by done. rewrite Hkeep in H.
    assert (∃ k, card s = Some k) as [k Hk].
    { destruct (controls_has_card b0 p (r, c) Hrep Hctl) as [k Hk].
      unfold cardAt in Hk. simpl in Hk. rewrite Hs in Hk. eauto. }
    rewrite Hk, Hcount, Hone in H. simpl in H.
    unfold controlledBy in H. rewrite Hf, bool_decide_eq_true_2 in H by done.
    simpl in H. by destruct H as (? & _).
  - apply Nat.eqb_neq in Hone.
    assert (2 ≤ controlledCount p b0) as Hge.
    { apply (controls_counted b0) in Hctl; [|done]. unfold controlledCount in *.
      destruct (List.filter _ _) as [|? [|? ?]]; simpl in *; try lia.
      by apply not_elem_of_nil in Hctl. }
    destruct (controlledCount_ge_2 b0 p Hrep Hge) as (x & y & Hne & Hx & Hy).
    destruct (cleanup_removes_pair b0 p x y Hrep Hturns Hne Hx Hy) as (Hrx & Hry & _).
    destruct (Hturns p x y Hx Hy Hne) as [_ Hthird].
    assert (spotAt (grid (afterCleanup p b0)) r c = Some (mkSpot None false None)) as Hgone.
    { rewrite Hg2. destruct (Hthird (r, c) Hctl) as [<-|<-]; done. }
    rewrite verdict_in_bounds in H by done. rewrite Hgone in H. simpl in H.
    by destruct H as (? & _).
Qed.

Lemma C7_own_card_witness :
  (flipSection 1 "p1" 0 0
     (board (call (flipCard "p1" 0 0)
               (exec (start ab_board) [Arrives (flipCard "p1" 0 0); Turn 0])))).2
  = Threw "cannot flip: card already controlled by you".
Proof.
  refine (C7_own_card 1 "p1" _ 0 0 (mkSpot (Some "A") true (Some "p1")) _ _ _ _ _).
  - apply checkRep_None. vm_compute. reflexivity.
  - apply (reachable_ok ab_file ab_board); [vm_compute; reflexivity|].
    apply (exec_reachable ab_board
             [Arrives (flipCard "p1" 0 0); Turn 0; Arrives (flipCard "p1" 0 0)]).
  - vm_compute. reflexivity.
  - reflexivity.
  - reflexivity.
Defined.

(** C7 as stated fails: p1 holds the matched pair (0,0), (0,1) and flips
    (0,0) again; the fault is "no card at position". *)
Lemma C7_counterexample :
  spotAt (grid (board ab_pair)) 0 0 = Some (mkSpot (Some "A") true (Some "p1"))
  ∧ tasks (exec ab_pair [Arrives (flipCard "p1" 0 0); Turn 2]) !! 2
    = Some (Rejected "cannot flip: no card at position").
Proof. split; vm_compute; reflexivity. Qed.

(** ** [mapCards]: one call of the transform per distinct value *)







(** ** [renderFor] *)

Lemma seq_bind_lookup {A B} (l : list A) (h : A → list B) (G : nat → list B) a :
  (∀ i x, l !! i = Some x → G (a + i) = h x) →
  seq a (length l) ≫= G = l ≫= h.
Proof.
  revert a. induction l as [|x l IH]; intros a H; cbn [length seq]; [done|].
  rewrite !bind_cons. f_equal.
  - rewrite <- (H 0 x eq_refl). f_equal. lia.
  - apply IH. intros i y Hy. rewrite <- (H (S i) y Hy). f_equal. lia.
Qed.

Lemma omap_as_bind {A B} (f : A → option B) (l : list A) :
  omap f l = l ≫= (λ x, option_list (f x)).
Proof.
  induction l as [|x l IH]; [done|].
  rewrite bind_cons, <- IH. simpl. by destruct (f x).
Qed.

Lemma bind_bind {A B C} (f : A → list B) (g : B → list C) (l : list A) :
  (l ≫= f) ≫= g = l ≫= (λ x, f x ≫= g).
Proof.
  induction l as [|x l IH]; [done|].
  rewrite !bind_cons, <- IH. apply bind_app.
Qed.

Lemma bind_fmap_concat {A B} (f : A → B) (g : list (list A)) :
  g ≫= (λ row, f <$> row) = f <$> concat g.
Proof.
  induction g as [|row g IH]; [done|].
  rewrite bind_cons. cbn [concat]. by rewrite fmap_app, IH.
Qed.

Lemma bind_unit_fmap {A B} (f : A → B) (l : list A) : l ≫= (λ x, [f x]) = f <$> l.
Proof. induction l as [|x l IH]; [done|]. by rewrite bind_cons, IH. Qed.

(** On a well-shaped grid the loop of [renderFor] visits every cell once,
    row by row. *)
Lemma cell_lines_concat b player :
  shape_ok b → cell_lines b player = (λ spot, viewOf spot player) <$> concat (grid b).
Proof.
  intros [Hlen Hrows]. unfold cell_lines, positions.
  rewrite omap_as_bind, bind_bind, <- Hlen.
  rewrite <- bind_fmap_concat. apply seq_bind_lookup. intros r row Hrow. simpl.
  rewrite bind_bind. rewrite Forall_lookup in Hrows.
  rewrite <- (Hrows r row Hrow).
  rewrite <- (bind_unit_fmap (λ spot, viewOf spot player) row).
  apply seq_bind_lookup. intros c spot Hspot. simpl.
  rewrite app_nil_r. unfold spotAt. rewrite Hrow. simpl. by rewrite Hspot.
Qed.

Lemma resolve_settled ts id id' :
  (∃ v, ts !! id = Some (Fulfilled v)) ∨ (∃ msg, ts !! id = Some (Rejected msg)) →
  resolve ts id' !! id = ts !! id.
Proof.
  intros H. unfold resolve. destruct (ts !! id') as [st|] eqn:Hst; [|done].
  destruct (decide (id' = id)) as [->|Hne].
  - destruct H as [[v H]|[msg H]]; rewrite H in Hst; by injection Hst as <-.
  - destruct st; try done; by rewrite lookup_insert_ne.
Qed.

Lemma fold_resolve_settled w ts id :
  (∃ v, ts !! id = Some (Fulfilled v)) ∨ (∃ msg, ts !! id = Some (Rejected msg)) →
  fold_left resolve w ts !! id = ts !! id.
Proof.
  revert ts. induction w as [|id' w IH]; intros ts H; simpl; [done|].
  rewrite IH; [by apply resolve_settled|]. by rewrite resolve_settled.
Qed.

Lemma render_text_same_grid b b' player :
  same_grid b b' → render_text b' player = render_text b player.
Proof.
  intros (Hr & Hc & Hg). unfold render_text, dimension_line, cell_lines.
  by rewrite Hr, Hc, Hg.
Qed.

(** The turn in which a call of [renderFor] owns the lock: its value is
    the text of the board as it is then. *)
Lemma render_turn s id p s' :
  tasks s !! id = Some (HoldsLock (DoRender p)) → turn id s = Some s' →
  tasks s' !! id = Some (Fulfilled (Some (render_text (board s) p)))
  ∧ same_grid (board s) (board s')
  ∧ watchers (board s') = watchers (board s)
  ∧ cardWaiters (board s') = cardWaiters (board s).
Proof.
  intros Hst. unfold turn. rewrite Hst. intros [= <-]. simpl. unfold renderSection.
  pose proof (releaseLock_frame (board s)) as H. simpl in H.
  destruct (releaseLock (board s)) as [b w]. simpl in *.
  destruct H as (? & ? & ? & ? & ?).
  split; [|done]. rewrite fold_resolve_settled; rewrite lookup_insert_eq; eauto.
Qed.

(** C9: [renderFor] computes its text in the turn in which it owns the
    lock, from the board as it is then: the dimension line, then one line
    per cell in row-major order, "none" for a cell without card, "down"
    for a card face down, "my CARD" for a card face up that the player
    controls and "up CARD" for any other card face up.  That turn changes
    neither the grid nor the registries, and a call that finds the lock
    free leaves the whole board as it found it. *)
Theorem C9_renderFor p :
  (∀ b, (renderSection p b).2
        = String.concat (String newline "") (dimension_line b :: cell_lines b p)
          +:+ String newline "")
  ∧ (∀ b, shape_ok b →
          cell_lines b p = (λ spot, viewOf spot p) <$> concat (grid b)
          ∧ length (cell_lines b p) = length (concat (grid b)))
  ∧ (∀ spot,
       (card spot = None → viewOf spot p = "none")
       ∧ (∀ k, card spot = Some k → faceUp spot = false → viewOf spot p = "down")
       ∧ (∀ k, card spot = Some k → faceUp spot = true →
               controller spot = Some p → viewOf spot p = "my " +:+ k)
       ∧ (∀ k, card spot = Some k → faceUp spot = true →
               controller spot ≠ Some p → viewOf spot p = "up " +:+ k))
  ∧ (∀ s id s',
       tasks s !! id = Some (HoldsLock (DoRender p)) → turn id s = Some s' →
       tasks s' !! id = Some (Fulfilled (Some (render_text (board s) p)))
       ∧ same_grid (board s) (board s')
       ∧ watchers (board s') = watchers (board s)
       ∧ cardWaiters (board s') = cardWaiters (board s))
  ∧ (∀ s, lockHeld (board s) = false → lockWaiters (board s) = [] →
          board (alone (renderFor p) s) = board s
          ∧ tasks (alone (renderFor p) s) !! nextId s
            = Some (Fulfilled (Some (render_text (board s) p)))).
Proof.
  split; [|split; [|split; [|split]]].
  - intros b. unfold renderSection. by destruct (releaseLock b).
  - intros b Hshape. rewrite cell_lines_concat by done. split; [done|].
    by rewrite length_fmap.
  - intros spot. unfold viewOf. repeat split.
    + by intros ->.
    + by intros k -> ->.
    + intros k -> -> ->. simpl. by rewrite bool_decide_eq_true_2.
    + intros k -> -> Hne. simpl. by rewrite bool_decide_eq_false_2.
  - intros s id s'. apply render_turn.
  - intros s Hfree Hnone. unfold alone, exec. cbn [fold_left exec1].
    assert (call (renderFor p) s
            = mkSystem (set_lockHeld true (board s))
                (<[nextId s := HoldsLock (DoRender p)]> (tasks s)) (S (nextId s))) as ->.
    { unfold call, enter, acquireLock. simpl. by rewrite Hfree. }
    set (s0 := mkSystem _ _ _).
    assert (turn (nextId s) s0
            = Some (mkSystem (board s)
                      (<[nextId s := Fulfilled (Some (render_text (board s) p))]> (tasks s0))
                      (S (nextId s)))) as ->.
    { unfold turn. subst s0. simpl. rewrite lookup_insert_eq. simpl.
      unfold renderSection, releaseLock. simpl. rewrite Hnone. unfold finish. simpl.
      assert (set_lockHeld false (set_lockHeld true (board s)) = board s) as ->
        by (destruct (board s); simpl in *; by subst).
      by rewrite (render_text_same_grid (board s) (set_lockHeld true (board s))). }
    simpl. set (s1 := mkSystem _ _ _).
    assert (turn (nextId s) s1 = None) as Hstop
      by (unfold turn; subst s1; simpl; by rewrite lookup_insert_eq).
    repeat (rewrite Hstop; simpl). split; [done|]. by rewrite lookup_insert_eq.
Qed.

Lemma C9_renderFor_witness :
  cell_lines (board ab_next) "p1" = ["none"; "none"; "my B"; "down"].
Proof.
  rewrite (proj1 (proj1 (proj2 (C9_renderFor "p1")) (board ab_next)
                    (proj1 (proj1 (checkRep_None (board ab_next)) eq_refl)))).
  vm_compute. reflexivity.
Defined.

(** ** Callbacks and the calls they wake *)

Lemma woken_idem st : woken (woken st) = woken st.
Proof. by destruct st. Qed.

Lemma resolve_lookup ts id id' :
  resolve ts id !! id' = if decide (id = id') then woken <$> ts !! id else ts !! id'.
Proof.
  unfold resolve. destruct (decide (id = id')) as [<-|Hne].
  - destruct (ts !! id) as [st|] eqn:Hst; [|by rewrite Hst].
    destruct st; simpl; by rewrite ?lookup_insert_eq, ?Hst.
  - destruct (ts !! id) as [st|]; [|done].
    destruct st; by rewrite ?lookup_insert_ne.
Qed.

Lemma fold_resolve_lookup w ts id :
  fold_left resolve w ts !! id
  = if decide (id ∈ w) then woken <$> ts !! id else ts !! id.
Proof.
  revert ts. induction w as [|id0 w IH]; intros ts; cbn [fold_left].
  - rewrite decide_False; [done|]. apply not_elem_of_nil.
  - rewrite IH, resolve_lookup.
    destruct (decide (id0 = id)) as [->|Hne].
    + rewrite (decide_True (P := id ∈ id :: w)) by apply list_elem_of_here.
      destruct (decide (id ∈ w)); [|done].
      destruct (ts !! id); simpl; [|done]. by rewrite woken_idem.
    + destruct (decide (id ∈ w)) as [Hin|Hnin].
      * rewrite decide_True; [done|]. by apply list_elem_of_further.
      * rewrite decide_False; [done|]. intros [?|?]%elem_of_cons; congruence.
Qed.

(** ** The card queues through the cleanup *)

Lemma cards_effect_refl m : cards_effect m m [].
Proof. split; [by left|]. by intros id ?%not_elem_of_nil. Qed.

Lemma cards_effect_trans m1 m2 m3 w1 w2 :
  cards_effect m1 m2 w1 → cards_effect m2 m3 w2 → cards_effect m1 m3 (w1 ++ w2).
Proof.
  intros [H1 L1] [H2 L2]. split.
  - intros pos. destruct (H1 pos) as [Hsame1|[Hnone1 Hall1]].
    + destruct (H2 pos) as [Hsame2|[Hnone2 Hall2]].
      * left. congruence.
      * right. split; [done|]. intros q id Hq Hid. apply elem_of_app. right.
        apply (Hall2 q); [congruence|done].
    + right. split.
      * destruct (H2 pos) as [Hsame2|[Hnone2 _]]; congruence.
      * intros q id Hq Hid. apply elem_of_app. left. by apply (Hall1 q).
  - intros id [Hin|Hin]%elem_of_app.
    + destruct (L1 id Hin) as (pos & q & Hq & Hid & Hnone).
      exists pos, q. repeat split; try done.
      destruct (H2 pos) as [Hsame2|[Hnone2 _]]; congruence.
    + destruct (L2 id Hin) as (pos & q & Hq & Hid & Hnone).
      exists pos, q. repeat split; try done.
      destruct (H1 pos) as [Hsame1|[Hnone1 _]]; congruence.
Qed.

Lemma notifyCardWaiters_effect r c b :
  cards_effect (cardWaiters b) (cardWaiters (notifyCardWaiters r c b).1)
               (notifyCardWaiters r c b).2.
Proof.
  unfold notifyCardWaiters.
  destruct (cardWaiters b !! (r, c)) as [waiters|] eqn:Hw; simpl;
    [|apply cards_effect_refl].
  split.
  - intros pos. rewrite lookup_delete.
    destruct (decide ((r, c) = pos)) as [<-|]; [|by left].
    right. split; [done|]. intros q id. rewrite Hw. by intros [= <-].
  - intros id Hid. exists (r, c), waiters. by rewrite lookup_delete_eq.
Qed.

Lemma removeMatched_effect player b :
  cards_effect (cardWaiters b) (cardWaiters (removeMatched player b).1.1)
               (removeMatched player b).1.2.
Proof.
  unfold removeMatched.
  destruct (playerCards player b) as [|[[r1 c1] k1] [|[[r2 c2] k2] [|? ?]]];
    try apply cards_effect_refl.
  destruct (String.eqb k1 k2); [|apply cards_effect_refl].
  destruct (spotAt (grid b) r1 c1); [|apply cards_effect_refl].
  destruct (spotAt (grid b) r2 c2); [|apply cards_effect_refl].
  set (b0 := set_grid _ b).
  pose proof (notifyCardWaiters_effect r1 c1 b0) as H1.
  destruct (notifyCardWaiters r1 c1 b0) as [b1 w1].
  pose proof (notifyCardWaiters_effect r2 c2 b1) as H2.
  destruct (notifyCardWaiters r2 c2 b1) as [b2 w2]. simpl in *.
  by eapply cards_effect_trans.
Qed.

Lemma fold_flipDownAt_effect ps m0 st :
  cards_effect m0 (cardWaiters st.1.1) st.1.2 →
  cards_effect m0 (cardWaiters (fold_left flipDownAt ps st).1.1)
               (fold_left flipDownAt ps st).1.2.
Proof.
  revert st. induction ps as [|pos ps IH]; intros [[b w] d] H; simpl in *; [done|].
  apply IH.
  destruct (spotAt (grid b) pos.1 pos.2) as [spot|]; [|done].
  destruct (_ && _ && _); [|done].
  set (b0 := set_grid _ b).
  pose proof (notifyCardWaiters_effect pos.1 pos.2 b0) as H1.
  destruct (notifyCardWaiters pos.1 pos.2 b0) as [b1 w1]. simpl in *.
  by eapply cards_effect_trans.
Qed.

Lemma cleanup_effect player b :
  cards_effect (cardWaiters b) (cardWaiters (cleanupCompletedTurns player b).1.1)
               (cleanupCompletedTurns player b).1.2.
Proof. apply fold_flipDownAt_effect, removeMatched_effect. Qed.

(** ** What each locked part does to the registries *)

Lemma releaseLock_cases b :
  ((∃ next, lockWaiters b = next :: lockWaiters (releaseLock b).1
            ∧ lockHeld (releaseLock b).1 = lockHeld b ∧ (releaseLock b).2 = [next])
   ∨ (lockWaiters b = [] ∧ lockWaiters (releaseLock b).1 = []
      ∧ lockHeld (releaseLock b).1 = false ∧ (releaseLock b).2 = []))
  ∧ watchers (releaseLock b).1 = watchers b
  ∧ cardWaiters (releaseLock b).1 = cardWaiters b.
Proof.
  unfold releaseLock. destruct (lockWaiters b) as [|next rest] eqn:Hl; simpl.
  - split; [right; by rewrite ?Hl|done].
  - split; [left; exists next; by rewrite ?Hl|done].
Qed.

(** Assembling the effect of a locked part from its effect up to the
    release of the lock. *)
Lemma build_effect b b1 w1 me reg :
  lockWaiters b1 = lockWaiters b → lockHeld b1 = lockHeld b →
  (watchers b1 = watchers b ++ (if reg is OnChange then [me] else [])
   ∨ (watchers b1 = [] ∧ reg ≠ OnChange ∧ ∀ id, id ∈ watchers b → id ∈ w1)) →
  (∀ pos,
      cardWaiters b1 !! pos = cardWaiters b !! pos
      ∨ (cardWaiters b1 !! pos = None
         ∧ ∀ q id, cardWaiters b !! pos = Some q → id ∈ q → id ∈ w1)
      ∨ (reg = OnCard pos
         ∧ ∃ q', cardWaiters b1 !! pos = Some (q' ++ [me])
                 ∧ (cardWaiters b !! pos = Some q'
                    ∨ (q' = [] ∧ ∀ q id, cardWaiters b !! pos = Some q → id ∈ q → id ∈ w1)))) →
  (∀ id, id ∈ w1 →
      (id ∈ watchers b ∧ watchers b1 = [])
      ∨ (∃ pos q, cardWaiters b !! pos = Some q ∧ id ∈ q
                  ∧ (cardWaiters b1 !! pos = None ∨ cardWaiters b1 !! pos = Some [me]))) →
  section_effect b (releaseLock b1).1 (w1 ++ (releaseLock b1).2) me reg.
Proof.
  intros Hlw Hlh Hwatch Hcards Hlog.
  destruct (releaseLock_cases b1) as (Hrel & Hw' & Hc'). split.
  - destruct Hrel as [(next & Hl & Hh & Hw)|(Hl & Hl' & Hh & Hw)].
    + left. exists next. rewrite <- Hlw, Hh, Hw. repeat split; try done.
      apply elem_of_app. right. apply list_elem_of_here.
    + right. by rewrite <- Hlw.
  - rewrite Hw'. destruct Hwatch as [?|(? & ? & Hall)]; [by left|right].
    repeat split; try done. intros id Hid. apply elem_of_app. left. by apply Hall.
  - intros pos. rewrite Hc'.
    destruct (Hcards pos) as [?|[[? Hall]|(? & q' & ? & Hq')]]; [by left| |].
    + right. left. split; [done|]. intros q id Hq Hid. apply elem_of_app. left.
      by apply (Hall q).
    + right. right. split; [done|]. exists q'. split; [done|].
      destruct Hq' as [?|[? Hall]]; [by left|right]. split; [done|].
      intros q id Hq Hid. apply elem_of_app. left. by apply (Hall q).
  - intros id [Hin|Hin]%elem_of_app.
    + rewrite Hw', Hc'. right. by apply Hlog.
    + left. destruct Hrel as [(next & Hl & Hh & Hw)|(Hl & Hl' & Hh & Hw)];
        rewrite Hw in Hin; [|by apply not_elem_of_nil in Hin].
      apply list_elem_of_singleton in Hin as ->. rewrite <- Hlw. eauto.
Qed.

Lemma renderSection_effect p b me :
  section_effect b (renderSection p b).1.1 (renderSection p b).1.2 me NoRegistration.
Proof.
  unfold renderSection.
  pose proof (build_effect b b [] me NoRegistration) as H. simpl in H.
  destruct (releaseLock b) as [b' w]. simpl in *.
  apply H; try done.
  - left. by rewrite app_nil_r.
  - intros pos. by left.
  - by intros id ?%not_elem_of_nil.
Qed.

Lemma snapshotSection_effect b me :
  section_effect b (snapshotSection b).1.1 (snapshotSection b).1.2 me NoRegistration.
Proof.
  unfold snapshotSection.
  pose proof (build_effect b b [] me NoRegistration) as H. simpl in H.
  destruct (releaseLock b) as [b' w]. simpl in *.
  apply H; try done.
  - left. by rewrite app_nil_r.
  - intros pos. by left.
  - by intros id ?%not_elem_of_nil.
Qed.

Lemma watchSection_effect b me :
  section_effect b (watchSection me b).1 (watchSection me b).2 me OnChange.
Proof.
  unfold watchSection.
  pose proof (build_effect b (set_watchers (watchers b ++ [me]) b) [] me OnChange) as H.
  simpl in H. apply H; try done.
  - by left.
  - intros pos. by left.
  - by intros id ?%not_elem_of_nil.
Qed.

Lemma applySection_effect m b me :
  section_effect b (applySection m b).1.1 (applySection m b).1.2 me NoRegistration.
Proof.
  unfold applySection.
  pose proof (applyTransforms_frame m (positions (rows b) (cols b)) b) as H0.
  simpl in H0. fold (applyTransforms m b) in H0.
  destruct H0 as (_ & _ & _ & Hw & Hcw & Hlw & Hlh).
  destruct (checkRep (applyTransforms m b)).
  - pose proof (build_effect b (applyTransforms m b) [] me NoRegistration) as H.
    simpl in H. destruct (releaseLock (applyTransforms m b)) as [b' w]. simpl in *.
    apply H; try done.
    + left. by rewrite app_nil_r.
    + intros pos. left. by rewrite Hcw.
    + by intros id ?%not_elem_of_nil.
  - unfold notifyWatchers.
    pose proof (build_effect b (set_watchers [] (applyTransforms m b))
                  (watchers (applyTransforms m b)) me NoRegistration) as H.
    simpl in H. destruct (releaseLock (set_watchers [] (applyTransforms m b))) as [b' w].
    simpl in *. apply H; try done.
    + right. repeat split; try done. by rewrite Hw.
    + intros pos. left. by rewrite Hcw.
    + intros id Hid. left. by rewrite <- Hw.
Qed.

Lemma flipSection_unfold me p row col b0 :
  flipSection me p row col b0
  = let b2 := afterCleanup p b0 in
    let w := cleanupLog p b0 in
    match verdict p row col b2 with
    | Reject msg => throwError msg b2 w
    | Wait r c =>
        ((releaseLock (waitForCard me r c b2)).1,
         w ++ (releaseLock (waitForCard me r c b2)).2, Suspended)
    | Take r c target sec =>
        let b3 := turnCard p r c target sec b2 in
        match checkRep b3 with
        | Some msg => throwError msg b3 w
        | None =>
            ((releaseLock (set_watchers [] b3)).1,
             w ++ watchers b3 ++ (releaseLock (set_watchers [] b3)).2, Returned)
        end
    end.
Proof.
  unfold flipSection, afterCleanup, cleanupLog.
  destruct (cleanupCompletedTurns p b0) as [[b1 w1] d].
  assert ((if d then notifyWatchers b1 else (b1, []))
          = (if d then (notifyWatchers b1).1 else b1, if d then watchers b1 else []))
    as -> by (by destruct d).
  simpl. destruct (verdict _ _ _ _) as [msg|r c|r c target sec]; [done| |].
  - by destruct (releaseLock _).
  - destruct (checkRep _); [done|]. unfold notifyWatchers. by destruct (releaseLock _).
Qed.

Lemma afterCleanup_effect p b0 :
  ∃ wc ww,
    cleanupLog p b0 = wc ++ ww
    ∧ cards_effect (cardWaiters b0) (cardWaiters (afterCleanup p b0)) wc
    ∧ ((ww = [] ∧ watchers (afterCleanup p b0) = watchers b0)
       ∨ (ww = watchers b0 ∧ watchers (afterCleanup p b0) = [])).
Proof.
  unfold cleanupLog, afterCleanup.
  pose proof (cleanup_effect p b0) as He.
  pose proof (cleanup_frame p b0) as (_ & _ & _ & _ & Hw & _). simpl in Hw.
  destruct (cleanupCompletedTurns p b0) as [[b1 w1] d]. simpl in *.
  exists w1, (if d then watchers b1 else []). split; [done|].
  destruct d; simpl; [|by split; [|left]].
  split; [done|]. right. by rewrite Hw.
Qed.

Lemma turnCard_registries p r c target sec b :
  watchers (turnCard p r c target sec b) = watchers b
  ∧ cardWaiters (turnCard p r c target sec b) = cardWaiters b
  ∧ lockWaiters (turnCard p r c target sec b) = lockWaiters b
  ∧ lockHeld (turnCard p r c target sec b) = lockHeld b.
Proof.
  unfold turnCard. destruct sec; [|done]. unfold relinquishIfMismatch.
  destruct (firstCard _ _ _ _) as [[[? ?] ?]|]; [|done]. by destruct (negb _).
Qed.

Lemma flipSection_effect me p row col b0 :
  section_effect b0 (flipSection me p row col b0).1.1 (flipSection me p row col b0).1.2 me
    match verdict p row col (afterCleanup p b0) with
    | Wait r c => OnCard (r, c)
    | _ => NoRegistration
    end.
Proof.
  rewrite flipSection_unfold. simpl.
  destruct (afterCleanup_effect p b0) as (wc & ww & Hlog & [Hc Lc] & Hww).
  pose proof (afterCleanup_frame p b0) as (_ & _ & Hlw & Hlh).
  set (b2 := afterCleanup p b0) in *. set (w := cleanupLog p b0) in *.
  assert (∀ id, id ∈ w →
            (id ∈ watchers b0 ∧ watchers b2 = [])
            ∨ (∃ pos q, cardWaiters b0 !! pos = Some q ∧ id ∈ q
                        ∧ cardWaiters b2 !! pos = None)) as Hlog2.
  { intros id. rewrite Hlog. intros [Hin|Hin]%elem_of_app.
    - right. by apply Lc.
    - left. destruct Hww as [[-> _]|[-> ?]]; [by apply not_elem_of_nil in Hin|done]. }
  assert (∀ q id pos, cardWaiters b0 !! pos = Some q → id ∈ q →
             cardWaiters b2 !! pos = None → id ∈ w) as Hcalled.
  { intros q id pos Hq Hid Hnone. rewrite Hlog. apply elem_of_app. left.
    destruct (Hc pos) as [Hsame|[_ Hall]]; [congruence|]. by apply (Hall q). }
  assert (watchers b2 = watchers b0 ++ []
          ∨ (watchers b2 = [] ∧ NoRegistration ≠ OnChange
             ∧ ∀ id, id ∈ watchers b0 → id ∈ w)) as Hwatch.
  { destruct Hww as [[_ ->]|[Hw ->]]; [left; by rewrite app_nil_r|right].
    repeat split; try done. intros id Hid. rewrite Hlog, Hw.
    apply elem_of_app. by right. }
  assert (∀ pos, cardWaiters b2 !! pos = cardWaiters b0 !! pos
                 ∨ (cardWaiters b2 !! pos = None
                    ∧ ∀ q id, cardWaiters b0 !! pos = Some q → id ∈ q → id ∈ w)) as Hcards.
  { intros pos. destruct (Hc pos) as [?|[Hnone _]]; [by left|right].
    split; [done|]. intros q id Hq Hid. by apply (Hcalled q id pos). }
  destruct (verdict p row col b2) as [msg|r c|r c target sec] eqn:Hv.
  - unfold throwError.
    pose proof (build_effect b0 b2 w me NoRegistration Hlw Hlh Hwatch) as H.
    destruct (releaseLock b2) as [b' w']. simpl in *. apply H.
    + intros pos. destruct (Hcards pos) as [?|?]; auto.
    + intros id Hid. destruct (Hlog2 id Hid) as [?|(pos & q & ? & ? & ?)]; [by left|].
      right. exists pos, q. auto.
  - apply (build_effect b0 (waitForCard me r c b2) w me (OnCard (r, c))); try done.
    + simpl. destruct Hwatch as [?|(? & _ & ?)]; [by left|by right].
    + intros pos. unfold waitForCard. simpl. rewrite lookup_insert.
      destruct (decide ((r, c) = pos)) as [<-|Hne].
      * right. right. split; [done|].
        exists (default [] (cardWaiters b2 !! (r, c))). split; [done|].
        destruct (Hcards (r, c)) as [Hsame|[Hnone Hall]].
        -- rewrite Hsame. destruct (cardWaiters b0 !! (r, c)) as [q0|] eqn:Hq0;
             [by left|right]. simpl. split; [done|]. by intros q id.
        -- right. rewrite Hnone. done.
      * destruct (Hcards pos) as [?|?]; auto.
    + intros id Hid. destruct (Hlog2 id Hid) as [?|(pos & q & Hq & Hin & Hnone)];
        [by left|].
      right. exists pos, q. repeat split; try done.
      unfold waitForCard. simpl. rewrite lookup_insert.
      destruct (decide ((r, c) = pos)) as [<-|Hne]; [|by left].
      right. by rewrite Hnone.
  - destruct (turnCard_registries p r c target sec b2) as (Hw3 & Hc3 & Hl3 & Hh3).
    set (b3 := turnCard p r c target sec b2) in *.
    destruct (checkRep b3) as [msg|].
    + unfold throwError.
      pose proof (build_effect b0 b3 w me NoRegistration) as H.
      destruct (releaseLock b3) as [b' w']. simpl in *. apply H; try congruence.
      * intros pos. rewrite Hc3. destruct (Hcards pos) as [?|?]; auto.
      * intros id Hid. rewrite Hc3, Hw3.
        destruct (Hlog2 id Hid) as [?|(pos & q & ? & ? & ?)]; [by left|].
        right. exists pos, q. auto.
    + simpl. rewrite app_assoc.
      apply (build_effect b0 (set_watchers [] b3) (w ++ watchers b3) me NoRegistration);
        simpl; try congruence.
      * right. repeat split; try done. intros id Hid. apply elem_of_app.
        destruct Hwatch as [Hsame|(_ & _ & Hall)]; [right|left; by apply Hall].
        rewrite Hw3, Hsame, app_nil_r. done.
      * intros pos. rewrite Hc3. destruct (Hcards pos) as [?|[? Hall]]; [by left|].
        right. left. split; [done|]. intros q id Hq Hid. apply elem_of_app. left.
        by apply (Hall q).
      * intros id [Hid|Hid]%elem_of_app.
        -- rewrite Hc3. destruct (Hlog2 id Hid) as [[? _]|(pos & q & ? & ? & ?)];
             [by left|].
           right. exists pos, q. auto.
        -- left. split; [|done]. rewrite Hw3 in Hid.
           destruct Hww as [[_ <-]|[_ Hnil]]; [done|].
           rewrite Hnil in Hid. by apply not_elem_of_nil in Hid.
Qed.

(** ** The registries agree with the table of calls, in every state *)

(** Whoever sits in a registry is asleep: not idle, not owner of the lock. *)
Lemma registered_asleep s id :
  queues_ok s →
  id ∈ lockWaiters (board s) ∨ id ∈ watchers (board s)
  ∨ (∃ pos q, cardWaiters (board s) !! pos = Some q ∧ id ∈ q) →
  ∃ st, tasks s !! id = Some st ∧ woken st ≠ st ∧ ¬ idle st
        ∧ (∀ k, st ≠ HoldsLock k).
Proof.
  intros Hq [Hin|[Hin|(pos & q & Hpos & Hin)]].
  - destruct (lock_queue_asleep s Hq id Hin) as (k & ->).
    eexists. split; [done|]. simpl. repeat split; try done. tauto.
  - destruct (watchers_asleep s Hq id Hin) as (p & ->).
    eexists. split; [done|]. simpl. repeat split; try done. tauto.
  - destruct (card_waiters_asleep s Hq pos q id Hpos Hin) as (p & row & col & -> & _).
    eexists. split; [done|]. simpl. repeat split; try done. tauto.
Qed.

Lemma finish_queues_ok s me k b' w st reg :
  queues_ok s → tasks s !! me = Some (HoldsLock k) →
  section_effect (board s) b' w me reg → matches_registration reg st →
  queues_ok (finish me b' w st s).
Proof.
  intros Hq Hme He Hreg.
  assert (∀ id, id ∈ w →
            id ∈ lockWaiters (board s) ∨ id ∈ watchers (board s)
            ∨ (∃ pos q, cardWaiters (board s) !! pos = Some q ∧ id ∈ q)) as Hwas.
  { intros id Hid.
    destruct (eff_log _ _ _ _ _ He id Hid) as [(rest & -> & _)|[[? _]|(pos & q & ? & ? & _)]].
    - left. apply list_elem_of_here.
    - by right; left.
    - right; right. eauto. }
  assert (me ∉ w) as Hme_out.
  { intros Hin. destruct (registered_asleep s me Hq (Hwas me Hin)) as (st0 & Hst0 & _ & _ & Hno).
    rewrite Hme in Hst0. injection Hst0 as <-. by apply (Hno k). }
  assert (∀ id, tasks (finish me b' w st s) !! id
                = if decide (id = me) then Some st
                  else if decide (id ∈ w) then woken <$> tasks s !! id
                       else tasks s !! id) as Hlookup.
  { intros id. simpl. rewrite fold_resolve_lookup.
    destruct (decide (id = me)) as [->|Hne].
    - rewrite decide_False by done. apply lookup_insert_eq.
    - by rewrite lookup_insert_ne. }
  assert (∀ id, id ≠ me → id ∉ w → tasks (finish me b' w st s) !! id = tasks s !! id)
    as Hkeep.
  { intros id ? ?. rewrite Hlookup, decide_False, decide_False; done. }
  (* the head of the lock queue is the only lock waiter called *)
  assert (∀ id k0, id ∈ w → tasks s !! id = Some (InLockQueue k0) →
            ∃ rest, lockWaiters (board s) = id :: rest ∧ lockWaiters b' = rest) as Hhead.
  { intros id k0 Hid Hst.
    destruct (eff_log _ _ _ _ _ He id Hid) as [?|[[Hin _]|(pos & q & Hpos & Hin & _)]];
      [done| |].
    - destruct (watchers_asleep s Hq id Hin) as (p & Hp). congruence.
    - destruct (card_waiters_asleep s Hq pos q id Hpos Hin) as (p & row & col & Hp & _).
      congruence. }
  split.
  - (* no duplicates in the lock queue *)
    pose proof (lock_queue_nodup s Hq) as Hnd. simpl.
    destruct (eff_lock _ _ _ _ _ He) as [(next & Hl & _)|(_ & -> & _)];
      [|apply NoDup_nil_2].
    rewrite Hl in Hnd. by apply NoDup_cons in Hnd as [_ ?].
  - (* lock waiters *)
    intros id Hin. simpl in Hin.
    assert (id ∈ lockWaiters (board s)) as Hin0.
    { destruct (eff_lock _ _ _ _ _ He) as [(next & Hl & _)|(_ & Hl' & _)].
      - rewrite Hl. by apply list_elem_of_further.
      - rewrite Hl' in Hin. by apply not_elem_of_nil in Hin. }
    destruct (lock_queue_asleep s Hq id Hin0) as (k0 & Hk0).
    exists k0. rewrite Hkeep; [done|congruence|].
    intros Hw. destruct (Hhead id k0 Hw Hk0) as (rest & Hl & Hl').
    pose proof (lock_queue_nodup s Hq) as Hnd. rewrite Hl in Hnd.
    apply NoDup_cons in Hnd as [Hnd _]. apply Hnd. by rewrite <- Hl'.
  - (* watchers *)
    intros id Hin. simpl in Hin.
    destruct (eff_watchers _ _ _ _ _ He) as [Hw'|(Hw' & _)];
      [|rewrite Hw' in Hin; by apply not_elem_of_nil in Hin].
    rewrite Hw' in Hin. apply elem_of_app in Hin as [Hin|Hin].
    + destruct (watchers_asleep s Hq id Hin) as (p & Hp).
      exists p. rewrite Hkeep; [done|congruence|].
      intros Hw. destruct (eff_log _ _ _ _ _ He id Hw)
        as [(rest & Hl & _)|[[_ Hnil]|(pos & q & Hpos & Hin' & _)]].
      * assert (id ∈ lockWaiters (board s)) as Hl0 by (rewrite Hl; apply list_elem_of_here).
        destruct (lock_queue_asleep s Hq id Hl0) as (k0 & ?). congruence.
      * rewrite Hnil in Hw'. symmetry in Hw'. apply app_eq_nil in Hw' as [Hw' _].
        rewrite Hw' in Hin. by apply not_elem_of_nil in Hin.
      * destruct (card_waiters_asleep s Hq pos q id Hpos Hin') as (? & ? & ? & ? & _).
        congruence.
    + destruct reg; try by apply not_elem_of_nil in Hin.
      apply list_elem_of_singleton in Hin as ->.
      rewrite Hlookup, decide_True by done.
      destruct st; simpl in Hreg; try done. eauto.
  - (* card waiters *)
    intros pos q id Hpos Hin. simpl in Hpos.
    assert (∀ q0, cardWaiters (board s) !! pos = Some q0 → id ∈ q0 → id ≠ me →
              (cardWaiters b' !! pos = Some q0 ∨ ∃ q1, cardWaiters b' !! pos = Some (q0 ++ q1)) →
              ∃ p row col, tasks (finish me b' w st s) !! id = Some (AwaitsCard p row col)
                           ∧ pos = (Z.to_nat row, Z.to_nat col)) as Hold.
    { intros q0 Hq0 Hin0 Hne Hstill.
      destruct (card_waiters_asleep s Hq pos q0 id Hq0 Hin0) as (p & row & col & Hp & Hpos0).
      exists p, row, col. split; [|done]. rewrite Hkeep; [done|done|].
      intros Hw. destruct (eff_log _ _ _ _ _ He id Hw)
        as [(rest & Hl & _)|[[Hinw _]|(pos' & q' & Hpos' & Hin' & Hgone)]].
      - assert (id ∈ lockWaiters (board s)) as Hl0 by (rewrite Hl; apply list_elem_of_here).
        destruct (lock_queue_asleep s Hq id Hl0) as (k0 & ?). congruence.
      - destruct (watchers_asleep s Hq id Hinw) as (? & ?). congruence.
      - destruct (card_waiters_asleep s Hq pos' q' id Hpos' Hin')
          as (p' & row' & col' & Hp' & ->).
        rewrite Hp in Hp'. injection Hp' as <- <- <-. rewrite <- Hpos0 in Hgone.
        destruct Hstill as [Hs|[q1 Hs]]; rewrite Hs in Hgone;
          destruct Hgone as [?|Hg]; try done.
        + injection Hg as ->. apply list_elem_of_singleton in Hin0. done.
        + injection Hg as Hg. destruct q0; [by apply not_elem_of_nil in Hin0|].
          destruct q0; [|done]. simpl in Hg. injection Hg as -> _.
          apply list_elem_of_singleton in Hin0. done. }
    assert (id = me → reg = OnCard pos →
              ∃ p row col, tasks (finish me b' w st s) !! id = Some (AwaitsCard p row col)
                           ∧ pos = (Z.to_nat row, Z.to_nat col)) as Hnew.
    { intros -> ->. rewrite Hlookup, decide_True by done.
      destruct st; simpl in Hreg; try done. injection Hreg as ->. eauto. }
    assert (me ∉ q ∨ reg = OnCard pos) as Hme_reg.
    { destruct (eff_cards _ _ _ _ _ He pos) as [Hsame|[[Hnone _]|(-> & _)]];
        [|congruence|by right].
      left. intros Hin'. rewrite Hpos in Hsame. symmetry in Hsame.
      destruct (registered_asleep s me Hq) as (st0 & Hst0 & _ & _ & Hno).
      { right; right. eauto. }
      rewrite Hme in Hst0. injection Hst0 as <-. by apply (Hno k). }
    destruct (decide (id = me)) as [->|Hne].
    { destruct Hme_reg as [?|?]; [done|by apply Hnew]. }
    destruct (eff_cards _ _ _ _ _ He pos)
      as [Hsame|[[Hnone _]|(_ & q' & Hq' & Hfrom)]]; [|congruence|].
    + rewrite Hpos in Hsame. symmetry in Hsame. apply (Hold q); auto.
    + rewrite Hpos in Hq'. injection Hq' as ->.
      apply elem_of_app in Hin as [Hin|Hin];
        [|apply list_elem_of_singleton in Hin; done].
      destruct Hfrom as [Hq0|[-> _]]; [|by apply not_elem_of_nil in Hin].
      apply (Hold q'); eauto.
  - (* one owner *)
    assert (∀ id k0, tasks (finish me b' w st s) !! id = Some (HoldsLock k0) →
              ∃ rest, lockWaiters (board s) = id :: rest) as Howner.
    { intros id k0. rewrite Hlookup.
      destruct (decide (id = me)) as [->|Hne].
      { intros [= ->]. destruct reg; done. }
      destruct (decide (id ∈ w)) as [Hw|Hw].
      - destruct (tasks s !! id) as [st0|] eqn:Hst0; [|done]. simpl. intros [= Hwk].
        destruct st0; simpl in Hwk; try done.
        + destruct (Hhead id k1 Hw Hst0) as (rest & ? & _). eauto.
        + exfalso. apply Hne. by eapply (one_owner s Hq).
      - intros Hst0. exfalso. apply Hne. by eapply (one_owner s Hq). }
    intros id id' k0 k0' H1 H2.
    destruct (Howner _ _ H1) as (rest & Hl), (Howner _ _ H2) as (rest' & Hl').
    congruence.
  - (* the owner holds the lock *)
    intros id k0. rewrite Hlookup.
    pose proof (owner_holds s Hq me k Hme) as Hheld. simpl.
    assert (lockWaiters (board s) ≠ [] → lockHeld b' = true) as Hpass.
    { intros Hne. destruct (eff_lock _ _ _ _ _ He) as [(next & _ & -> & _)|(? & _)]; done. }
    destruct (decide (id = me)) as [->|Hne].
    { intros [= ->]. destruct reg; done. }
    destruct (decide (id ∈ w)) as [Hw|Hw].
    + destruct (tasks s !! id) as [st0|] eqn:Hst0; [|done]. simpl. intros [= Hwk].
      destruct st0; simpl in Hwk; try done.
      * destruct (Hhead id k1 Hw Hst0) as (rest & Hl & _). apply Hpass. by rewrite Hl.
      * exfalso. apply Hne. by eapply (one_owner s Hq).
    + intros Hst0. exfalso. apply Hne. by eapply (one_owner s Hq).
Qed.

Lemma idle_not_registered s id :
  queues_ok s → (∀ st, tasks s !! id = Some st → idle st) →
  (id ∉ lockWaiters (board s)) ∧ (id ∉ watchers (board s))
  ∧ (∀ pos q, cardWaiters (board s) !! pos = Some q → id ∉ q).
Proof.
  intros Hq Hidle.
  assert (¬ (id ∈ lockWaiters (board s) ∨ id ∈ watchers (board s)
             ∨ (∃ pos q, cardWaiters (board s) !! pos = Some q ∧ id ∈ q))) as Hno.
  { intros H. destruct (registered_asleep s id Hq H) as (st & Hst & _ & Hn & _).
    by apply Hn, Hidle. }
  repeat split; [tauto|tauto|]. intros pos q Hpos Hin. apply Hno. eauto 10.
Qed.

Lemma enter_queues_ok id k s :
  queues_ok s → (∀ st, tasks s !! id = Some st → idle st) → queues_ok (enter id k s).
Proof.
  intros Hq Hidle.
  destruct (idle_not_registered s id Hq Hidle) as (Hnl & Hnw & Hnc).
  assert (∀ k0, tasks s !! id ≠ Some (HoldsLock k0)) as Hnot
    by (intros k0 H; by apply Hidle in H).
  unfold enter, acquireLock. destruct (lockHeld (board s)) eqn:Hheld; simpl.
  - split; simpl.
    + apply NoDup_app. split; [apply (lock_queue_nodup s Hq)|].
      split; [|apply NoDup_singleton]. intros x Hx ->%list_elem_of_singleton. done.
    + intros id' [Hin| ->%list_elem_of_singleton]%elem_of_app.
      * destruct (lock_queue_asleep s Hq id' Hin) as (k0 & Hk0). exists k0.
        rewrite lookup_insert_ne; [done|congruence].
      * exists k. apply lookup_insert_eq.
    + intros id' Hin. destruct (watchers_asleep s Hq id' Hin) as (p & Hp). exists p.
      rewrite lookup_insert_ne; [done|congruence].
    + intros pos q id' Hpos Hin.
      destruct (card_waiters_asleep s Hq pos q id' Hpos Hin) as (p & row & col & Hp & ?).
      exists p, row, col. split; [|done].
      rewrite lookup_insert_ne; [done|]. intros ->. by apply (Hnc pos q).
    + intros id1 id2 k1 k2. rewrite !lookup_insert.
      destruct (decide (id = id1)); [done|]. destruct (decide (id = id2)); [done|].
      apply (one_owner s Hq).
    + done.
  - split; simpl.
    + apply (lock_queue_nodup s Hq).
    + intros id' Hin. destruct (lock_queue_asleep s Hq id' Hin) as (k0 & Hk0). exists k0.
      rewrite lookup_insert_ne; [done|congruence].
    + intros id' Hin. destruct (watchers_asleep s Hq id' Hin) as (p & Hp). exists p.
      rewrite lookup_insert_ne; [done|congruence].
    + intros pos q id' Hpos Hin.
      destruct (card_waiters_asleep s Hq pos q id' Hpos Hin) as (p & row & col & Hp & ?).
      exists p, row, col. split; [|done].
      rewrite lookup_insert_ne; [done|]. intros ->. by apply (Hnc pos q).
    + intros id1 id2 k1 k2. rewrite !lookup_insert.
      destruct (decide (id = id1)) as [<-|]; destruct (decide (id = id2)) as [<-|];
        try done.
      * intros _ H. pose proof (owner_holds s Hq _ _ H). congruence.
      * intros H _. pose proof (owner_holds s Hq _ _ H). congruence.
      * apply (one_owner s Hq).
    + done.
Qed.

(** A call that is not asleep may take any other state that is not
    asleep either. *)
Lemma settle_queues_ok id st s :
  queues_ok s → (∀ st0, tasks s !! id = Some st0 → idle st0) → idle st →
  queues_ok (mkSystem (board s) (<[id := st]> (tasks s)) (nextId s)).
Proof.
  intros Hq Hidle Hst.
  destruct (idle_not_registered s id Hq Hidle) as (Hnl & Hnw & Hnc).
  split; simpl.
  - apply (lock_queue_nodup s Hq).
  - intros id' Hin. destruct (lock_queue_asleep s Hq id' Hin) as (k0 & Hk0). exists k0.
    rewrite lookup_insert_ne; [done|congruence].
  - intros id' Hin. destruct (watchers_asleep s Hq id' Hin) as (p & Hp). exists p.
    rewrite lookup_insert_ne; [done|congruence].
  - intros pos q id' Hpos Hin.
    destruct (card_waiters_asleep s Hq pos q id' Hpos Hin) as (p & row & col & Hp & ?).
    exists p, row, col. split; [|done].
    rewrite lookup_insert_ne; [done|]. intros ->. by apply (Hnc pos q).
  - intros id1 id2 k1 k2. rewrite !lookup_insert.
    destruct (decide (id = id1)); [by intros [= ->]|].
    destruct (decide (id = id2)); [by intros _ [= ->]|].
    apply (one_owner s Hq).
  - intros id1 k1. rewrite lookup_insert.
    destruct (decide (id = id1)); [by intros [= ->]|]. apply (owner_holds s Hq).
Qed.

Lemma finish_lookup_me me b w st s k :
  queues_ok s → tasks s !! me = Some (HoldsLock k) →
  (∀ id, id ∈ w →
     id ∈ lockWaiters (board s) ∨ id ∈ watchers (board s)
     ∨ (∃ pos q, cardWaiters (board s) !! pos = Some q ∧ id ∈ q)) →
  tasks (finish me b w st s) !! me = Some st.
Proof.
  intros Hq Hme Hwas. simpl. rewrite fold_resolve_lookup, decide_False.
  - apply lookup_insert_eq.
  - intros Hin. destruct (registered_asleep s me Hq (Hwas me Hin)) as (st0 & Hst0 & _ & _ & Hno).
    rewrite Hme in Hst0. injection Hst0 as <-. by apply (Hno k).
Qed.

Lemma effect_log_registered b b' w me reg id :
  section_effect b b' w me reg → id ∈ w →
  id ∈ lockWaiters b ∨ id ∈ watchers b
  ∨ (∃ pos q, cardWaiters b !! pos = Some q ∧ id ∈ q).
Proof.
  intros He Hid.
  destruct (eff_log _ _ _ _ _ He id Hid) as [(rest & -> & _)|[[? _]|(pos & q & ? & ? & _)]].
  - left. apply list_elem_of_here.
  - by right; left.
  - right; right. eauto.
Qed.

Lemma run_queues_ok id k s :
  queues_ok s → tasks s !! id = Some (HoldsLock k) → queues_ok (run id k s).
Proof.
  intros Hq Hst. destruct k as [p row col|p|p|p f|p m]; simpl.
  - pose proof (flipSection_effect id p row col (board s)) as He.
    pose proof (flipSection_cases id p row col (board s)) as Hc. simpl in Hc.
    destruct (flipSection id p row col (board s)) as [[b w] res]. simpl in *.
    eapply finish_queues_ok; try done.
    destruct (verdict p row col (afterCleanup p (board s))) as [msg|r c|r c target sec] eqn:Hv.
    + destruct Hc as (-> & _). done.
    + destruct Hc as (-> & _). simpl.
      apply verdict_Wait in Hv as (-> & -> & _). by rewrite !Nat2Z.id.
    + destruct Hc as (_ & _ & Hres).
      destruct (checkRep _); by rewrite Hres.
  - pose proof (renderSection_effect p (board s) id) as He.
    destruct (renderSection p (board s)) as [[b w] text]. simpl in *.
    by eapply finish_queues_ok.
  - pose proof (watchSection_effect (board s) id) as He.
    destruct (watchSection id (board s)) as [b w]. simpl in *.
    by eapply finish_queues_ok.
  - pose proof (snapshotSection_effect (board s) id) as He.
    destruct (snapshotSection (board s)) as [[b w] cards]. simpl in *.
    assert (queues_ok (finish id b w (Computing p f cards) s)) as Hq'
      by (by eapply finish_queues_ok).
    destruct cards; [|done].
    apply enter_queues_ok; [done|]. intros st0.
    rewrite (finish_lookup_me id b w _ s _ Hq Hst);
      [by intros [= <-]|intros id' Hid'; by eapply effect_log_registered].
  - pose proof (applySection_effect m (board s) id) as He.
    destruct (applySection m (board s)) as [[b w] err]. simpl in *.
    destruct err; [by eapply finish_queues_ok|].
    apply enter_queues_ok; [by eapply finish_queues_ok|]. intros st0.
    rewrite (finish_lookup_me id b w _ s _ Hq Hst);
      [by intros [= <-]|intros id' Hid'; by eapply effect_log_registered].
Qed.

Lemma turn_queues_ok id s s' : queues_ok s → turn id s = Some s' → queues_ok s'.
Proof.
  intros Hq. unfold turn. destruct (tasks s !! id) as [st|] eqn:Hst; [|done].
  destruct st as [k|k|k|p row col|p|p f cards|v|msg]; try done.
  - intros [= <-]. apply enter_queues_ok; [done|]. intros st0. rewrite Hst.
    by intros [= <-].
  - intros [= <-]. by apply run_queues_ok.
  - assert (∀ st0, tasks s !! id = Some st0 → idle st0) as Hidle
      by (intros st0; rewrite Hst; by intros [= <-]).
    destruct (computeTransforms f cards [] ∅).2; intros [= <-].
    + by apply settle_queues_ok.
    + by apply enter_queues_ok.
Qed.

Lemma call_queues_ok c s : system_ok s → queues_ok s → queues_ok (call c s).
Proof.
  intros (_ & _ & Hts) Hq. unfold call. apply enter_queues_ok.
  - destruct Hq. by split.
  - simpl. intros st Hst. destruct (Hts _ _ Hst). lia.
Qed.

(** Every state of a running system satisfies all the invariants. *)
Lemma reachable_all_ok raw b s :
  parseFromFile raw = inr b → reachable b s → system_ok s ∧ queues_ok s.
Proof.
  intros Hparse Hreach.
  assert (system_ok (start b) ∧ queues_ok (start b)) as Hstart.
  { split; [by eapply start_ok|].
    apply parseFromFile_initial in Hparse as (nrows & ncols & cards & -> & _).
    split; simpl; try done.
    - apply NoDup_nil_2.
    - by intros id ?%not_elem_of_nil.
    - by intros id ?%not_elem_of_nil. }
  unfold reachable in Hreach. induction Hreach as [|s1 s2 s3 Hstep _ IH]; [done|].
  apply IH. destruct Hstart as [Hok Hq]. split; [by eapply step_ok|].
  revert Hok Hq. destruct Hstep as [c s0|id s0 s1 Ht]; intros Hok Hq.
  - by apply call_queues_ok.
  - by eapply turn_queues_ok.
Qed.

(** ** What a step does to the other calls *)

Lemma enter_lookup_other id id' k s :
  id ≠ id' → tasks (enter id' k s) !! id = tasks s !! id.
Proof.
  intros Hne. unfold enter. destruct (acquireLock id' (board s)) as [b owned]. simpl.
  by rewrite lookup_insert_ne.
Qed.

Lemma finish_lookup_other id id' b w st s :
  id ≠ id' →
  tasks (finish id' b w st s) !! id = tasks s !! id
  ∨ tasks (finish id' b w st s) !! id = woken <$> tasks s !! id.
Proof.
  intros Hne. simpl. rewrite fold_resolve_lookup, lookup_insert_ne by done.
  destruct (decide (id ∈ w)); auto.
Qed.

(** A turn of another call leaves a call as it is, or wakes it. *)
Lemma turn_other id id' s s' :
  turn id' s = Some s' → id ≠ id' →
  tasks s' !! id = tasks s !! id ∨ tasks s' !! id = woken <$> tasks s !! id.
Proof.
  intros Hturn Hne. unfold turn in Hturn.
  destruct (tasks s !! id') as [st|]; [|done].
  destruct st as [k|k|k|p row col|p|p f cards|v|msg]; try done.
  - injection Hturn as <-. left. by apply enter_lookup_other.
  - injection Hturn as <-. destruct k as [p row col|p|p|p f|p m]; simpl.
    + destruct (flipSection _ _ _ _ _) as [[b w] res]. by apply finish_lookup_other.
    + destruct (renderSection _ _) as [[b w] text]. by apply finish_lookup_other.
    + destruct (watchSection _ _) as [b w]. by apply finish_lookup_other.
    + destruct (snapshotSection _) as [[b w] cards].
      destruct cards; [|by apply finish_lookup_other].
      rewrite enter_lookup_other by done. by apply finish_lookup_other.
    + destruct (applySection _ _) as [[b w] err].
      destruct err; [by apply finish_lookup_other|].
      rewrite enter_lookup_other by done. by apply finish_lookup_other.
  - destruct (computeTransforms f cards [] ∅).2; injection Hturn as <-.
    + left. simpl. by rewrite lookup_insert_ne.
    + left. by apply enter_lookup_other.
Qed.

Lemma call_lookup_other id c s :
  system_ok s → is_Some (tasks s !! id) → tasks (call c s) !! id = tasks s !! id.
Proof.
  intros (_ & _ & Hts) [st Hst]. destruct (Hts _ _ Hst) as [_ Hlt].
  unfold call. rewrite enter_lookup_other; [done|lia].
Qed.

(** A value returned stays returned. *)
Lemma step_settled id v s s' :
  system_ok s → step s s' → tasks s !! id = Some (Fulfilled v) →
  tasks s' !! id = Some (Fulfilled v).
Proof.
  intros Hok Hstep Hst. revert Hok Hst.
  destruct Hstep as [c s0|id' s0 s1 Ht]; intros Hok Hst.
  - rewrite call_lookup_other; eauto.
  - destruct (decide (id = id')) as [<-|Hne].
    + unfold turn in Ht. by rewrite Hst in Ht.
    + destruct (turn_other id id' s0 s1 Ht Hne) as [->| ->]; by rewrite Hst.
Qed.

(** While a call owns the lock, the turn of another call leaves the grid
    as it is. *)
Lemma turn_under_lock id k id' s s' :
  queues_ok s → tasks s !! id = Some (HoldsLock k) → turn id' s = Some s' →
  id' ≠ id → same_grid (board s) (board s').
Proof.
  intros Hq Hst Ht Hne.
  destruct (turn_grid_cases id' s s' Ht)
    as [?|[(q & row & col & Hst' & _)|(q & m & Hst' & _)]]; [done| |];
    destruct Hne; by eapply (one_owner s Hq).
Qed.

(** ** What [mapCards] returns *)

Lemma apply_turn raw b0 s id p m s1 :
  parseFromFile raw = inr b0 → reachable b0 s →
  tasks s !! id = Some (HoldsLock (DoApply p m)) → turn id s = Some s1 →
  same_grid (applyTransforms m (board s)) (board s1)
  ∧ (tasks s1 !! id = Some (HoldsLock (DoRender p))
     ∨ tasks s1 !! id = Some (InLockQueue (DoRender p)))
  ∧ (lockWaiters (board s) = [] → tasks s1 !! id = Some (HoldsLock (DoRender p))).
Proof.
  intros Hparse Hreach Hst Hturn.
  destruct (reachable_ok raw b0 s Hparse Hreach) as (Hrep & Hturns & Hts).
  destruct (Hts _ _ Hst) as [Hvalid _]. simpl in Hvalid.
  pose proof (applyTransforms_rep_ok m (board s) Hvalid Hrep) as Hrep'.
  apply checkRep_None in Hrep'.
  unfold turn in Hturn. rewrite Hst in Hturn. injection Hturn as <-. simpl.
  pose proof (applySection_frame m (board s)) as [Hsame _].
  unfold applySection in *. rewrite Hrep' in *. unfold notifyWatchers in *.
  pose proof (releaseLock_cases (set_watchers [] (applyTransforms m (board s)))) as (Hrel & _).
  destruct (releaseLock (set_watchers [] (applyTransforms m (board s)))) as [b w] eqn:Hr.
  simpl in *. split; [|split].
  - eapply same_grid_trans; [exact Hsame|].
    apply (enter_same_grid id _ (finish id b _ _ s)).
  - unfold enter. destruct (acquireLock id _) as [b1 owned]. simpl.
    rewrite lookup_insert_eq. destruct owned; auto.
  - intros Hnone.
    pose proof (applyTransforms_frame m (positions (rows (board s)) (cols (board s)))
                  (board s)) as H0.
    simpl in H0. fold (applyTransforms m (board s)) in H0.
    destruct H0 as (_ & _ & _ & _ & _ & Hlw & _).
    destruct Hrel as [(next & Hl & _)|(_ & _ & Hfree & _)]; [congruence|].
    unfold enter, acquireLock. simpl. rewrite Hfree. simpl. apply lookup_insert_eq.
Qed.

(** C10, as the code has it: after its second pass [mapCards] calls
    [renderFor], which takes the lock anew; the text returned is the
    rendering of the board at the turn in which that call of [renderFor]
    owns the lock, a state that follows the end of the second pass.  When
    no call waits for the lock as the second pass ends, [renderFor] owns
    the lock at once, no other call can change the grid before it runs,
    and the text is the rendering of the board the second pass left. *)
Theorem C10_map_returns_render raw b0 s id p m s1 :
  parseFromFile raw = inr b0 → reachable b0 s →
  tasks s !! id = Some (HoldsLock (DoApply p m)) → turn id s = Some s1 →
  same_grid (applyTransforms m (board s)) (board s1)
  ∧ (∀ s2 text,
       rtc step s1 s2 → tasks s2 !! id = Some (Fulfilled (Some text)) →
       ∃ s', rtc step s1 s' ∧ rtc step s' s2 ∧ text = render_text (board s') p)
  ∧ (lockWaiters (board s) = [] →
     ∀ s2 text,
       rtc step s1 s2 → tasks s2 !! id = Some (Fulfilled (Some text)) →
       text = render_text (applyTransforms m (board s)) p).
Proof.
  intros Hparse Hreach Hst Hturn.
  destruct (apply_turn raw b0 s id p m s1 Hparse Hreach Hst Hturn) as (Hsame & Hnext & Hfree).
  assert (reachable b0 s1) as Hreach1
    by (eapply rtc_r; [exact Hreach|by apply (step_turn id)]).
  assert (∀ s2, rtc step s1 s2 → system_ok s2 ∧ queues_ok s2) as Hinv.
  { intros s2 H12. apply (reachable_all_ok raw b0); [done|].
    unfold reachable. by eapply rtc_trans. }
  split; [done|]. split.
  - assert (∀ s2, rtc step s1 s2 →
              (tasks s2 !! id = Some (HoldsLock (DoRender p))
               ∨ tasks s2 !! id = Some (InLockQueue (DoRender p)))
              ∨ ∃ s', rtc step s1 s' ∧ rtc step s' s2
                      ∧ tasks s2 !! id
                        = Some (Fulfilled (Some (render_text (board s') p)))) as Hall.
    { apply rtc_ind_r; [by left|]. intros s2 s3 H12 Hstep IH.
      destruct (Hinv s2 H12) as [Hok2 _].
      destruct IH as [Hwait|(s' & H1 & H2 & Hdone)].
      - assert (is_Some (tasks s2 !! id)) as Hsome by (destruct Hwait as [->| ->]; eauto).
        inversion Hstep as [c s0 Heq1 Heq2|id' s0 s0' Ht Heq1 Heq2]; subst.
        + left. by rewrite call_lookup_other.
        + destruct (decide (id = id')) as [<-|Hne].
          * right. exists s2. split; [done|]. split; [by apply rtc_once, (step_turn id)|].
            destruct Hwait as [Hw|Hw]; [|unfold turn in Ht; by rewrite Hw in Ht].
            by destruct (render_turn s2 id p s3 Hw Ht) as (? & _).
          * left. destruct (turn_other id id' s2 s3 Ht Hne) as [->| ->]; [done|].
            destruct Hwait as [->| ->]; simpl; auto.
      - right. exists s'. split; [done|]. split; [by eapply rtc_r|].
        by eapply step_settled. }
    intros s2 text H12 Hdone. destruct (Hall s2 H12) as [[Hw|Hw]|(s' & H1 & H2 & Hs')];
      [congruence|congruence|].
    exists s'. repeat split; try done. congruence.
  - intros Hnone. specialize (Hfree Hnone).
    assert (∀ s2, rtc step s1 s2 →
              (tasks s2 !! id = Some (HoldsLock (DoRender p))
               ∧ same_grid (applyTransforms m (board s)) (board s2))
              ∨ tasks s2 !! id
                = Some (Fulfilled (Some (render_text (applyTransforms m (board s)) p))))
      as Hall.
    { apply rtc_ind_r; [by left|]. intros s2 s3 H12 Hstep IH.
      destruct (Hinv s2 H12) as [Hok2 Hq2].
      destruct IH as [[Hown Hgrid]|Hdone]; [|right; by eapply step_settled].
      inversion Hstep as [c s0 Heq1 Heq2|id' s0 s0' Ht Heq1 Heq2]; subst.
      - left. split; [rewrite call_lookup_other; eauto|].
        eapply same_grid_trans; [exact Hgrid|apply call_same_grid].
      - destruct (decide (id = id')) as [<-|Hne].
        + right. destruct (render_turn s2 id p s3 Hown Ht) as (-> & _).
          by rewrite (render_text_same_grid _ _ p Hgrid).
        + left. split.
          * destruct (turn_other id id' s2 s3 Ht Hne) as [->| ->]; by rewrite Hown.
          * eapply same_grid_trans; [exact Hgrid|].
            by eapply (turn_under_lock id _ id'). }
    intros s2 text H12 Hdone. destruct (Hall s2 H12) as [[Hw _]|Hs']; congruence.
Qed.

Lemma C10_map_returns_render_witness :
  tasks (exec map_ready [Turn 1; Turn 1]) !! 1
  = Some (Fulfilled (Some (render_text (applyTransforms swap_map (board map_ready)) "p1"))).
Proof.
  assert (tasks (exec map_ready [Turn 1]) !! 1 = Some (HoldsLock (DoRender "p1"))) as Hown
    by (vm_compute; reflexivity).
  assert (turn 1 (exec map_ready [Turn 1]) = Some (exec map_ready [Turn 1; Turn 1])) as Hturn
    by (vm_compute; reflexivity).
  destruct (render_turn _ 1 "p1" _ Hown Hturn) as [Hdone _].
  etrans; [exact Hdone|]. apply (f_equal (λ text, Some (Fulfilled (Some text)))).
  refine (proj2 (proj2 (C10_map_returns_render ab_file ab_board map_ready 1 "p1" swap_map
                          (exec map_ready [Turn 1]) parse_ab (exec_reachable _ _) _ _))
            _ (exec map_ready [Turn 1; Turn 1]) _ (exec_steps _ [Turn 1]) Hdone).
  - vm_compute. reflexivity.
  - vm_compute. reflexivity.
  - vm_compute. reflexivity.
Defined.

(** C10 as stated fails when another call waits for the lock as the second
    pass ends.  p1 and p2 call [mapCards] with a transform that exchanges A
    and B.  p1's second pass leaves B at (0,0), and p1's [renderFor] queues
    behind p2's second pass, which puts A back: p1 is returned the text of
    the board as it was before its own transformation. *)
Lemma C10_counterexample :
  tasks two_maps_ready !! 1 = Some (HoldsLock (DoApply "p1" swap_map))
  ∧ cell_lines (board two_maps_ready) "p1" = ["up A"; "down"; "down"; "down"]
  ∧ turn 1 two_maps_ready = Some two_maps_applied
  ∧ cell_lines (board two_maps_applied) "p1" = ["up B"; "down"; "down"; "down"]
  ∧ tasks two_maps_applied !! 1 = Some (InLockQueue (DoRender "p1"))
  ∧ tasks (exec two_maps_applied [Turn 2; Turn 1]) !! 1
    = Some (Fulfilled (Some (render_text (board two_maps_ready) "p1")))
  ∧ render_text (board two_maps_ready) "p1" ≠ render_text (board two_maps_applied) "p1".
Proof. repeat split; try (vm_compute; reflexivity). vm_compute. discriminate. Qed.

(** ** Where cleanup calls the card waiters *)

Lemma turnDown_controller s : controller (turnDown s) = controller s.
Proof. unfold turnDown. by destruct (_ && _ && _). Qed.

Lemma uncontrolled_turnDown g pos pos0 :
  uncontrolled g pos → uncontrolled (update_spot turnDown pos0.1 pos0.2 g) pos.
Proof.
  intros (s & Hs & Hc). unfold uncontrolled. rewrite spotAt_update_spot.
  destruct (decide ((pos0.1, pos0.2) = (pos.1, pos.2))) as [Heq|]; [|eauto].
  injection Heq as -> ->. rewrite Hs. simpl. eexists. split; [done|].
  by rewrite turnDown_controller.
Qed.

Lemma flipDownAt_notified st pos0 pos :
  cardWaiters (flipDownAt st pos0).1.1 !! pos = cardWaiters st.1.1 !! pos
  ∨ uncontrolled (grid (flipDownAt st pos0).1.1) pos.
Proof.
  destruct st as [[b w] d]. unfold flipDownAt. simpl.
  destruct (spotAt (grid b) pos0.1 pos0.2) as [spot|] eqn:Hs; [|by left].
  destruct (bool_decide (card spot ≠ None) && faceUp spot
            && bool_decide (controller spot = None)) eqn:Hc; [|by left].
  apply andb_true_iff in Hc as [_ Hc%bool_decide_eq_true].
  unfold notifyCardWaiters. simpl.
  destruct (cardWaiters b !! (pos0.1, pos0.2)) as [q|] eqn:Hq; simpl; [|by left].
  rewrite lookup_delete.
  destruct (decide ((pos0.1, pos0.2) = pos)) as [<-|]; [|by left].
  right. exists (faceDown spot). simpl. by rewrite spotAt_update_spot_eq, Hs.
Qed.

Lemma fold_flipDownAt_notified (ps : list (nat * nat)) (st : Board * list CallId * bool)
    (m0 : gmap (nat * nat) (list CallId)) (pos : nat * nat) :
  cardWaiters st.1.1 !! pos = m0 !! pos ∨ uncontrolled (grid st.1.1) pos →
  cardWaiters (fold_left flipDownAt ps st).1.1 !! pos = m0 !! pos
  ∨ uncontrolled (grid (fold_left flipDownAt ps st).1.1) pos.
Proof.
  revert st. induction ps as [|pos0 ps IH]; intros st H; cbn [fold_left]; [done|].
  apply IH. destruct H as [H|H].
  - destruct (flipDownAt_notified st pos0 pos) as [->|?]; auto.
  - right. pose proof (flipDownAt_frame st pos0) as (-> & _).
    by apply uncontrolled_turnDown.
Qed.

Lemma removeMatched_notified player b pos :
  cardWaiters (removeMatched player b).1.1 !! pos = cardWaiters b !! pos
  ∨ uncontrolled (grid (removeMatched player b).1.1) pos.
Proof.
  destruct (removeMatched_cases player b)
    as [->|(r1 & c1 & r2 & c2 & k & _ & [s1 H1] & [s2 H2] & ->)]; [by left|].
  simpl. rewrite !lookup_delete.
  destruct (decide ((r2, c2) = pos)) as [<-|Hne2].
  { right. eexists. simpl. rewrite spotAt_update_spot_eq.
    rewrite spotAt_update_spot. destruct (decide _); rewrite ?H1, ?H2; simpl; done. }
  destruct (decide ((r1, c1) = pos)) as [<-|Hne1]; [|by left].
  right. eexists. simpl. rewrite spotAt_update_spot_ne by done.
  rewrite spotAt_update_spot_eq, H1. done.
Qed.

(** Cleanup deletes the queue of a position only where it leaves a spot
    that nobody controls. *)
Lemma cleanup_notified player b pos :
  cardWaiters (afterCleanup player b) !! pos = cardWaiters b !! pos
  ∨ uncontrolled (grid (afterCleanup player b)) pos.
Proof.
  pose proof (afterCleanup_frame player b) as ((_ & _ & ->) & -> & _).
  unfold cleanupCompletedTurns.
  apply fold_flipDownAt_notified, removeMatched_notified.
Qed.

(** ** A call asleep on a card *)

(** A call in the queue of [pos] that a locked part does not call stays
    in that queue; one it calls was in a queue that part deleted. *)
Lemma waiter_not_called b b' w me reg id pos queue' :
  section_effect b b' w me reg → id ≠ me →
  id ∉ lockWaiters b → id ∉ watchers b →
  (∀ pos' q', cardWaiters b !! pos' = Some q' → id ∈ q' → pos' = pos) →
  cardWaiters b' !! pos = Some queue' → id ∈ queue' → id ∉ w.
Proof.
  intros He Hne Hnl Hnw Hpos Hq' Hin Hw.
  destruct (eff_log _ _ _ _ _ He id Hw)
    as [(rest & Hl & _)|[[? _]|(pos1 & q1 & Hq1 & Hin1 & Hgone)]].
  - apply Hnl. rewrite Hl. apply list_elem_of_here.
  - done.
  - rewrite (Hpos pos1 q1 Hq1 Hin1), Hq' in Hgone.
    destruct Hgone as [?|[= ->]]; [done|].
    by apply list_elem_of_singleton in Hin.
Qed.

Lemma waiter_queue_cases b b' w me reg id pos queue :
  section_effect b b' w me reg →
  cardWaiters b !! pos = Some queue → id ∈ queue →
  (∃ queue', cardWaiters b' !! pos = Some queue' ∧ id ∈ queue') ∨ id ∈ w.
Proof.
  intros He Hq Hin.
  destruct (eff_cards _ _ _ _ _ He pos)
    as [Hsame|[[_ Hall]|(_ & q' & Hq' & [Hold|[_ Hall]])]].
  - left. exists queue. by rewrite Hsame.
  - right. eauto.
  - left. exists (q' ++ [me]). split; [done|].
    rewrite Hq in Hold. injection Hold as <-. apply elem_of_app. by left.
  - right. eauto.
Qed.

(** What the turn of a call that owns the lock does to another call. *)
Lemma run_other id k s id' :
  id' ≠ id →
  ∃ b w reg,
    section_effect (board s) b w id reg
    ∧ cardWaiters (board (run id k s)) = cardWaiters b
    ∧ tasks (run id k s) !! id'
      = (if decide (id' ∈ w) then woken <$> tasks s !! id' else tasks s !! id')
    ∧ match k with
      | DoFlip p row col => b = (flipSection id p row col (board s)).1.1
      | _ => cardWaiters b = cardWaiters (board s)
      end.
Proof.
  intros Hne. destruct k as [p row col|p|p|p f|p m]; simpl.
  - pose proof (flipSection_effect id p row col (board s)) as He.
    destruct (flipSection id p row col (board s)) as [[b w] res]. simpl in *.
    eexists b, w, _. split; [exact He|]. split; [done|]. split; [|done].
    by rewrite fold_resolve_lookup, lookup_insert_ne.
  - pose proof (renderSection_effect p (board s) id) as He.
    assert (cardWaiters (renderSection p (board s)).1.1 = cardWaiters (board s)) as Hcw.
    { unfold renderSection. pose proof (releaseLock_frame (board s)) as H. simpl in H.
      destruct (releaseLock (board s)). simpl in *. by destruct H as (_ & _ & _ & _ & ->). }
    destruct (renderSection p (board s)) as [[b w] text]. simpl in *.
    eexists b, w, _. split; [exact He|]. split; [done|]. split; [|done].
    by rewrite fold_resolve_lookup, lookup_insert_ne.
  - pose proof (watchSection_effect (board s) id) as He.
    assert (cardWaiters (watchSection id (board s)).1 = cardWaiters (board s)) as Hcw.
    { unfold watchSection.
      pose proof (releaseLock_frame (set_watchers (watchers (board s) ++ [id]) (board s))) as H.
      simpl in H. by destruct H as (_ & _ & _ & _ & ->). }
    destruct (watchSection id (board s)) as [b w]. simpl in *.
    eexists b, w, _. split; [exact He|]. split; [done|]. split; [|done].
    by rewrite fold_resolve_lookup, lookup_insert_ne.
  - pose proof (snapshotSection_effect (board s) id) as He.
    assert (cardWaiters (snapshotSection (board s)).1.1 = cardWaiters (board s)) as Hcw.
    { unfold snapshotSection. pose proof (releaseLock_frame (board s)) as H. simpl in H.
      destruct (releaseLock (board s)). simpl in *. by destruct H as (_ & _ & _ & _ & ->). }
    destruct (snapshotSection (board s)) as [[b w] cards]. simpl in *.
    eexists b, w, _. split; [exact He|].
    destruct cards.
    + pose proof (acquireLock_frame id b) as H. simpl in H.
      destruct H as (_ & _ & _ & _ & Hcw').
      rewrite enter_lookup_other by done. unfold enter.
      destruct (acquireLock id _) as [b1 owned] eqn:Ha. simpl in *.
      split; [done|]. split; [|done].
      by rewrite fold_resolve_lookup, lookup_insert_ne.
    + simpl. split; [done|]. split; [|done].
      by rewrite fold_resolve_lookup, lookup_insert_ne.
  - pose proof (applySection_effect m (board s) id) as He.
    pose proof (applySection_frame m (board s)) as [_ Hcw].
    destruct (applySection m (board s)) as [[b w] err]. simpl in *.
    eexists b, w, _. split; [exact He|].
    destruct err.
    + simpl. split; [done|]. split; [|done].
      by rewrite fold_resolve_lookup, lookup_insert_ne.
    + pose proof (acquireLock_frame id b) as H. simpl in H.
      destruct H as (_ & _ & _ & _ & Hcw').
      rewrite enter_lookup_other by done. unfold enter.
      destruct (acquireLock id _) as [b1 owned] eqn:Ha. simpl in *.
      split; [done|]. split; [|done].
      by rewrite fold_resolve_lookup, lookup_insert_ne.
Qed.

Lemma enter_cardWaiters id k s :
  cardWaiters (board (enter id k s)) = cardWaiters (board s).
Proof.
  unfold enter. pose proof (acquireLock_frame id (board s)) as H. simpl in H.
  destruct (acquireLock id (board s)) as [b owned]. simpl in *.
  by destruct H as (_ & _ & _ & _ & ->).
Qed.

(** One step of the system, seen from a call asleep in the queue of
    [pos]: it stays asleep in that queue, or it is woken by the turn of a
    call of [flipCard] whose cleanup left at [pos] a spot that nobody
    controls, and is then scheduled to start [flipCard] over. *)
Lemma waiter_step id p row col pos queue s s' :
  system_ok s → queues_ok s → step s s' →
  tasks s !! id = Some (AwaitsCard p row col) →
  cardWaiters (board s) !! pos = Some queue → id ∈ queue →
  (tasks s' !! id = Some (AwaitsCard p row col)
   ∧ ∃ queue', cardWaiters (board s') !! pos = Some queue' ∧ id ∈ queue')
  ∨ (tasks s' !! id = Some (Scheduled (DoFlip p row col))
     ∧ ∃ id' p' row' col',
         tasks s !! id' = Some (HoldsLock (DoFlip p' row' col'))
         ∧ turn id' s = Some s'
         ∧ uncontrolled (grid (afterCleanup p' (board s))) pos).
Proof.
  intros Hok Hq Hstep Hst Hqueue Hin.
  assert (∀ k s0, id ≠ k →
            tasks (enter k s0 s) !! id = Some (AwaitsCard p row col)
            ∧ ∃ queue', cardWaiters (board (enter k s0 s)) !! pos = Some queue'
                        ∧ id ∈ queue') as Henter.
  { intros k s0 Hne. rewrite enter_lookup_other, enter_cardWaiters by done. eauto. }
  inversion Hstep as [c s0 Heq1 Heq2|id' s0 s0' Ht Heq1 Heq2]; subst.
  { left. rewrite call_lookup_other by eauto. split; [done|].
    unfold call. rewrite enter_cardWaiters. simpl. eauto. }
  assert (id ≠ id') as Hne.
  { intros <-. unfold turn in Ht. by rewrite Hst in Ht. }
  pose proof Ht as Hturn. unfold turn in Ht.
  destruct (tasks s !! id') as [st'|] eqn:Hst'; [|done].
  destruct st' as [k|k|k|p' row' col'|p'|p' f cards|v|msg]; try done.
  - injection Ht as <-. left. by apply Henter.
  - injection Ht as <-.
    assert (id ∉ lockWaiters (board s)) as Hnl.
    { intros (k0 & Hk0)%(lock_queue_asleep s Hq). congruence. }
    assert (id ∉ watchers (board s)) as Hnw.
    { intros (p0 & Hp0)%(watchers_asleep s Hq). congruence. }
    assert (∀ pos' q', cardWaiters (board s) !! pos' = Some q' → id ∈ q' → pos' = pos)
      as Hpos.
    { intros pos' q' Hq' Hin'.
      destruct (card_waiters_asleep s Hq pos' q' id Hq' Hin') as (p1 & r1 & c1 & H1 & ->).
      destruct (card_waiters_asleep s Hq pos queue id Hqueue Hin) as (p2 & r2 & c2 & H2 & ->).
      congruence. }
    destruct (run_other id' k s id Hne) as (b & w & reg & He & Hcw & Htasks & Hk).
    assert (∀ queue', cardWaiters b !! pos = Some queue' → id ∈ queue' → id ∉ w) as Hnot.
    { intros queue' Hq' Hin'. by eapply (waiter_not_called (board s) b w id'). }
    destruct (waiter_queue_cases _ _ _ _ _ id pos queue He Hqueue Hin)
      as [(queue' & Hq' & Hin')|Hw].
    + left. rewrite Htasks, decide_False by eauto. split; [done|].
      exists queue'. by rewrite Hcw.
    + right. rewrite Htasks, decide_True, Hst by done. split; [done|].
      destruct k as [p' row' col'|p'|p'|p' f|p' m];
        try (rewrite <- Hk in Hqueue; by destruct (Hnot queue Hqueue Hin)).
      exists id', p', row', col'. split; [done|]. split; [done|].
      destruct (cleanup_notified p' (board s) pos) as [Hsame|Hfree]; [|done].
      exfalso. rewrite Hqueue in Hsame.
      pose proof (flipSection_cases id' p' row' col' (board s)) as Hc. simpl in Hc.
      rewrite <- Hk in Hc.
      destruct (verdict p' row' col' (afterCleanup p' (board s))) as [msg|r c|r c target sec].
      * destruct Hc as (_ & _ & Hc & _). rewrite <- Hc in Hsame. by eapply Hnot.
      * destruct Hc as (_ & _ & Hc & _).
        destruct (decide ((r, c) = pos)) as [<-|Hdiff].
        -- apply (Hnot (queue ++ [id'])).
           ++ by rewrite Hc, lookup_insert_eq, Hsame.
           ++ apply elem_of_app. by left.
           ++ done.
        -- apply (Hnot queue); [|done..]. by rewrite Hc, lookup_insert_ne.
      * destruct Hc as (_ & Hc & _). rewrite <- Hc in Hsame. by eapply Hnot.
  - destruct (computeTransforms f cards [] ∅).2; injection Ht as <-.
    + left. simpl. rewrite lookup_insert_ne by done. eauto.
    + left. by apply Henter.
Qed.

(** An error thrown stays thrown. *)
Lemma step_rejected id msg s s' :
  system_ok s → step s s' → tasks s !! id = Some (Rejected msg) →
  tasks s' !! id = Some (Rejected msg).
Proof.
  intros Hok Hstep Hst.
  inversion Hstep as [c s0 Heq1 Heq2|id' s0 s0' Ht Heq1 Heq2]; subst.
  - rewrite call_lookup_other; eauto.
  - destruct (decide (id = id')) as [<-|Hne].
    + unfold turn in Ht. by rewrite Hst in Ht.
    + destruct (turn_other id id' s s' Ht Hne) as [->| ->]; by rewrite Hst.
Qed.

(** ** [flipCard] on a card that another player controls *)

(** What the checks of [flipCard] decide for a spot that another player
    controls, when the caller has no completed turn to clean up. *)
Lemma verdict_other_player p r c b spot q :
  rep_ok b → spotAt (grid b) r c = Some spot → controller spot = Some q → q ≠ p →
  controlledCount p b < 2 →
  spotAt (grid (afterCleanup p b)) r c = Some spot
  ∧ verdict p (Z.of_nat r) (Z.of_nat c) (afterCleanup p b)
    = if controlledCount p b =? 1
      then Reject "cannot flip: card is controlled by another player"
      else Wait r c.
Proof.
  intros Hrep Hs Hq Hne Hlt.
  destruct (cleanup_open_turn p b Hrep Hlt) as [Hcount Hkept].
  specialize (Hkept r c spot q Hs Hq).
  pose proof (afterCleanup_frame p b) as (Hsame & _).
  pose proof (same_grid_rep_ok _ _ Hsame (cleanup_rep_ok p b Hrep)) as [Hshape _].
  split; [done|].
  destruct (proj1 (spotAt_in_shape _ r c Hshape)) as [Hr Hc]; [eauto|].
  rewrite verdict_in_bounds, Hkept, Hcount by done.
  destruct Hrep as [_ Hspots]. destruct (Hspots r c spot Hs) as (Hcard & Hup & _).
  destruct (card spot) as [target|] eqn:Hk; [|destruct (Hcard eq_refl); congruence].
  cbv zeta.
  replace (2 <=? controlledCount p b) with false by (symmetry; apply Nat.leb_gt; lia).
  replace (controlledBy p spot) with false
    by (unfold controlledBy; rewrite Hq, bool_decide_eq_false_2; [done|congruence]).
  rewrite Hq.
  rewrite (bool_decide_eq_true_2 (Some q ≠ None)) by done.
  rewrite (bool_decide_eq_true_2 (Some q ≠ Some p)) by congruence.
  by destruct (controlledCount p b =? 1).
Qed.

(** The turn in which a call of [flipCard] owns the lock. *)
Lemma flip_turn s id p row col s1 :
  queues_ok s → tasks s !! id = Some (HoldsLock (DoFlip p row col)) →
  turn id s = Some s1 →
  board s1 = (flipSection id p row col (board s)).1.1
  ∧ tasks s1 !! id
    = Some match (flipSection id p row col (board s)).2 with
           | Returned => Fulfilled None
           | Threw msg => Rejected msg
           | Suspended => AwaitsCard p row col
           end.
Proof.
  intros Hq Hst Hturn. unfold turn in Hturn. rewrite Hst in Hturn.
  injection Hturn as <-. simpl.
  pose proof (flipSection_effect id p row col (board s)) as He.
  destruct (flipSection id p row col (board s)) as [[b w] res]. simpl in *.
  split; [done|].
  apply (finish_lookup_me id b w _ s _ Hq Hst).
  intros id' Hid'. by eapply effect_log_registered.
Qed.

(** X9: a call flipCard(p, r, c) runs its locked part on a board where
    the spot at (r, c) is controlled by another player q.  The spot is left
    as it is.  If p controls exactly one face-up card, the call
    throws "card is controlled by another player" in that same turn, is
    in no queue, and stays rejected.  If p controls no face-up card, the
    call suspends, registered in the queue of (r, c); in every later
    state it is either still asleep in that queue, or it was woken by the
    cleanup pass of a call of [flipCard] that left at (r, c) a spot nobody
    controls, and was scheduled to start flipCard(p, r, c) over.  A call
    so scheduled asks for the lock, and the turn in which it owns the lock
    runs the whole locked part of [flipCard], cleanup first, on the board
    as it is then. *)
Theorem flip_card_of_another_player raw b0 s id p r c spot q s1 :
  parseFromFile raw = inr b0 → reachable b0 s →
  tasks s !! id = Some (HoldsLock (DoFlip p (Z.of_nat r) (Z.of_nat c))) →
  turn id s = Some s1 →
  spotAt (grid (board s)) r c = Some spot → controller spot = Some q → q ≠ p →
  spotAt (grid (board s1)) r c = Some spot
  ∧ (controlledCount p (board s) = 1 →
     tasks s1 !! id = Some (Rejected "cannot flip: card is controlled by another player")
     ∧ (∀ pos queue, cardWaiters (board s1) !! pos = Some queue → id ∉ queue)
     ∧ ∀ s2, rtc step s1 s2 →
         tasks s2 !! id
         = Some (Rejected "cannot flip: card is controlled by another player"))
  ∧ (controlledCount p (board s) = 0 →
     tasks s1 !! id = Some (AwaitsCard p (Z.of_nat r) (Z.of_nat c))
     ∧ (∃ queue, cardWaiters (board s1) !! (r, c) = Some queue ∧ id ∈ queue)
     ∧ ∀ s2, rtc step s1 s2 →
         (tasks s2 !! id = Some (AwaitsCard p (Z.of_nat r) (Z.of_nat c))
          ∧ ∃ queue, cardWaiters (board s2) !! (r, c) = Some queue ∧ id ∈ queue)
         ∨ ∃ sa sb id' p' row' col',
             rtc step s1 sa ∧ rtc step sb s2
             ∧ tasks sa !! id = Some (AwaitsCard p (Z.of_nat r) (Z.of_nat c))
             ∧ tasks sa !! id' = Some (HoldsLock (DoFlip p' row' col'))
             ∧ turn id' sa = Some sb
             ∧ uncontrolled (grid (afterCleanup p' (board sa))) (r, c)
             ∧ tasks sb !! id = Some (Scheduled (DoFlip p (Z.of_nat r) (Z.of_nat c))))
  ∧ (∀ sx, tasks sx !! id = Some (Scheduled (DoFlip p (Z.of_nat r) (Z.of_nat c))) →
       ∃ sy, turn id sx = Some sy
             ∧ (tasks sy !! id = Some (HoldsLock (DoFlip p (Z.of_nat r) (Z.of_nat c)))
                ∨ tasks sy !! id = Some (InLockQueue (DoFlip p (Z.of_nat r) (Z.of_nat c)))))
  ∧ (∀ sx, tasks sx !! id = Some (HoldsLock (DoFlip p (Z.of_nat r) (Z.of_nat c))) →
       ∃ sy, turn id sx = Some sy
             ∧ board sy = (flipSection id p (Z.of_nat r) (Z.of_nat c) (board sx)).1.1).
Proof.
  intros Hparse Hreach Hst Hturn Hspot Hq Hne.
  destruct (reachable_all_ok raw b0 s Hparse Hreach) as [(Hrep & Hturns & Hts) Hqs].
  assert (reachable b0 s1) as Hreach1
    by (eapply rtc_r; [exact Hreach|by apply (step_turn id)]).
  assert (∀ s2, rtc step s1 s2 → system_ok s2 ∧ queues_ok s2) as Hinv.
  { intros s2 H12. apply (reachable_all_ok raw b0); [done|].
    unfold reachable. by eapply rtc_trans. }
  destruct (flip_turn s id p _ _ s1 Hqs Hst Hturn) as [Hboard Htask].
  pose proof (flipSection_cases id p (Z.of_nat r) (Z.of_nat c) (board s)) as Hc.
  simpl in Hc.
  split; [rewrite Hboard; by eapply flipSection_other_player|].
  split; [|split; [|split]].
  - intros Hone.
    destruct (verdict_other_player p r c (board s) spot q) as [_ Hv]; [done..|lia|].
    rewrite Hone in Hv. simpl in Hv. rewrite Hv in Hc. destruct Hc as (Hres & _).
    rewrite Hres in Htask. split; [done|]. split.
    + intros pos queue Hqueue Hin. destruct (Hinv s1) as [_ Hq1]; [done|].
      destruct (card_waiters_asleep s1 Hq1 pos queue id Hqueue Hin) as (? & ? & ? & ? & _).
      congruence.
    + apply rtc_ind_r; [done|]. intros s2 s3 H12 Hstep IH.
      destruct (Hinv s2 H12) as [Hok2 _]. by eapply step_rejected.
  - intros Hnone.
    destruct (verdict_other_player p r c (board s) spot q) as [_ Hv]; [done..|lia|].
    rewrite Hnone in Hv. simpl in Hv. rewrite Hv in Hc. destruct Hc as (Hres & _ & Hcw & _).
    rewrite Hres in Htask. split; [done|].
    assert (∃ queue, cardWaiters (board s1) !! (r, c) = Some queue ∧ id ∈ queue) as Hreg.
    { eexists. rewrite Hboard, Hcw, lookup_insert_eq. split; [done|].
      apply elem_of_app. right. apply list_elem_of_here. }
    split; [done|].
    apply rtc_ind_r; [by left|]. intros s2 s3 H12 Hstep IH.
    destruct (Hinv s2 H12) as [Hok2 Hq2].
    destruct IH as [[Hasleep (queue & Hqueue & Hin)]
                   |(sa & sb & id' & p' & row' & col' & H1a & Hb2 & Ha & Hown & Ht & Hfree & Hb)].
    + destruct (waiter_step id p _ _ (r, c) queue s2 s3 Hok2 Hq2 Hstep Hasleep Hqueue Hin)
        as [?|(Hwoken & id' & p' & row' & col' & Hown & Ht & Hfree)]; [by left|].
      right. exists s2, s3, id', p', row', col'. by repeat split.
    + right. exists sa, sb, id', p', row', col'.
      repeat split; try done. by eapply rtc_r.
  - intros sx Hsx. unfold turn. rewrite Hsx. eexists. split; [done|].
    unfold enter. destruct (acquireLock id (board sx)) as [b owned]. simpl.
    rewrite lookup_insert_eq. destruct owned; auto.
  - intros sx Hsx. unfold turn. rewrite Hsx. eexists. split; [done|]. simpl.
    by destruct (flipSection id p (Z.of_nat r) (Z.of_nat c) (board sx)) as [[b w] res].
Qed.

Example flip_card_of_another_player_ab :
  tasks (exec ask_second [Turn 2]) !! 2
  = Some (Rejected "cannot flip: card is controlled by another player")
  ∧ tasks (exec ask_first [Turn 1]) !! 1 = Some (AwaitsCard "p2" 0 0).
Proof.
  split.
  - refine (proj1 (proj1 (proj2
      (flip_card_of_another_player ab_file ab_board ask_second 2 "p2" 0 0
         (mkSpot (Some "A") true (Some "p1")) "p1" (exec ask_second [Turn 2])
         parse_ab (exec_reachable _ _) _ _ _ _ _)) _)).
    + vm_compute. reflexivity.
    + vm_compute. reflexivity.
    + vm_compute. reflexivity.
    + reflexivity.
    + done.
    + vm_compute. reflexivity.
  - refine (proj1 (proj1 (proj2 (proj2
      (flip_card_of_another_player ab_file ab_board ask_first 1 "p2" 0 0
         (mkSpot (Some "A") true (Some "p1")) "p1" (exec ask_first [Turn 1])
         parse_ab (exec_reachable _ _) _ _ _ _ _))) _)).
    + vm_compute. reflexivity.
    + vm_compute. reflexivity.
    + vm_compute. reflexivity.
    + reflexivity.
    + done.
    + vm_compute. reflexivity.
Defined.

(** ** A controller cleared without notification *)

(** C4 at the schedule of the test "waits when trying to flip card
    controlled by another player": p1 turns (0,0); p2 asks for (0,0) and
    suspends in the queue of (0,0); p1 turns (1,0), which does not match,
    and gives up (0,0).  p1's call has returned and nobody controls (0,0),
    yet p2's call is still asleep in the queue of (0,0), and no call has a
    turn to take: it does not start over until some later [flipCard]
    arrives and its cleanup turns (0,0) face down. *)
Theorem C4_waiter_not_resumed :
  tasks ab_release_ready !! 1 = Some (AwaitsCard "p2" 0 0)
  ∧ spotAt (grid (board ab_release_ready)) 0 0 = Some (mkSpot (Some "A") true (Some "p1"))
  ∧ ab_waiting = exec ab_release_ready [Turn 2]
  ∧ tasks ab_waiting !! 2 = Some (Fulfilled None)
  ∧ spotAt (grid (board ab_waiting)) 0 0 = Some (mkSpot (Some "A") true None)
  ∧ tasks ab_waiting !! 1 = Some (AwaitsCard "p2" 0 0)
  ∧ cardWaiters (board ab_waiting) !! (0, 0) = Some [1]
  ∧ ∀ id, turn id ab_waiting = None.
Proof.
  repeat split; try (vm_compute; reflexivity).
  intros id. unfold turn.
  destruct (tasks ab_waiting !! id) as [st|] eqn:Hst; [|done].
  destruct (reachable_ok ab_file ab_board ab_waiting parse_ab (exec_reachable _ _))
    as (_ & _ & Hts).
  destruct (Hts id st Hst) as [_ Hlt]. change (nextId ab_waiting) with 3 in Hlt.
  destruct id as [|[|[|id]]]; [| | |lia];
    vm_compute in Hst; injection Hst as <-; reflexivity.
Qed.

Lemma flipDownAt_keeps st pos0 pos id :
  (cardWaiters st.1.1 !! pos = None → cardWaiters (flipDownAt st pos0).1.1 !! pos = None)
  ∧ (id ∈ st.1.2 → id ∈ (flipDownAt st pos0).1.2).
Proof.
  destruct st as [[b w] d]. unfold flipDownAt. simpl.
  destruct (spotAt (grid b) pos0.1 pos0.2) as [spot|]; [|done].
  destruct (_ && _ && _); [|done].
  unfold notifyCardWaiters. simpl.
  destruct (cardWaiters b !! (pos0.1, pos0.2)) as [q|]; simpl.
  - split.
    + intros Hnone. rewrite lookup_delete. by destruct (decide _).
    + intros Hin. apply elem_of_app. by left.
  - split; [done|]. intros Hin. apply elem_of_app. by left.
Qed.

Lemma fold_flipDownAt_keeps ps st pos id :
  (cardWaiters st.1.1 !! pos = None →
   cardWaiters (fold_left flipDownAt ps st).1.1 !! pos = None)
  ∧ (id ∈ st.1.2 → id ∈ (fold_left flipDownAt ps st).1.2).
Proof.
  revert st. induction ps as [|pos0 ps IH]; intros st; cbn [fold_left]; [done|].
  destruct (IH (flipDownAt st pos0)) as [IH1 IH2].
  destruct (flipDownAt_keeps st pos0 pos id) as [H1 H2]. auto.
Qed.

Lemma removeMatched_release_notifies player b pos s s1 :
  spotAt (grid b) pos.1 pos.2 = Some s → controller s ≠ None →
  spotAt (grid (removeMatched player b).1.1) pos.1 pos.2 = Some s1 → controller s1 = None →
  cardWaiters (removeMatched player b).1.1 !! pos = None
  ∧ ∀ q id, cardWaiters b !! pos = Some q → id ∈ q → id ∈ (removeMatched player b).1.2.
Proof.
  intros Hs Hc. destruct pos as [r c]. simpl in *.
  destruct (removeMatched_cases player b)
    as [->|(r1 & c1 & r2 & c2 & k & _ & _ & _ & ->)]; simpl.
  { intros Hs1 Hc1. congruence. }
  rewrite spotAt_update_spot.
  destruct (decide ((r2, c2) = (r, c))) as [[= <- <-]|Hne2].
  - intros _ _. split; [apply lookup_delete_eq|].
    intros q id Hq Hin. apply elem_of_app.
    destruct (decide ((r1, c1) = (r2, c2))) as [Heq|Hne1].
    + left. by rewrite Heq, Hq.
    + right. by rewrite lookup_delete_ne, Hq.
  - rewrite spotAt_update_spot.
    destruct (decide ((r1, c1) = (r, c))) as [[= <- <-]|Hne1].
    + intros _ _. split; [by rewrite lookup_delete_ne, lookup_delete_eq|].
      intros q id Hq Hin. apply elem_of_app. left. by rewrite Hq.
    + intros Hs1 Hc1. congruence.
Qed.

(** X10: the cleanup paths do what the mismatch path misses: where
    cleanup takes a spot from its controller, it deletes the queue of that
    position and calls every callback that was in it. *)
Theorem cleanup_release_notifies player b pos s s' :
  spotAt (grid b) pos.1 pos.2 = Some s → controller s ≠ None →
  spotAt (grid (cleanupCompletedTurns player b).1.1) pos.1 pos.2 = Some s' →
  controller s' = None →
  cardWaiters (cleanupCompletedTurns player b).1.1 !! pos = None
  ∧ ∀ q id, cardWaiters b !! pos = Some q → id ∈ q →
            id ∈ (cleanupCompletedTurns player b).1.2.
Proof.
  intros Hs Hc Hs' Hc'.
  rewrite cleanup_grid, spotAt_fold_update in Hs' by apply NoDup_positions.
  assert (∃ s1, spotAt (grid (removeMatched player b).1.1) pos.1 pos.2 = Some s1
                ∧ controller s1 = None) as (s1 & Hs1 & Hc1).
  { destruct (decide _).
    - destruct (spotAt (grid (removeMatched player b).1.1) pos.1 pos.2) as [s1|];
        [|done].
      simpl in Hs'. injection Hs' as <-. rewrite turnDown_controller in Hc'. eauto.
    - eauto. }
  destruct (removeMatched_release_notifies player b pos s s1 Hs Hc Hs1 Hc1) as [Hnone Hall].
  unfold cleanupCompletedTurns. split.
  - by apply (proj1 (fold_flipDownAt_keeps _ _ pos 0)).
  - intros q id Hq Hin.
    apply (proj2 (fold_flipDownAt_keeps _ _ pos id)). by eapply Hall.
Qed.

(** C6 at the same schedule: the locked part of p1's second call clears
    the controller of (0,0) and of (1,0) on the mismatch, calls no
    callback, and leaves p2's call in the queue of (0,0). *)
Theorem C6_release_without_notification :
  tasks ab_release_ready !! 2 = Some (HoldsLock (DoFlip "p1" 1 0))
  ∧ spotAt (grid (board ab_release_ready)) 0 0 = Some (mkSpot (Some "A") true (Some "p1"))
  ∧ cardWaiters (board ab_release_ready) !! (0, 0) = Some [1]
  ∧ (flipSection 2 "p1" 1 0 (board ab_release_ready)).2 = Returned
  ∧ (flipSection 2 "p1" 1 0 (board ab_release_ready)).1.2 = []
  ∧ spotAt (grid (flipSection 2 "p1" 1 0 (board ab_release_ready)).1.1) 0 0
    = Some (mkSpot (Some "A") true None)
  ∧ spotAt (grid (flipSection 2 "p1" 1 0 (board ab_release_ready)).1.1) 1 0
    = Some (mkSpot (Some "B") true None)
  ∧ cardWaiters (flipSection 2 "p1" 1 0 (board ab_release_ready)).1.1 !! (0, 0)
    = Some [1].
Proof. repeat split; vm_compute; reflexivity. Qed.

(** * Further properties of the board *)

(** ** Reading a board file *)

Lemma parse_cards_spec idx cardLines cards :
  parse_cards idx cardLines = inr cards →
  cards = trim <$> cardLines
  ∧ Forall (λ k, CARD_REGEX_test k = true) cards.
Proof.
  revert idx cards. induction cardLines as [|line rest IH]; intros idx cards; simpl.
  { intros [= <-]. by split. }
  destruct (CARD_REGEX_test (trim line)) eqn:Hvalid; [|done].
  destruct (parse_cards (S idx) rest) as [e|cs] eqn:Hrest; [done|].
  intros [= <-]. destruct (IH _ _ Hrest) as [-> Hall]. split; [done|].
  by constructor.
Qed.

Lemma initial_board_lookup nrows ncols cards r c :
  r < nrows → c < ncols →
  spotAt (grid (initial_board nrows ncols cards)) r c
  = Some (mkSpot (cards !! (r * ncols + c)) false None).
Proof.
  intros Hr Hc. unfold spotAt, initial_board. simpl. rewrite list_lookup_fmap.
  rewrite lookup_seq_lt by done. simpl. rewrite list_lookup_fmap.
  by rewrite lookup_seq_lt.
Qed.

Lemma initial_board_outside nrows ncols cards r c :
  nrows ≤ r ∨ ncols ≤ c → spotAt (grid (initial_board nrows ncols cards)) r c = None.
Proof.
  intros Hout. unfold spotAt, initial_board. simpl. rewrite list_lookup_fmap.
  destruct (decide (r < nrows)) as [Hr|Hr].
  - rewrite lookup_seq_lt by done. simpl. rewrite list_lookup_fmap.
    rewrite lookup_seq_ge; [done|lia].
  - rewrite lookup_seq_ge; [done|lia].
Qed.

Lemma initial_board_rep_ok nrows ncols cards :
  nrows * ncols ≤ length cards →
  Forall (λ k, CARD_REGEX_test k = true) cards →
  rep_ok (initial_board nrows ncols cards).
Proof.
  intros Hlen Hvalid. split.
  - split; simpl.
    + by rewrite length_fmap, length_seq.
    + apply Forall_fmap, Forall_forall. intros r _. simpl.
      by rewrite length_fmap, length_seq.
  - intros r c s Hs.
    destruct (decide (r < nrows ∧ c < ncols)) as [[Hr Hc]|Hout].
    + rewrite initial_board_lookup in Hs by done. injection Hs as <-.
      split; [done|]. split; [done|]. simpl. intros k Hk.
      rewrite Forall_forall in Hvalid. apply Hvalid.
      by eapply list_elem_of_lookup_2.
    + rewrite initial_board_outside in Hs; [done|lia].
Qed.

(** What [parseFromFile] has checked when it reaches the constructor. *)
Lemma parseFromFile_inv raw b :
  parseFromFile raw = inr b →
  ∃ first cardLines,
    pop_empty_lines (split_on newline (replace_cr (replace_crlf raw))) = first :: cardLines
    ∧ 0 < rows b ∧ 0 < cols b
    ∧ length cardLines = rows b * cols b
    ∧ Forall (λ line, CARD_REGEX_test (trim line) = true) cardLines
    ∧ b = initial_board (rows b) (cols b) (trim <$> cardLines).
Proof.
  unfold parseFromFile.
  destruct (pop_empty_lines _) as [|first cardLines]; [done|].
  destruct (String.eqb (trim first) ""); [done|].
  destruct (match_dims (trim first)) as [[m1 m2]|]; [|done].
  destruct (parseInt_digits m1 =? 0) eqn:H1; [done|].
  destruct (parseInt_digits m2 =? 0) eqn:H2; [done|]. simpl.
  destruct (length cardLines =? _) eqn:Hlen; [|done]. simpl.
  destruct (parse_cards 0 cardLines) as [e|cards] eqn:Hcards; [done|].
  apply parse_cards_spec in Hcards as [-> Hvalid].
  unfold new_Board. destruct (checkRep _); [done|]. intros [= <-]. simpl.
  apply Nat.eqb_neq in H1, H2. apply Nat.eqb_eq in Hlen.
  exists first, cardLines. split; [done|]. split; [lia|]. split; [lia|].
  split; [done|]. split; [|done].
  by apply Forall_fmap in Hvalid.
Qed.

(** X1: a board returned by [parseFromFile] has positive dimensions and
    one spot for each position of the grid and no other; the spot at
    (r, c) holds the trimmed card line number r * cols + c of the file
    (row-major order), a valid card, face down and without controller;
    nobody waits and the lock is free. *)
Theorem parseFromFile_board raw b :
  parseFromFile raw = inr b →
  ∃ first cardLines,
    pop_empty_lines (split_on newline (replace_cr (replace_crlf raw))) = first :: cardLines
    ∧ 0 < rows b ∧ 0 < cols b
    ∧ length cardLines = rows b * cols b
    ∧ (∀ r c, r < rows b → c < cols b →
         ∃ line, cardLines !! (r * cols b + c) = Some line
                 ∧ CARD_REGEX_test (trim line) = true
                 ∧ spotAt (grid b) r c = Some (mkSpot (Some (trim line)) false None))
    ∧ (∀ r c, rows b ≤ r ∨ cols b ≤ c → spotAt (grid b) r c = None)
    ∧ watchers b = [] ∧ cardWaiters b = ∅ ∧ lockWaiters b = [] ∧ lockHeld b = false.
Proof.
  intros (first & cardLines & Hlines & Hr & Hc & Hlen & Hvalid & Hb)%parseFromFile_inv.
  exists first, cardLines. split; [done|]. split; [done|]. split; [done|].
  split; [done|]. split; [|split; [|by rewrite Hb]].
  - intros r c Hlt Hlt'.
    assert (r * cols b + c < length cardLines) as Hidx by nia.
    apply lookup_lt_is_Some in Hidx as [line Hline].
    exists line. split; [done|]. split.
    + rewrite Forall_forall in Hvalid. apply Hvalid.
      by eapply list_elem_of_lookup_2.
    + rewrite Hb, initial_board_lookup by done. simpl.
      by rewrite list_lookup_fmap, Hline.
  - intros r c Hout. rewrite Hb. by apply initial_board_outside.
Qed.

Lemma parseFromFile_board_witness :
  spotAt (grid ab_board) 1 0 = Some (mkSpot (Some "B") false None).
Proof.
  destruct (parseFromFile_board ab_file ab_board parse_ab)
    as (first & cardLines & Hlines & _ & _ & _ & Hspots & _).
  destruct (Hspots 1 0) as (line & Hline & _ & Hspot); [vm_compute; lia..|].
  vm_compute in Hlines. injection Hlines as _ <-.
  vm_compute in Hline. injection Hline as <-. exact Hspot.
Defined.

(** X2: [parseFromFile] never fails with a fault of [checkRep]: whatever
    the file, the cards handed to the constructor make a valid board. *)
Theorem parseFromFile_no_assertion raw msg :
  parseFromFile raw ≠ inl (RepViolation msg).
Proof.
  unfold parseFromFile.
  destruct (pop_empty_lines _) as [|first cardLines]; [done|].
  destruct (String.eqb (trim first) ""); [done|].
  destruct (match_dims (trim first)) as [[m1 m2]|]; [|done].
  destruct (_ || _); [done|].
  destruct (length cardLines =? _) eqn:Hlen; [|done]. simpl.
  destruct (parse_cards 0 cardLines) as [e|cards] eqn:Hcards.
  - intros [= ->]. clear Hlen. revert Hcards. generalize 0.
    induction cardLines as [|line rest IH]; intros idx; simpl; [done|].
    destruct (CARD_REGEX_test (trim line)); [|done].
    destruct (parse_cards (S idx) rest) eqn:Hrest; [|done].
    intros [= ->]. by eapply IH.
  - apply parse_cards_spec in Hcards as [-> Hvalid].
    apply Nat.eqb_eq in Hlen. unfold new_Board.
    destruct (checkRep _) eqn:Hrep; [|done].
    assert (rep_ok (initial_board (parseInt_digits m1) (parseInt_digits m2)
                      (trim <$> cardLines))) as Hok.
    { apply initial_board_rep_ok; [|done]. rewrite length_fmap. lia. }
    apply checkRep_None in Hok. congruence.
Qed.

Lemma length_positions n m : length (positions n m) = n * m.
Proof.
  unfold positions. induction n as [|n IH] using nat_ind.
  { done. }
  rewrite seq_S, bind_app, length_app, IH. simpl. rewrite app_nil_r.
  assert (∀ a k, length (seq a k ≫= (λ c, [(n, c)])) = k) as ->.
  { intros a k. revert a. induction k as [|k IHk]; intros a; [done|].
    cbn [seq]. rewrite bind_cons. simpl. by rewrite IHk. }
  lia.
Qed.

Lemma omap_constant {A B} (f : A → option B) (l : list A) (x : B) :
  (∀ y, y ∈ l → f y = Some x) → omap f l = replicate (length l) x.
Proof.
  induction l as [|y l IH]; intros H; [done|]. simpl.
  rewrite (H y) by apply list_elem_of_here. f_equal.
  apply IH. intros z Hz. apply H. by apply list_elem_of_further.
Qed.

(** X3: the text [renderFor] returns for a board fresh from
    [parseFromFile] is the dimension line followed by one line "down" for
    each of the rows * cols cells, whoever asks. *)
Theorem parseFromFile_renders_down raw b p :
  parseFromFile raw = inr b →
  cell_lines b p = replicate (rows b * cols b) "down"
  ∧ (renderSection p b).2
    = String.concat (String newline "")
        (dimension_line b :: replicate (rows b * cols b) "down")
      +:+ String newline "".
Proof.
  intros (first & cardLines & _ & _ & _ & Hlen & _ & Hb)%parseFromFile_inv.
  assert (cell_lines b p = replicate (rows b * cols b) "down") as Hlines.
  { unfold cell_lines. rewrite <- length_positions. apply omap_constant.
    intros [r c] [Hr Hc]%elem_of_positions.
    rewrite Hb, initial_board_lookup by done. simpl.
    assert (r * cols b + c < length (trim <$> cardLines)) as Hidx
      by (rewrite length_fmap; nia).
    apply lookup_lt_is_Some in Hidx as [k Hk]. unfold viewOf. simpl. by rewrite Hk. }
  split; [done|]. unfold renderSection, render_text. rewrite Hlines.
  by destruct (releaseLock b).
Qed.

Lemma parseFromFile_renders_down_witness :
  cell_lines ab_board "p1" = ["down"; "down"; "down"; "down"].
Proof. exact (proj1 (parseFromFile_renders_down ab_file ab_board "p1" parse_ab)). Defined.

(** ** A plain board file is read back *)

Lemma digit_plain a :
  isDigit a = true →
  isWhiteSpace a = false ∧ Ascii.eqb a "x" = false.
Proof. destruct a as [[] [] [] [] [] [] [] []]; vm_compute; done. Qed.

Lemma not_space_plain a :
  isWhiteSpace a = false → Ascii.eqb a newline = false ∧ Ascii.eqb a carriage = false.
Proof. destruct a as [[] [] [] [] [] [] [] []]; vm_compute; done. Qed.

Lemma string_forall_app p s1 s2 :
  string_forall p (s1 +:+ s2) = string_forall p s1 && string_forall p s2.
Proof.
  induction s1 as [|a s1 IH]; simpl; [done|]. by rewrite IH, andb_assoc.
Qed.

Lemma string_forall_impl (p q : ascii → bool) s :
  (∀ a, p a = true → q a = true) → string_forall p s = true → string_forall q s = true.
Proof.
  intros Hpq. induction s as [|a s IH]; simpl; [done|].
  intros [Ha Hs]%andb_true_iff. rewrite (Hpq a Ha). by apply IH.
Qed.

Lemma app_empty_r (s : string) : s +:+ "" = s.
Proof.
  induction s as [|a s IH]; [done|].
  change (String a s +:+ "") with (String a (s +:+ "")). by rewrite IH.
Qed.

Lemma app_line (l rest : string) :
  (l +:+ String newline "") +:+ rest = l +:+ String newline rest.
Proof.
  induction l as [|a l IH]; [done|].
  change ((String a l +:+ String newline "") +:+ rest)
    with (String a ((l +:+ String newline "") +:+ rest)).
  by rewrite IH.
Qed.

Lemma concat_cons (s : string) (l : list string) :
  String.concat "" (s :: l) = s +:+ String.concat "" l.
Proof. destruct l; [symmetry; apply app_empty_r|done]. Qed.

Lemma string_forall_concat p (l : list string) :
  Forall (λ s, string_forall p s = true) l → string_forall p (String.concat "" l) = true.
Proof.
  induction 1 as [|s l Hs Hl IH]; [done|].
  by rewrite concat_cons, string_forall_app, Hs, IH.
Qed.

Lemma replace_plain s :
  string_forall (λ a, negb (Ascii.eqb a carriage)) s = true →
  replace_crlf s = s ∧ replace_cr s = s.
Proof.
  induction s as [|a s IH]; simpl; [done|].
  intros [Ha Hs]%andb_true_iff. apply negb_true_iff in Ha. rewrite Ha.
  destruct (IH Hs) as [-> ->]. done.
Qed.

Lemma trimStart_plain s :
  string_forall (λ a, negb (isWhiteSpace a)) s = true → trimStart s = s.
Proof.
  destruct s as [|a s]; simpl; [done|].
  intros [Ha _]%andb_true_iff. apply negb_true_iff in Ha. by rewrite Ha.
Qed.

Lemma trimEnd_plain s :
  string_forall (λ a, negb (isWhiteSpace a)) s = true → trimEnd s = s.
Proof.
  induction s as [|a s IH]; simpl; [done|].
  intros [Ha Hs]%andb_true_iff. apply negb_true_iff in Ha. rewrite (IH Hs), Ha.
  by destruct s.
Qed.

Lemma trim_plain s :
  string_forall (λ a, negb (isWhiteSpace a)) s = true → trim s = s.
Proof. intros H. unfold trim. by rewrite trimStart_plain, trimEnd_plain. Qed.

Lemma CARD_REGEX_plain k :
  CARD_REGEX_test k = true →
  k ≠ "" ∧ string_forall (λ a, negb (isWhiteSpace a)) k = true.
Proof. destruct k; [done|]. by intros H. Qed.

Lemma split_on_line line rest :
  string_forall (λ a, negb (Ascii.eqb a newline)) line = true →
  split_on newline (line +:+ String newline rest) = line :: split_on newline rest.
Proof.
  induction line as [|a line IH]; simpl.
  - done.
  - intros [Ha Hl]%andb_true_iff. apply negb_true_iff in Ha. rewrite Ha.
    by rewrite (IH Hl).
Qed.

Lemma split_on_lines (lines : list string) :
  Forall (λ l, string_forall (λ a, negb (Ascii.eqb a newline)) l = true) lines →
  split_on newline (String.concat "" ((λ k, k +:+ String newline "") <$> lines))
  = lines ++ [""].
Proof.
  induction 1 as [|l lines Hl Hlines IH]; [done|].
  rewrite fmap_cons, concat_cons, app_line. by rewrite split_on_line, IH.
Qed.

Lemma pop_empty_lines_plain (lines : list string) :
  Forall (λ l, l ≠ "") lines → pop_empty_lines (lines ++ [""]) = lines.
Proof.
  induction 1 as [|l lines Hl Hlines IH]; [done|].
  simpl. rewrite IH. destruct lines as [|l' lines']; [|done].
  destruct (String.eqb l "") eqn:Heq; [|done].
  by apply String.eqb_eq in Heq.
Qed.

Lemma break_at_x_digits d1 d2 :
  string_forall isDigit d1 = true →
  break_at_x (d1 +:+ "x" +:+ d2) = Some (d1, d2).
Proof.
  induction d1 as [|a d1 IH]; simpl; [done|].
  intros [Ha Hd]%andb_true_iff. destruct (digit_plain a Ha) as [_ ->].
  by rewrite (IH Hd).
Qed.

Lemma all_digits_forall d : all_digits d = true → d ≠ "" ∧ string_forall isDigit d = true.
Proof. destruct d; [done|]. by intros H. Qed.

Lemma parse_cards_plain idx cards :
  Forall (λ k, CARD_REGEX_test k = true) cards → parse_cards idx cards = inr cards.
Proof.
  intros H. revert idx. induction H as [|k cards Hk Hcards IH]; intros idx; [done|].
  simpl. destruct (CARD_REGEX_plain k Hk) as [_ Hplain].
  rewrite (trim_plain k Hplain), Hk, IH. done.
Qed.

Lemma app_assoc_string (s1 s2 s3 : string) : (s1 +:+ s2) +:+ s3 = s1 +:+ s2 +:+ s3.
Proof.
  induction s1 as [|a s1 IH]; [done|].
  change ((String a s1 +:+ s2) +:+ s3) with (String a ((s1 +:+ s2) +:+ s3)).
  by rewrite IH.
Qed.

Lemma app_nonempty (s1 s2 : string) : s1 ≠ "" → s1 +:+ s2 ≠ "".
Proof. by destruct s1. Qed.

(** X4: [parseFromFile] reads back a plain board file: for a dimension
    line of two digit strings with positive values and as many valid cards
    as their product, one per line, the result is the board of those
    dimensions with the cards in row-major order, all face down. *)
Theorem parseFromFile_plain d1 d2 cards :
  all_digits d1 = true → all_digits d2 = true →
  0 < parseInt_digits d1 → 0 < parseInt_digits d2 →
  length cards = parseInt_digits d1 * parseInt_digits d2 →
  Forall (λ k, CARD_REGEX_test k = true) cards →
  parseFromFile (board_file d1 d2 cards)
  = inr (initial_board (parseInt_digits d1) (parseInt_digits d2) cards).
Proof.
  intros [Hne1 Hd1]%all_digits_forall [Hne2 Hd2]%all_digits_forall Hpos1 Hpos2 Hlen Hvalid.
  set (header := d1 +:+ "x" +:+ d2).
  set (body := String.concat "" ((λ k, k +:+ String newline "") <$> cards)).
  assert (board_file d1 d2 cards = header +:+ String newline body) as Hfile.
  { unfold board_file, header. fold body. by rewrite !app_assoc_string. }
  assert (string_forall (λ a, negb (isWhiteSpace a)) header = true) as Hheader.
  { unfold header. rewrite !string_forall_app.
    rewrite (string_forall_impl isDigit _ d1), (string_forall_impl isDigit _ d2); try done;
      intros a Ha; by destruct (digit_plain a Ha) as [-> _]. }
  assert (Forall (λ k, k ≠ "" ∧ string_forall (λ a, negb (isWhiteSpace a)) k = true) cards)
    as Hplain.
  { eapply Forall_impl; [exact Hvalid|]. intros k Hk. by apply CARD_REGEX_plain. }
  assert (∀ s, string_forall (λ a, negb (isWhiteSpace a)) s = true →
               string_forall (λ a, negb (Ascii.eqb a newline)) s = true
               ∧ string_forall (λ a, negb (Ascii.eqb a carriage)) s = true) as Hchars.
  { intros s Hs. split; (eapply string_forall_impl; [|exact Hs]); intros a Ha;
      apply negb_true_iff in Ha; destruct (not_space_plain a Ha) as [H1 H2];
      by rewrite ?H1, ?H2. }
  assert (string_forall (λ a, negb (Ascii.eqb a carriage)) (board_file d1 d2 cards) = true)
    as Hnocr.
  { rewrite Hfile, string_forall_app. rewrite (proj2 (Hchars header Hheader)).
    change (String newline body) with (String newline "" +:+ body).
    rewrite string_forall_app. simpl. apply string_forall_concat, Forall_fmap.
    eapply Forall_impl; [exact Hplain|]. intros k [_ Hk]. simpl.
    by rewrite string_forall_app, (proj2 (Hchars k Hk)). }
  unfold parseFromFile. destruct (replace_plain _ Hnocr) as [Hcrlf Hcr].
  rewrite Hcrlf, Hcr, Hfile.
  rewrite split_on_line by apply (Hchars header Hheader).
  unfold body. rewrite split_on_lines.
  2:{ eapply Forall_impl; [exact Hplain|]. intros k [_ Hk]. apply (Hchars k Hk). }
  change (header :: cards ++ [""]) with ((header :: cards) ++ [""]).
  rewrite (pop_empty_lines_plain (header :: cards)).
  2:{ constructor; [by apply app_nonempty|].
      eapply Forall_impl; [exact Hplain|]. by intros k [? _]. }
  rewrite (trim_plain header Hheader).
  destruct (String.eqb header "") eqn:Hempty.
  { apply String.eqb_eq in Hempty. by destruct (app_nonempty d1 ("x" +:+ d2) Hne1). }
  unfold match_dims, header.
  rewrite (break_at_x_digits d1 d2 Hd1).
  assert (all_digits d1 = true ∧ all_digits d2 = true) as [-> ->].
  { by destruct d1, d2. }
  simpl.
  destruct (parseInt_digits d1 =? 0) eqn:H1; [apply Nat.eqb_eq in H1; lia|].
  destruct (parseInt_digits d2 =? 0) eqn:H2; [apply Nat.eqb_eq in H2; lia|].
  simpl. rewrite Hlen, Nat.eqb_refl. simpl.
  rewrite (parse_cards_plain 0 cards Hvalid). unfold new_Board.
  assert (rep_ok (initial_board (parseInt_digits d1) (parseInt_digits d2) cards)) as Hok
    by (apply initial_board_rep_ok; [lia|done]).
  apply checkRep_None in Hok. by rewrite Hok.
Qed.

Lemma parseFromFile_plain_witness :
  parseFromFile (board_file "2" "2" ["A"; "A"; "B"; "B"]) = inr ab_board.
Proof.
  apply (parseFromFile_plain "2" "2" ["A"; "A"; "B"; "B"]); try reflexivity.
  - vm_compute. lia.
  - vm_compute. lia.
  - repeat constructor.
Defined.

(** ** The empty board file *)

Lemma pop_empty_lines_nil (lines : list string) :
  pop_empty_lines lines = [] ↔ Forall (λ l, l = "") lines.
Proof.
  induction lines as [|l lines IH]; simpl; [done|].
  destruct (pop_empty_lines lines) as [|l' rest] eqn:Hpop.
  - destruct (String.eqb l "") eqn:Hl.
    + apply String.eqb_eq in Hl. split; [|done]. intros _. constructor; [done|].
      by apply IH.
    + apply String.eqb_neq in Hl. split; [done|]. by intros [? _]%Forall_cons.
  - split; [done|]. intros [_ H]%Forall_cons. by apply IH in H.
Qed.

Lemma split_on_all_empty s :
  Forall (λ l, l = "") (split_on newline s)
  ↔ string_forall (λ a, Ascii.eqb a newline) s = true.
Proof.
  induction s as [|a s IH]; simpl.
  { split; [done|]. intros _. by constructor. }
  destruct (Ascii.eqb a newline) eqn:Ha; simpl.
  - rewrite Forall_cons. rewrite IH. naive_solver.
  - split; [|done].
    destruct (split_on newline s) as [|piece rest]; by intros [? _]%Forall_cons.
Qed.

Lemma replace_all_newlines raw :
  string_forall (λ a, Ascii.eqb a newline) (replace_cr (replace_crlf raw))
  = string_forall isLineBreak raw.
Proof.
  enough (string_forall (λ a, Ascii.eqb a newline) (replace_cr (replace_crlf raw))
          = string_forall isLineBreak raw
          ∧ ∀ a, string_forall (λ a, Ascii.eqb a newline)
                   (replace_cr (replace_crlf (String a raw)))
                 = string_forall isLineBreak (String a raw)) as [H _] by done.
  induction raw as [|b raw [IH1 IH2]].
  - split; [done|]. intros a. simpl. unfold isLineBreak.
    destruct (Ascii.eqb a carriage) eqn:Ha; simpl; by rewrite ?Ha.
  - split; [apply IH2|]. intros a.
    change (replace_crlf (String a (String b raw)))
      with (if Ascii.eqb a carriage
            then if Ascii.eqb b newline then String newline (replace_crlf raw)
                 else String a (replace_crlf (String b raw))
            else String a (replace_crlf (String b raw))).
    change (string_forall isLineBreak (String a (String b raw)))
      with (isLineBreak a && string_forall isLineBreak (String b raw)).
    rewrite <- (IH2 b).
    destruct (Ascii.eqb a carriage) eqn:Ha.
    + destruct (Ascii.eqb b newline) eqn:Hb.
      * change (string_forall isLineBreak (String b raw))
          with (isLineBreak b && string_forall isLineBreak raw) in IH2.
        rewrite (IH2 b). cbn [replace_cr string_forall]. rewrite IH1.
        unfold isLineBreak. by rewrite Ha, Hb, orb_true_r.
      * cbn [replace_cr string_forall]. rewrite Ha. unfold isLineBreak. by rewrite Ha.
    + cbn [replace_cr string_forall]. rewrite Ha. unfold isLineBreak. by rewrite Ha.
Qed.

Lemma parse_cards_error idx cardLines e :
  parse_cards idx cardLines = inl e → ∃ n line, e = InvalidCard n line.
Proof.
  revert idx. induction cardLines as [|line rest IH]; intros idx; simpl; [done|].
  destruct (CARD_REGEX_test (trim line)); [|intros [= <-]; eauto].
  destruct (parse_cards (S idx) rest) eqn:Hrest; [|done].
  intros [= <-]. by eapply IH.
Qed.

(** X5: [parseFromFile] throws "empty board file" exactly for the files
    made of line breaks alone (CR, LF), the empty file among them. *)
Theorem parseFromFile_empty raw :
  parseFromFile raw = inl EmptyBoardFile ↔ string_forall isLineBreak raw = true.
Proof.
  rewrite <- replace_all_newlines, <- split_on_all_empty, <- pop_empty_lines_nil.
  unfold parseFromFile.
  destruct (pop_empty_lines _) as [|first cardLines]; [done|].
  split; [|done].
  destruct (String.eqb (trim first) ""); [done|].
  destruct (match_dims (trim first)) as [[m1 m2]|]; [|done].
  destruct (_ || _); [done|]. destruct (negb _); [done|].
  destruct (parse_cards 0 cardLines) as [e|cards] eqn:Hcards.
  - intros [= ->]. by destruct (parse_cards_error _ _ _ Hcards) as (n & line & ?).
  - unfold new_Board. by destruct (checkRep _).
Qed.

(** ** Nobody sleeps unregistered, and a held lock has an owner *)

Lemma woken_asleep st :
  match woken st with
  | InLockQueue _ | AwaitsChange _ | AwaitsCard _ _ _ => False
  | _ => True
  end
  ∨ woken st = st.
Proof. destruct st; simpl; auto. Qed.

Lemma finish_sleepers_ok s me k b' w st reg :
  queues_ok s → sleepers_ok s → tasks s !! me = Some (HoldsLock k) →
  section_effect (board s) b' w me reg → matches_registration reg st →
  (∀ pos, reg = OnCard pos → ∃ q, cardWaiters b' !! pos = Some q ∧ me ∈ q) →
  sleepers_ok (finish me b' w st s).
Proof.
  intros Hq Hs Hme He Hreg Hcard.
  assert (∀ id, tasks (finish me b' w st s) !! id
                = if decide (id = me) then Some st
                  else if decide (id ∈ w) then woken <$> tasks s !! id
                       else tasks s !! id) as Hlookup.
  { intros id. simpl. rewrite fold_resolve_lookup.
    destruct (decide (id = me)) as [->|Hne].
    - rewrite decide_False; [apply lookup_insert_eq|].
      intros Hin. destruct (registered_asleep s me Hq) as (st0 & Hst0 & _ & _ & Hno).
      { by eapply effect_log_registered. }
      rewrite Hme in Hst0. injection Hst0 as <-. by apply (Hno k).
    - by rewrite lookup_insert_ne. }
  (* a call other than [me] that is asleep afterwards was asleep before
     and was not called *)
  assert (∀ id st', id ≠ me → tasks (finish me b' w st s) !! id = Some st' →
            woken st' ≠ st' → tasks s !! id = Some st' ∧ id ∉ w) as Hbefore.
  { intros id st' Hne Hst' Hasleep. rewrite Hlookup, decide_False in Hst' by done.
    destruct (decide (id ∈ w)); [|done].
    destruct (tasks s !! id) as [st0|]; [|done]. simpl in Hst'. injection Hst' as <-.
    destruct Hasleep. apply woken_idem. }
  split.
  - intros id k0 Hst'. simpl.
    destruct (decide (id = me)) as [->|Hne].
    { rewrite Hlookup, decide_True in Hst' by done. injection Hst' as ->. done. }
    destruct (Hbefore id _ Hne Hst') as [Hst0 Hw]; [done|].
    pose proof (lock_sleeper s Hs id k0 Hst0) as Hin.
    destruct (eff_lock _ _ _ _ _ He) as [(next & Hl & _ & Hnext)|(Hl & _)].
    + rewrite Hl in Hin. apply elem_of_cons in Hin as [->|Hin]; done.
    + rewrite Hl in Hin. by apply not_elem_of_nil in Hin.
  - intros id p Hst'. simpl.
    destruct (decide (id = me)) as [->|Hne].
    { rewrite Hlookup, decide_True in Hst' by done. injection Hst' as ->.
      simpl in Hreg. subst reg.
      destruct (eff_watchers _ _ _ _ _ He) as [->|(_ & ? & _)]; [|done].
      apply elem_of_app. right. apply list_elem_of_here. }
    destruct (Hbefore id _ Hne Hst') as [Hst0 Hw]; [done|].
    pose proof (change_sleeper s Hs id p Hst0) as Hin.
    destruct (eff_watchers _ _ _ _ _ He) as [->|(_ & _ & Hall)].
    + apply elem_of_app. by left.
    + by destruct Hw; apply Hall.
  - intros id p row col Hst'. simpl.
    destruct (decide (id = me)) as [->|Hne].
    { rewrite Hlookup, decide_True in Hst' by done. injection Hst' as ->.
      simpl in Hreg. by apply Hcard. }
    destruct (Hbefore id _ Hne Hst') as [Hst0 Hw]; [done|].
    destruct (card_sleeper s Hs id p row col Hst0) as (q & Hpos & Hin).
    destruct (eff_cards _ _ _ _ _ He (Z.to_nat row, Z.to_nat col))
      as [Hsame|[[_ Hall]|(_ & q' & Hq' & [Hold|[_ Hall]])]].
    + exists q. by rewrite Hsame.
    + destruct Hw. by eapply Hall.
    + exists (q' ++ [me]). split; [done|]. rewrite Hpos in Hold. injection Hold as <-.
      apply elem_of_app. by left.
    + destruct Hw. by eapply Hall.
  - simpl. intros Hheld.
    destruct (eff_lock _ _ _ _ _ He) as [(next & Hl & _ & Hnext)|(_ & _ & Hfree)];
      [|congruence].
    assert (next ∈ lockWaiters (board s)) as Hin by (rewrite Hl; apply list_elem_of_here).
    destruct (lock_queue_asleep s Hq next Hin) as (k0 & Hk0).
    exists next, k0. rewrite Hlookup, decide_False, decide_True, Hk0; [done|done|].
    intros ->. congruence.
  - simpl. intros Hwait.
    destruct (eff_lock _ _ _ _ _ He) as [(next & _ & -> & _)|(_ & ? & _)]; [|done].
    by apply (owner_holds s Hq me k).
Qed.

Lemma enter_sleepers_ok id k s :
  queues_ok s → sleepers_ok s → (∀ st, tasks s !! id = Some st → idle st) →
  sleepers_ok (enter id k s).
Proof.
  intros Hq Hs Hidle.
  assert (∀ id' st', tasks s !! id' = Some st' → ¬ idle st' → id' ≠ id) as Hother.
  { intros id' st' Hst' Hn ->. by apply Hn, Hidle. }
  unfold enter, acquireLock. destruct (lockHeld (board s)) eqn:Hheld; simpl.
  - split; simpl.
    + intros id' k0. rewrite lookup_insert. destruct (decide (id = id')) as [<-|Hne].
      * intros _. apply elem_of_app. right. apply list_elem_of_here.
      * intros H. apply elem_of_app. left. by apply (lock_sleeper s Hs id' k0).
    + intros id' p. rewrite lookup_insert. destruct (decide (id = id')); [done|].
      apply (change_sleeper s Hs).
    + intros id' p row col. rewrite lookup_insert. destruct (decide (id = id')); [done|].
      apply (card_sleeper s Hs).
    + intros _. destruct (held_owned s Hs Hheld) as (id' & k0 & Hk0).
      exists id', k0. rewrite lookup_insert_ne; [done|].
      intros ->. by apply (Hidle _ Hk0).
    + done.
  - split; simpl.
    + intros id' k0. rewrite lookup_insert. destruct (decide (id = id')); [done|].
      apply (lock_sleeper s Hs).
    + intros id' p. rewrite lookup_insert. destruct (decide (id = id')); [done|].
      apply (change_sleeper s Hs).
    + intros id' p row col. rewrite lookup_insert. destruct (decide (id = id')); [done|].
      apply (card_sleeper s Hs).
    + intros _. exists id, k. apply lookup_insert_eq.
    + done.
Qed.

Lemma settle_sleepers_ok id st s :
  sleepers_ok s → (∀ st0, tasks s !! id = Some st0 → idle st0) → idle st →
  sleepers_ok (mkSystem (board s) (<[id := st]> (tasks s)) (nextId s)).
Proof.
  intros Hs Hidle Hst. split; simpl.
  - intros id' k0. rewrite lookup_insert. destruct (decide (id = id')).
    + intros [= ->]. done.
    + apply (lock_sleeper s Hs).
  - intros id' p. rewrite lookup_insert. destruct (decide (id = id')).
    + intros [= ->]. done.
    + apply (change_sleeper s Hs).
  - intros id' p row col. rewrite lookup_insert. destruct (decide (id = id')).
    + intros [= ->]. done.
    + apply (card_sleeper s Hs).
  - intros Hheld. destruct (held_owned s Hs Hheld) as (id' & k0 & Hk0).
    exists id', k0. rewrite lookup_insert_ne; [done|].
    intros ->. by apply (Hidle _ Hk0).
  - apply (waiters_held s Hs).
Qed.

Lemma run_sleepers_ok id k s :
  queues_ok s → sleepers_ok s → tasks s !! id = Some (HoldsLock k) →
  sleepers_ok (run id k s).
Proof.
  intros Hq Hs Hst.
  assert (∀ b w st0, (∀ id', id' ∈ w →
             id' ∈ lockWaiters (board s) ∨ id' ∈ watchers (board s)
             ∨ (∃ pos q, cardWaiters (board s) !! pos = Some q ∧ id' ∈ q)) →
            ∀ st1, tasks (finish id b w st0 s) !! id = Some st1 → st1 = st0) as Hmine.
  { intros b w st0 Hwas st1. rewrite (finish_lookup_me id b w st0 s k Hq Hst Hwas).
    by intros [= <-]. }
  destruct k as [p row col|p|p|p f|p m]; simpl.
  - pose proof (flipSection_effect id p row col (board s)) as He.
    pose proof (flipSection_cases id p row col (board s)) as Hc. simpl in Hc.
    destruct (flipSection id p row col (board s)) as [[b w] res]. simpl in *.
    destruct (verdict p row col (afterCleanup p (board s))) as [msg|r c|r c target sec] eqn:Hv.
    + destruct Hc as (-> & _). by eapply finish_sleepers_ok.
    + destruct Hc as (-> & _ & Hcw & _).
      apply verdict_Wait in Hv as (-> & -> & _).
      eapply finish_sleepers_ok; try done.
      * simpl. by rewrite !Nat2Z.id.
      * intros pos [= <-]. eexists. rewrite Hcw, lookup_insert_eq. split; [done|].
        apply elem_of_app. right. apply list_elem_of_here.
    + destruct Hc as (_ & _ & Hres).
      destruct (checkRep _); rewrite Hres; by eapply finish_sleepers_ok.
  - pose proof (renderSection_effect p (board s) id) as He.
    destruct (renderSection p (board s)) as [[b w] text]. simpl in *.
    by eapply finish_sleepers_ok.
  - pose proof (watchSection_effect (board s) id) as He.
    destruct (watchSection id (board s)) as [b w]. simpl in *.
    by eapply finish_sleepers_ok.
  - pose proof (snapshotSection_effect (board s) id) as He.
    destruct (snapshotSection (board s)) as [[b w] cards]. simpl in *.
    assert (sleepers_ok (finish id b w (Computing p f cards) s)) as Hs'
      by (by eapply finish_sleepers_ok).
    destruct cards; [|done].
    apply enter_sleepers_ok; [by eapply finish_queues_ok|done|].
    intros st1 Hst1. apply (Hmine b) in Hst1 as ->; [done|].
    intros id' Hid'. by eapply effect_log_registered.
  - pose proof (applySection_effect m (board s) id) as He.
    destruct (applySection m (board s)) as [[b w] err]. simpl in *.
    destruct err; [by eapply finish_sleepers_ok|].
    apply enter_sleepers_ok;
      [by eapply finish_queues_ok|by eapply finish_sleepers_ok|].
    intros st1 Hst1. apply (Hmine b) in Hst1 as ->; [done|].
    intros id' Hid'. by eapply effect_log_registered.
Qed.

Lemma turn_sleepers_ok id s s' :
  queues_ok s → sleepers_ok s → turn id s = Some s' → sleepers_ok s'.
Proof.
  intros Hq Hs. unfold turn. destruct (tasks s !! id) as [st|] eqn:Hst; [|done].
  destruct st as [k|k|k|p row col|p|p f cards|v|msg]; try done.
  - intros [= <-]. apply enter_sleepers_ok; [done..|]. intros st0. rewrite Hst.
    by intros [= <-].
  - intros [= <-]. by apply run_sleepers_ok.
  - assert (∀ st0, tasks s !! id = Some st0 → idle st0) as Hidle
      by (intros st0; rewrite Hst; by intros [= <-]).
    destruct (computeTransforms f cards [] ∅).2; intros [= <-].
    + by apply settle_sleepers_ok.
    + by apply enter_sleepers_ok.
Qed.

Lemma call_sleepers_ok c s :
  system_ok s → queues_ok s → sleepers_ok s → sleepers_ok (call c s).
Proof.
  intros (_ & _ & Hts) Hq Hs. unfold call. apply enter_sleepers_ok.
  - destruct Hq. by split.
  - destruct Hs. by split.
  - simpl. intros st Hst. destruct (Hts _ _ Hst). lia.
Qed.

Lemma reachable_sleepers_ok raw b s :
  parseFromFile raw = inr b → reachable b s → sleepers_ok s.
Proof.
  intros Hparse Hreach.
  assert (sleepers_ok (start b)) as Hstart.
  { apply parseFromFile_initial in Hparse as (nrows & ncols & cards & -> & _).
    split; simpl; done. }
  pose proof (reachable_all_ok raw b) as Hall.
  unfold reachable in *. revert s Hreach.
  apply rtc_ind_r; [done|]. intros s2 s3 Hreach Hstep IH.
  destruct (Hall s2 Hparse Hreach) as [Hok Hq].
  inversion Hstep as [c s0 Heq1 Heq2|id s0 s0' Ht Heq1 Heq2]; subst.
  - by apply call_sleepers_ok.
  - by eapply turn_sleepers_ok.
Qed.

(** X6: mutual exclusion.  In every state of a system started from a
    parsed board, at most one call is inside a locked part; the lock is
    held exactly when there is such a call, that call is not in the lock
    queue and has its turn to take, and nobody waits for a free lock. *)
Theorem lock_mutual_exclusion raw b s :
  parseFromFile raw = inr b → reachable b s →
  (∀ id id' k k',
     tasks s !! id = Some (HoldsLock k) → tasks s !! id' = Some (HoldsLock k') → id = id')
  ∧ (lockHeld (board s) = true
     ↔ ∃ id k, tasks s !! id = Some (HoldsLock k) ∧ (id ∉ lockWaiters (board s))
               ∧ turn id s = Some (run id k s))
  ∧ (lockHeld (board s) = false → lockWaiters (board s) = []).
Proof.
  intros Hparse Hreach.
  destruct (reachable_all_ok raw b s Hparse Hreach) as [_ Hq].
  pose proof (reachable_sleepers_ok raw b s Hparse Hreach) as Hs.
  split; [apply (one_owner s Hq)|]. split; [split|].
  - intros Hheld. destruct (held_owned s Hs Hheld) as (id & k & Hk).
    exists id, k. split; [done|]. split.
    + intros (k0 & Hk0)%(lock_queue_asleep s Hq). congruence.
    + unfold turn. by rewrite Hk.
  - intros (id & k & Hk & _). by apply (owner_holds s Hq id k).
  - intros Hfree. destruct (lockWaiters (board s)) as [|id l] eqn:Hl; [done|].
    rewrite (waiters_held s Hs) in Hfree; [done|]. by rewrite Hl.
Qed.

Lemma lock_mutual_exclusion_witness :
  lockHeld (board ask_first) = true
  ↔ ∃ id k, tasks ask_first !! id = Some (HoldsLock k)
            ∧ (id ∉ lockWaiters (board ask_first))
            ∧ turn id ask_first = Some (run id k ask_first).
Proof.
  exact (proj1 (proj2 (lock_mutual_exclusion ab_file ab_board ask_first
                         parse_ab (exec_reachable _ _)))).
Defined.

(** X7: the registries and the table of calls agree.  A call is in the
    lock queue exactly when it is suspended in [acquireLock], in the set
    of watchers exactly when it is suspended in [watch], and in the queue
    of a position exactly when it is suspended in [waitForCard] for that
    position; the lock queue holds no call twice. *)
Theorem registries_exact raw b s :
  parseFromFile raw = inr b → reachable b s →
  (∀ id, id ∈ lockWaiters (board s) ↔ ∃ k, tasks s !! id = Some (InLockQueue k))
  ∧ (∀ id, id ∈ watchers (board s) ↔ ∃ p, tasks s !! id = Some (AwaitsChange p))
  ∧ (∀ id pos,
       (∃ q, cardWaiters (board s) !! pos = Some q ∧ id ∈ q)
       ↔ ∃ p row col, tasks s !! id = Some (AwaitsCard p row col)
                      ∧ pos = (Z.to_nat row, Z.to_nat col))
  ∧ NoDup (lockWaiters (board s)).
Proof.
  intros Hparse Hreach.
  destruct (reachable_all_ok raw b s Hparse Hreach) as [_ Hq].
  pose proof (reachable_sleepers_ok raw b s Hparse Hreach) as Hs.
  split; [|split; [|split]].
  - intros id. split; [apply (lock_queue_asleep s Hq)|].
    intros [k Hk]. by apply (lock_sleeper s Hs id k).
  - intros id. split; [apply (watchers_asleep s Hq)|].
    intros [p Hp]. by apply (change_sleeper s Hs id p).
  - intros id pos. split.
    + intros (q & Hpos & Hin). by apply (card_waiters_asleep s Hq pos q).
    + intros (p & row & col & Hst & ->). by apply (card_sleeper s Hs id p).
  - apply (lock_queue_nodup s Hq).
Qed.

Lemma registries_exact_witness :
  (∃ q, cardWaiters (board ab_waiting) !! (0, 0) = Some q ∧ 1 ∈ q)
  ↔ ∃ p row col, tasks ab_waiting !! 1 = Some (AwaitsCard p row col)
                 ∧ (0, 0) = (Z.to_nat row, Z.to_nat col).
Proof.
  exact (proj1 (proj2 (proj2 (registries_exact ab_file ab_board ab_waiting
                                parse_ab (exec_reachable _ _)))) 1 (0, 0)).
Defined.

(** ** The lock queue is served in order *)

(** The turn of the owner of the lock: one locked part, after which the
    call either leaves the lock alone or asks for it again at once. *)
Lemma run_section id k s :
  ∃ b w reg,
    section_effect (board s) b w id reg
    ∧ (board (run id k s) = b ∨ board (run id k s) = (acquireLock id b).1)
    ∧ ∀ id', id' ≠ id →
        tasks (run id k s) !! id'
        = (if decide (id' ∈ w) then woken <$> tasks s !! id' else tasks s !! id').
Proof.
  assert (∀ w st id', id' ≠ id →
            fold_left resolve w (<[id := st]> (tasks s)) !! id'
            = (if decide (id' ∈ w) then woken <$> tasks s !! id' else tasks s !! id'))
    as Hfinish.
  { intros w st id' Hne. by rewrite fold_resolve_lookup, lookup_insert_ne. }
  assert (∀ b w st k', board (enter id k' (finish id b w st s)) = (acquireLock id b).1)
    as Henter.
  { intros b w st k'. unfold enter. simpl. by destruct (acquireLock id b). }
  destruct k as [p row col|p|p|p f|p m]; simpl.
  - pose proof (flipSection_effect id p row col (board s)) as He.
    destruct (flipSection id p row col (board s)) as [[b w] res]. simpl in *.
    exists b, w. eexists. split; [exact He|]. split; [by left|]. apply Hfinish.
  - pose proof (renderSection_effect p (board s) id) as He.
    destruct (renderSection p (board s)) as [[b w] text]. simpl in *.
    exists b, w. eexists. split; [exact He|]. split; [by left|]. apply Hfinish.
  - pose proof (watchSection_effect (board s) id) as He.
    destruct (watchSection id (board s)) as [b w]. simpl in *.
    exists b, w. eexists. split; [exact He|]. split; [by left|]. apply Hfinish.
  - pose proof (snapshotSection_effect (board s) id) as He.
    destruct (snapshotSection (board s)) as [[b w] cards]. simpl in *.
    exists b, w. eexists. split; [exact He|]. destruct cards.
    + split; [right; apply Henter|]. intros id' Hne.
      rewrite enter_lookup_other by done. by apply Hfinish.
    + split; [by left|]. apply Hfinish.
  - pose proof (applySection_effect m (board s) id) as He.
    destruct (applySection m (board s)) as [[b w] err]. simpl in *.
    exists b, w. eexists. split; [exact He|]. destruct err.
    + split; [by left|]. apply Hfinish.
    + split; [right; apply Henter|]. intros id' Hne.
      rewrite enter_lookup_other by done. by apply Hfinish.
Qed.

(** X8: the lock is handed over in arrival order.  When the owner of the
    lock ends its locked part, the head of the lock queue becomes the
    owner and the others keep their order; a call that asks for the lock
    while it is held goes to the end of the queue, and no other step
    touches the queue. *)
Theorem lock_fifo raw b0 s s' :
  parseFromFile raw = inr b0 → reachable b0 s → step s s' →
  ∃ arrived,
    (arrived = [] ∨ ∃ id, arrived = [id] ∧ (id ∉ lockWaiters (board s))
                          ∧ ∃ k, tasks s' !! id = Some (InLockQueue k))
    ∧ (lockWaiters (board s') = lockWaiters (board s) ++ arrived
       ∨ ∃ owner k next rest k',
           tasks s !! owner = Some (HoldsLock k) ∧ turn owner s = Some s'
           ∧ lockWaiters (board s) = next :: rest
           ∧ tasks s !! next = Some (InLockQueue k')
           ∧ tasks s' !! next = Some (HoldsLock k')
           ∧ lockWaiters (board s') = rest ++ arrived).
Proof.
  intros Hparse Hreach Hstep.
  destruct (reachable_all_ok raw b0 s Hparse Hreach) as [Hok Hq].
  assert (reachable b0 s') as Hreach' by (by eapply rtc_r).
  destruct (reachable_all_ok raw b0 s' Hparse Hreach') as [_ Hq'].
  (* a call that asks for the lock *)
  assert (∀ id k s0, board s0 = board s → tasks s0 = tasks s →
            (∀ st, tasks s !! id = Some st → idle st) →
            ∃ arrived,
              (arrived = [] ∨ ∃ id1, arrived = [id1] ∧ (id1 ∉ lockWaiters (board s))
                                     ∧ ∃ k1, tasks (enter id k s0) !! id1
                                             = Some (InLockQueue k1))
              ∧ lockWaiters (board (enter id k s0)) = lockWaiters (board s) ++ arrived)
    as Hasks.
  { intros id k s0 Hb0 Ht0 Hidle. unfold enter, acquireLock. rewrite Hb0.
    destruct (lockHeld (board s)); simpl.
    - exists [id]. split; [|done]. right. exists id. split; [done|]. split.
      + by apply (idle_not_registered s id Hq Hidle).
      + exists k. apply lookup_insert_eq.
    - exists []. split; [by left|]. by rewrite app_nil_r. }
  inversion Hstep as [c s0 Heq1 Heq2|owner s0 s0' Ht Heq1 Heq2]; subst.
  { destruct (Hasks (nextId s) (entry c) (mkSystem (board s) (tasks s) (S (nextId s))))
      as (arrived & Harr & Hl); [done|done| |].
    - intros st Hst. destruct Hok as (_ & _ & Hts). destruct (Hts _ _ Hst). lia.
    - exists arrived. split; [exact Harr|by left]. }
  pose proof Ht as Hturn. unfold turn in Ht.
  destruct (tasks s !! owner) as [st|] eqn:Hst; [|done].
  destruct st as [k|k|k|p row col|p|p f cards|v|msg]; try done.
  - injection Ht as <-. destruct (Hasks owner k s) as (arrived & Harr & Hl); [done|done| |].
    + intros st. rewrite Hst. by intros [= <-].
    + exists arrived. split; [done|by left].
  - injection Ht as <-.
    destruct (run_section owner k s) as (b & w & reg & He & Hboard & Htasks).
    (* whether the owner asks for the lock again *)
    assert (∃ arrived,
              (arrived = [] ∨ (arrived = [owner]
                               ∧ ∃ k', tasks (run owner k s) !! owner
                                       = Some (InLockQueue k')))
              ∧ lockWaiters (board (run owner k s)) = lockWaiters b ++ arrived
              ∧ (lockHeld b = false → arrived = [])) as (arrived & Harr & Hl & Hfree).
    { destruct Hboard as [Hb|Hb].
      - exists []. split; [by left|]. by rewrite Hb, app_nil_r.
      - unfold acquireLock in Hb. destruct (lockHeld b) eqn:Hheld; simpl in Hb.
        + exists [owner]. split; [|by rewrite Hb]. right. split; [done|].
          apply (lock_queue_asleep _ Hq'). rewrite Hb. simpl.
          apply elem_of_app. right. apply list_elem_of_here.
        + exists []. split; [by left|]. by rewrite Hb, app_nil_r. }
    exists arrived. split.
    { destruct Harr as [?|[-> Hk]]; [by left|right]. exists owner. split; [done|].
      split; [|done]. intros (k0 & Hk0)%(lock_queue_asleep s Hq). congruence. }
    destruct (eff_lock _ _ _ _ _ He) as [(next & Hl0 & _ & Hnext)|(Hl0 & Hl1 & _)].
    + right. assert (next ∈ lockWaiters (board s)) as Hin
        by (rewrite Hl0; apply list_elem_of_here).
      destruct (lock_queue_asleep s Hq next Hin) as (k' & Hk').
      exists owner, k, next, (lockWaiters b), k'.
      split; [done|]. split; [done|]. split; [done|]. split; [done|]. split; [|done].
      rewrite Htasks by (intros ->; congruence). by rewrite decide_True, Hk'.
    + left. by rewrite Hl, Hl0, Hl1.
  - destruct (computeTransforms f cards [] ∅).2; injection Ht as <-.
    + exists []. split; [by left|]. left. simpl. by rewrite app_nil_r.
    + destruct (Hasks owner (DoApply p g) s) as (arrived & Harr & Hl); [done|done| |].
      * intros st. rewrite Hst. by intros [= <-].
      * exists arrived. split; [done|by left].
Qed.

Lemma lock_fifo_witness :
  ∃ arrived,
    (arrived = [] ∨ ∃ id, arrived = [id] ∧ (id ∉ lockWaiters (board two_maps_ready))
                          ∧ ∃ k, tasks two_maps_applied !! id = Some (InLockQueue k))
    ∧ (lockWaiters (board two_maps_applied) = lockWaiters (board two_maps_ready) ++ arrived
       ∨ ∃ owner k next rest k',
           tasks two_maps_ready !! owner = Some (HoldsLock k)
           ∧ turn owner two_maps_ready = Some two_maps_applied
           ∧ lockWaiters (board two_maps_ready) = next :: rest
           ∧ tasks two_maps_ready !! next = Some (InLockQueue k')
           ∧ tasks two_maps_applied !! next = Some (HoldsLock k')
           ∧ lockWaiters (board two_maps_applied) = rest ++ arrived).
Proof.
  apply (lock_fifo ab_file ab_board two_maps_ready two_maps_applied parse_ab).
  - apply exec_reachable.
  - apply (step_turn 1). vm_compute. reflexivity.
Defined.

Lemma cleanup_release_notifies_witness :
  cardWaiters (cleanupCompletedTurns "p1" (board ab_pair)).1.1 !! (0, 0) = None.
Proof.
  refine (proj1 (cleanup_release_notifies "p1" (board ab_pair) (0, 0)
                   (mkSpot (Some "A") true (Some "p1")) (mkSpot None false None)
                   _ _ _ _)).
  - vm_compute. reflexivity.
  - done.
  - vm_compute. reflexivity.
  - reflexivity.
Defined.

(** ** How many cards a player controls *)

Lemma controlledCount_le_2 b player :
  rep_ok b → turns_ok (grid b) → controlledCount player b ≤ 2.
Proof.
  intros Hrep Hturns. unfold controlledCount.
  pose proof (NoDup_counted player b) as Hnd.
  assert (∀ pos, pos ∈ List.filter (controlsAt player (grid b))
                         (positions (rows b) (cols b)) →
                 controls (grid b) player pos) as Hin
    by (intros pos; by apply controls_counted).
  destruct (List.filter _ _) as [|x [|y [|z l]]]; simpl; try lia.
  exfalso.
  apply NoDup_cons in Hnd as [Hx Hnd]. apply NoDup_cons in Hnd as [Hy _].
  assert (x ≠ y) as Hxy.
  { intros ->. apply Hx, list_elem_of_here. }
  destruct (Hturns player x y) as [_ Hthird].
  - apply Hin, list_elem_of_here.
  - apply Hin, list_elem_of_further, list_elem_of_here.
  - done.
  - destruct (Hthird z) as [->| ->].
    + apply Hin. do 2 apply list_elem_of_further. apply list_elem_of_here.
    + apply Hx, list_elem_of_further, list_elem_of_here.
    + apply Hy, list_elem_of_here.
Qed.

(** After its cleanup pass the caller of [flipCard] controls at most one
    card. *)
Lemma cleanup_count_lt_2 b player :
  rep_ok b → turns_ok (grid b) → controlledCount player (afterCleanup player b) < 2.
Proof.
  intros Hrep Hturns.
  destruct (decide (controlledCount player b < 2)) as [Hlt|Hge].
  { destruct (cleanup_open_turn player b Hrep Hlt) as [-> _]. done. }
  destruct (controlledCount_ge_2 b player Hrep) as (x & y & Hne & Hx & Hy); [lia|].
  destruct (cleanup_removes_pair b player x y Hrep Hturns Hne Hx Hy) as (Hrx & Hry & _).
  destruct (Hturns player x y Hx Hy Hne) as [_ Hthird].
  pose proof (afterCleanup_frame player b) as (Hsame & _).
  pose proof (same_grid_rep_ok _ _ Hsame (cleanup_rep_ok player b Hrep)) as Hrep2.
  destruct (decide (controlledCount player (afterCleanup player b) = 0)) as [->|Hpos];
    [lia|].
  exfalso.
  assert (∃ z, controls (grid (afterCleanup player b)) player z) as [z Hz].
  { unfold controlledCount in Hpos.
    destruct (List.filter _ _) as [|z l] eqn:Hl; [done|].
    exists z. apply (controls_counted _ _ _ Hrep2). rewrite Hl. apply list_elem_of_here. }
  destruct Hsame as (_ & _ & Hg). rewrite Hg in Hz.
  destruct (cleanup_controls player b player z Hz) as [Hz0 Hsame_spot].
  destruct Hz as (sz & Hsz & Hcz).
  destruct (Hthird z Hz0) as [->| ->]; rewrite ?Hrx, ?Hry in Hsz;
    injection Hsz as <-; done.
Qed.

(** X11: in every state of a system started from a parsed board a player
    controls at most two cards, every controlled card is face up, and two
    cards controlled by one player are equal. *)
Theorem control_bound raw b s p :
  parseFromFile raw = inr b → reachable b s →
  controlledCount p (board s) ≤ 2
  ∧ (∀ x, controls (grid (board s)) p x →
          ∃ k, spotAt (grid (board s)) x.1 x.2 = Some (mkSpot (Some k) true (Some p)))
  ∧ (∀ x y, controls (grid (board s)) p x → controls (grid (board s)) p y →
            cardAt (grid (board s)) x = cardAt (grid (board s)) y).
Proof.
  intros Hparse Hreach.
  destruct (reachable_ok raw b s Hparse Hreach) as (Hrep & Hturns & _).
  split; [by apply controlledCount_le_2|]. split.
  - intros x (sx & Hsx & Hcx).
    destruct Hrep as [_ Hspots]. destruct (Hspots _ _ _ Hsx) as (Hcard & Hup & _).
    destruct sx as [[k|] up ctl]; simpl in *.
    + exists k. rewrite Hsx, Hcx, Hup; [done|congruence].
    + destruct (Hcard eq_refl). congruence.
  - intros x y Hx Hy. destruct (decide (x = y)) as [->|Hne]; [done|].
    by destruct (Hturns p x y Hx Hy Hne).
Qed.

Lemma control_bound_witness : controlledCount "p1" (board ab_pair) ≤ 2.
Proof.
  exact (proj1 (control_bound ab_file ab_board ab_pair "p1" parse_ab (exec_reachable _ _))).
Defined.

(** X12: the check "you already control 2 cards" of [flipCard] never
    fires on a valid board: a player who controls two cards holds a
    matched pair, which the cleanup pass at the start of the call removes
    before the cards are counted. *)
Theorem never_controls_two me p row col b :
  rep_ok b → turns_ok (grid b) →
  (flipSection me p row col b).2 ≠ Threw "cannot flip: you already control 2 cards".
Proof.
  intros Hrep Hturns Hthrew.
  pose proof (cleanup_count_lt_2 b p Hrep Hturns) as Hlt.
  pose proof (flipSection_cases me p row col b) as H. simpl in H.
  pose proof (flipSection_no_assertion me p row col b) as Hret.
  destruct (verdict p row col (afterCleanup p b)) as [msg|r c|r c target sec] eqn:Hv.
  - destruct H as (Hres & _). rewrite Hres in Hthrew. injection Hthrew as ->.
    unfold verdict in Hv.
    destruct (_ || _ || _ || _)%Z; [done|].
    destruct (spotAt _ _ _) as [spot|]; [|done].
    destruct (card spot); [|done].
    destruct (2 <=? controlledCount p (afterCleanup p b)) eqn:Hc.
    + apply Nat.leb_le in Hc. lia.
    + destruct (controlledBy p spot); [done|].
      destruct (_ && _) in Hv; [done|]. by destruct (_ && _) in Hv.
  - destruct H as (Hres & _). congruence.
  - rewrite (Hret r c target sec) in Hthrew; done.
Qed.

Lemma never_controls_two_witness :
  (flipSection 2 "p1" 1 0 (board (call (flipCard "p1" 1 0) ab_pair))).2
  ≠ Threw "cannot flip: you already control 2 cards".
Proof.
  apply never_controls_two.
  - apply checkRep_None. vm_compute. reflexivity.
  - apply (reachable_ok ab_file ab_board (call (flipCard "p1" 1 0) ab_pair) parse_ab).
    eapply rtc_r; [apply exec_reachable|apply step_call].
Defined.

(** ** What the other calls cannot undo *)

Lemma flipSection_removed me player row col b0 r c :
  rep_ok b0 → spotAt (grid b0) r c = Some (mkSpot None false None) →
  spotAt (grid (flipSection me player row col b0).1.1) r c = Some (mkSpot None false None).
Proof.
  intros Hrep Hs.
  pose proof (afterCleanup_frame player b0) as (Hsame & _).
  pose proof (same_grid_rep_ok _ _ Hsame (cleanup_rep_ok player b0 Hrep)) as Hrep2.
  assert (spotAt (grid (afterCleanup player b0)) r c = Some (mkSpot None false None))
    as Hs2.
  { destruct (cleanup_spot_exists player b0 r c _ Hrep Hs) as (s' & Hs' & Hcl).
    rewrite Hs'. f_equal. inversion Hcl as [|Hcb|Hcard _ _]; done. }
  pose proof (flipSection_cases me player row col b0) as H. simpl in H.
  destruct (verdict player row col (afterCleanup player b0))
    as [msg|r' c'|r' c' target sec] eqn:Hv.
  - destruct H as (_ & (_ & _ & ->) & _). done.
  - destruct H as (_ & (_ & _ & ->) & _). done.
  - destruct H as ((_ & _ & ->) & _). by eapply turnCard_removed_stays.
Qed.

Lemma step_removed s s' r c :
  system_ok s → step s s' →
  spotAt (grid (board s)) r c = Some (mkSpot None false None) →
  spotAt (grid (board s')) r c = Some (mkSpot None false None).
Proof.
  intros (Hrep & _ & _) Hstep Hs.
  inversion Hstep as [c0 s0 Heq1 Heq2|id s0 s0' Ht Heq1 Heq2]; subst.
  { destruct (call_same_grid c0 s) as (_ & _ & ->). done. }
  destruct (turn_grid_cases id s s' Ht)
    as [(_ & _ & ->)|[(q & row & col & _ & ->)|(q & m & _ & (_ & _ & ->))]].
  - done.
  - by apply flipSection_removed.
  - destruct Hrep as [Hshape _]. by rewrite applyTransforms_spot, Hs.
Qed.

(** X13: a card that was removed never comes back.  Once the spot at a
    position is empty in some state of the system, it is empty in every
    later state, whatever calls arrive and however their turns
    interleave. *)
Theorem removed_forever raw b0 s s' r c :
  parseFromFile raw = inr b0 → reachable b0 s → rtc step s s' →
  spotAt (grid (board s)) r c = Some (mkSpot None false None) →
  spotAt (grid (board s')) r c = Some (mkSpot None false None).
Proof.
  intros Hparse Hreach Hsteps Hs. revert s' Hsteps.
  apply rtc_ind_r; [done|]. intros s1 s2 H1 Hstep IH.
  eapply step_removed; [|exact Hstep|exact IH].
  apply (reachable_ok raw b0); [done|]. unfold reachable. by eapply rtc_trans.
Qed.

Lemma removed_forever_witness :
  spotAt (grid (board (exec ab_next [Arrives (mapCards "p2" swapAB); Turn 3; Turn 3; Turn 3])))
    0 0
  = Some (mkSpot None false None).
Proof.
  apply (removed_forever ab_file ab_board ab_next _ 0 0 parse_ab).
  - apply (exec_reachable ab_board
             [Arrives (flipCard "p1" 0 0); Turn 0; Arrives (flipCard "p1" 0 1); Turn 1;
              Arrives (flipCard "p1" 1 0); Turn 2]).
  - apply exec_steps.
  - vm_compute. reflexivity.
Defined.

(** X14: only a player's own [flipCard] takes a card from that player.
    A card that q controls is still face up and controlled by q after any
    step that is not a locked part of a [flipCard] of q: calls arriving,
    the other players' flips, renders and watches leave the spot as it
    is, and the second pass of [mapCards] changes at most the card, to its
    image. *)
Theorem control_kept raw b0 s s' q r c k :
  parseFromFile raw = inr b0 → reachable b0 s → step s s' →
  spotAt (grid (board s)) r c = Some (mkSpot (Some k) true (Some q)) →
  (∀ id row col, tasks s !! id = Some (HoldsLock (DoFlip q row col)) →
                 turn id s ≠ Some s') →
  spotAt (grid (board s')) r c = Some (mkSpot (Some k) true (Some q))
  ∨ ∃ id p m, tasks s !! id = Some (HoldsLock (DoApply p m)) ∧ turn id s = Some s'
              ∧ spotAt (grid (board s')) r c
                = Some (mkSpot (Some (default k (m !! k))) true (Some q)).
Proof.
  intros Hparse Hreach Hstep Hs Hnot.
  destruct (reachable_ok raw b0 s Hparse Hreach) as (Hrep & _ & _).
  inversion Hstep as [c0 s0 Heq1 Heq2|id s0 s0' Ht Heq1 Heq2]; subst.
  { left. destruct (call_same_grid c0 s) as (_ & _ & ->). done. }
  destruct (turn_grid_cases id s s' Ht)
    as [(_ & _ & ->)|[(p & row & col & Hst & ->)|(p & m & Hst & (_ & _ & ->))]].
  - by left.
  - left. assert (q ≠ p) as Hne by (intros ->; by apply (Hnot id row col)).
    by apply (flipSection_other_player _ _ _ _ _ _ _ _ q).
  - right. exists id, p, m. split; [done|]. split; [done|].
    destruct Hrep as [Hshape _].
    by rewrite applyTransforms_spot, Hs, <- transformSpot_held.
Qed.

Lemma control_kept_witness :
  spotAt (grid (board (exec ask_first [Turn 1]))) 0 0
  = Some (mkSpot (Some "A") true (Some "p1"))
  ∨ ∃ id p m, tasks ask_first !! id = Some (HoldsLock (DoApply p m))
              ∧ turn id ask_first = Some (exec ask_first [Turn 1])
              ∧ spotAt (grid (board (exec ask_first [Turn 1]))) 0 0
                = Some (mkSpot (Some (default "A" (m !! "A"))) true (Some "p1")).
Proof.
  apply (control_kept ab_file ab_board ask_first _ "p1" 0 0 "A" parse_ab).
  - apply exec_reachable.
  - apply (step_turn 1). vm_compute. reflexivity.
  - vm_compute. reflexivity.
  - intros id row col Hst _.
    destruct (reachable_ok ab_file ab_board ask_first parse_ab (exec_reachable _ _))
      as (_ & _ & Hts).
    destruct (Hts id _ Hst) as [_ Hlt]. change (nextId ask_first) with 2 in Hlt.
    destruct id as [|[|id]]; [| |lia]; vm_compute in Hst; discriminate.
Defined.
